(** * The interactive-auth handler of synapse/handlers/auth.py

    A shallow embedding of [AuthHandler]: the nonce table, the macaroon
    tokens, the stage checkers, the session store and [check_auth], each
    written after the Python method of the same name, followed by the
    properties of the specification that concern them.

    Python objects are rendered as follows.
    - a dict used as a map is a [gmap]; the two dicts with a fixed set of
      keys (a session, a nonce record) are records with optional fields;
    - the handler's mutable attributes ([self.sessions], [self._nonces]) are
      fields of the state [AuthHandler], threaded through a state-and-
      exception monad [M];
    - session dicts are shared objects: [self.sessions] maps a session id to
      a reference, and [objects] maps references to the dicts themselves, so
      that an assignment [session['creds'] = {}] is visible through the
      store without any call to [_save_session];
    - the clock, the random source and the collaborators reached through
      [self.hs] and [self.store] are inputs: the clock reading and the
      random characters still to be drawn are state components, the rest is
      the record [HomeServer]. *)

From Stdlib Require Import ZArith String Ascii DecimalString DecimalZ DecimalPos.
From stdpp Require Import base option list gmap strings fin_maps fin_sets pretty.

Set Warnings "-register-all,-clear-no-such-hyp".

(** ** Python values and strings *)

(** JSON-like values, as they arrive in request bodies and as the checkers
    return them. *)
Inductive pyval :=
| PNone
| PBool (b : bool)
| PInt (z : Z)
| PStr (s : string)
| PList (l : list pyval)
| PDict (d : gmap string pyval).

(** [bool(v)] *)
Definition truthy (v : pyval) : bool :=
  match v with
  | PNone => false
  | PBool b => b
  | PInt z => negb (z =? 0)%Z
  | PStr s => negb (String.eqb s "")
  | PList l => negb (Nat.eqb (List.length l) 0)
  | PDict d => negb (Nat.eqb (size d) 0)
  end.

(** Lists and dicts cannot be used as dict keys. *)
Definition hashable (v : pyval) : bool :=
  match v with
  | PList _ | PDict _ => false
  | _ => true
  end.

(** [s.startswith(prefix)] *)
Definition startswith (s prefix : string) : bool := String.prefix prefix s.

(** [k in v] for a string [k]: a key test on a dict, a substring test on a
    string, a test for an element equal to [k] on a list; [None] stands for
    the [TypeError] Python raises on a value that is not iterable. *)
Definition py_in (k : string) (v : pyval) : option bool :=
  match v with
  | PDict d => Some (bool_decide (is_Some (d !! k)))
  | PStr s => Some (bool_decide (is_Some (String.index 0 k s)))
  | PList l => Some (existsb (λ x, match x with PStr s => String.eqb s k | _ => false end) l)
  | PNone | PBool _ | PInt _ => None
  end.

(** [s[n:]] *)
Fixpoint slice_from (n : nat) (s : string) : string :=
  match n, s with
  | O, _ => s
  | S n', String _ s' => slice_from n' s'
  | S _, EmptyString => EmptyString
  end.

(** ["%d" % (z,)] *)
Definition fmt_d (z : Z) : string := NilZero.string_of_int (Z.to_int z).

(** [int(s)], [None] standing for [ValueError]. Only an optional minus sign
    followed by decimal digits is read; the surrounding blanks and the plus
    sign that Python also accepts are not. *)
Definition int (s : string) : option Z := Z.of_int <$> NilZero.int_of_string s.

(** ** Errors *)

(** [synapse.api.errors.Codes], the members this handler uses, and the
    default [UNKNOWN] of [SynapseError]. *)
Inductive Codes :=
| UNRECOGNIZED | MISSING_PARAM | CAPTCHA_NEEDED | UNAUTHORIZED | FORBIDDEN | UNKNOWN.

Inductive exn :=
| SynapseError (code : Z) (msg : string) (errcode : Codes)
| LoginError (code : Z) (msg : string) (errcode : Codes)
| MacaroonException (msg : string)
| KeyError (key : string)
| TypeError
| ValueError
| AttributeError.

(** The error kinds of the specification, as the handler raises them. *)
Definition NonceAlreadyUsedError : exn := SynapseError 400 "nonce already used" UNKNOWN.
Definition UnrecognizedStageError : exn := LoginError 400 "" UNRECOGNIZED.
Definition MissingParamError : exn := LoginError 400 "" MISSING_PARAM.
Definition ForbiddenError : exn := LoginError 403 "" FORBIDDEN.
Definition UnauthorizedError : exn := LoginError 401 "" UNAUTHORIZED.
Definition InvalidTokenError : exn := LoginError 403 "Invalid token" FORBIDDEN.

(** ** The handler state *)

(** A nonce record, the dict [{"txn_id": ..., "expiry": ...}]. It is only
    read through [.get("txn_id", None)] and [.get("expiry", 0)], so a missing
    key and a [None] value are one case: [None]. *)
Record nonce_dict := NonceDict {
  nd_txn_id : option string;
  nd_expiry : option Z
}.

Global Instance nonce_dict_eq_dec : EqDecision nonce_dict.
Proof. solve_decision. Defined.

(** A session, the dict with key ["id"] and the optional keys ["clientdict"]
    and ["creds"]. *)
Record session := Session {
  s_id : string;
  s_clientdict : option (gmap string pyval);
  s_creds : option (gmap string pyval)
}.

Definition loc := nat.

(** A Python dict with string keys. *)
Abbreviation pydict := (gmap string pyval).

Record AuthHandler := Handler {
  sessions : gmap string loc;                       (* self.sessions *)
  objects : gmap loc session;                       (* the session dicts *)
  _nonces : gmap string (gmap string nonce_dict);   (* self._nonces *)
  clock : Z;                                        (* clock.time_msec() *)
  tape : list ascii                                 (* random characters to come *)
}.

Definition set_sessions (f : gmap string loc → gmap string loc) (st : AuthHandler) :=
  Handler (f (sessions st)) (objects st) (_nonces st) (clock st) (tape st).
Definition set_objects (f : gmap loc session → gmap loc session) (st : AuthHandler) :=
  Handler (sessions st) (f (objects st)) (_nonces st) (clock st) (tape st).
Definition set_nonces
    (f : gmap string (gmap string nonce_dict) → gmap string (gmap string nonce_dict))
    (st : AuthHandler) :=
  Handler (sessions st) (objects st) (f (_nonces st)) (clock st) (tape st).
Definition set_tape (f : list ascii → list ascii) (st : AuthHandler) :=
  Handler (sessions st) (objects st) (_nonces st) (clock st) (f (tape st)).

(** ** The monad of handler methods

    A method either returns a value, raises an exception, or is [Stuck]
    when the random source has no characters left (or a reference dangles,
    which no method brings about). The state at the time of a [Raise] is
    kept: what was mutated before the exception stays mutated. *)
Inductive outcome (A : Type) :=
| Return (a : A) (st : AuthHandler)
| Raise (e : exn) (st : AuthHandler)
| Stuck.
Arguments Return {A} a st.
Arguments Raise {A} e st.
Arguments Stuck {A}.

Definition M (A : Type) : Type := AuthHandler → outcome A.

Global Instance M_ret : MRet M := λ A a st, Return a st.
Global Instance M_bind : MBind M := λ A B k m st,
  match m st with
  | Return a st' => k a st'
  | Raise e st' => Raise e st'
  | Stuck => Stuck
  end.

Definition raise {A} (e : exn) : M A := λ st, Raise e st.
Definition stuck {A} : M A := λ _, Stuck.
Definition gets {A} (f : AuthHandler → A) : M A := λ st, Return (f st) st.
Definition modify (f : AuthHandler → AuthHandler) : M unit := λ st, Return tt (f st).

(** [try: m except (MacaroonException, TypeError, ValueError): h] *)
Definition try_except {A} (m : M A) (h : M A) : M A := λ st,
  match m st with
  | Raise (MacaroonException _) st' | Raise TypeError st' | Raise ValueError st' => h st'
  | o => o
  end.

(** The state an outcome leaves behind, if any. *)
Definition final_state {A} (o : outcome A) : option AuthHandler :=
  match o with
  | Return _ st | Raise _ st => Some st
  | Stuck => None
  end.

(** [self.clock.time_msec()] *)
Definition time_msec : M Z := gets clock.

(** Modelled from the spec: synapse.util.stringutils is not under src/.
    [random_string(n)] and [random_string_with_symbols(n)] return a string of
    [n] characters, each drawn from the random source. *)
Definition random_string (n : nat) : M string := λ st,
  if decide (n ≤ List.length (tape st))%nat
  then Return (string_of_list_ascii (take n (tape st))) (set_tape (drop n) st)
  else Stuck.
Definition random_string_with_symbols (n : nat) : M string := random_string n.

(** ** Collaborators *)

(** Modelled from the spec: pymacaroons is not under src/. A macaroon is an
    ordered sequence of first-party caveats bound under a signing key and an
    identifier/location pair; its signature chains the MAC over the
    identifier and the caveats in the order they were added. *)
Record Macaroon := MkMacaroon {
  location : string;
  identifier : string;
  caveats : list string;
  signature : string
}.

(** The MAC and the wire format of the macaroon library. *)
Record pymacaroons := {
  generate_derived_key : string → string;
  hmac_digest : string → string → string;
  serialize : Macaroon → string;
  deserialize : string → option Macaroon   (* None: deserialization raises *)
}.

(** What the handler reaches through [self.hs] and [self.store]: the
    configuration, the user store's case-insensitive lookup, bcrypt's
    [checkpw], the reCAPTCHA siteverify call (as the JSON body it yields for
    a response and a client address), the identity handler, and
    [UserID.create(localpart, domain).to_string()] of synapse.types. *)
Record HomeServer := {
  hostname : string;
  server_name : string;
  macaroon_secret_key : string;
  recaptcha_public_key : string;
  get_users_by_id_case_insensitive : string → gmap string string;
  checkpw : string → string → bool;
  post_urlencoded_get_json : pyval → string → gmap string pyval;
  threepid_from_creds : pyval → pyval;
  UserID_create_to_string : string → string → string
}.

(** The stage names of synapse.api.constants.LoginType. *)
Record LoginType := {
  PASSWORD : string;
  RECAPTCHA : string;
  EMAIL_IDENTITY : string;
  DUMMY : string
}.

Definition MACAROON_TYPE_LOGIN_TOKEN : string := "st_login".

Section AuthHandler.

Context (hs : HomeServer) (LT : LoginType) (lib : pymacaroons).

(** *** Macaroons *)

(** Modelled from the spec: [pymacaroons.Macaroon(location, identifier, key)]. *)
Definition Macaroon_new (loc_ ident key : string) : Macaroon :=
  MkMacaroon loc_ ident [] (hmac_digest lib (generate_derived_key lib key) ident).

(** Modelled from the spec: [add_first_party_caveat] appends; caveats are
    never removed or reordered. *)
Definition add_first_party_caveat (m : Macaroon) (c : string) : Macaroon :=
  MkMacaroon (location m) (identifier m) (caveats m ++ [c]) (hmac_digest lib (signature m) c).

Definition _generate_base_macaroon (user_id : string) : Macaroon :=
  let macaroon := Macaroon_new (server_name hs) "key" (macaroon_secret_key hs) in
  let macaroon := add_first_party_caveat macaroon "gen = 1" in
  let macaroon := add_first_party_caveat macaroon ("user_id = " +:+ user_id) in
  macaroon.

Definition generate_access_token (user_id : string) : M string :=
  let macaroon := _generate_base_macaroon user_id in
  let macaroon := add_first_party_caveat macaroon "type = access" in
  now ← time_msec;
  let expiry := (now + 60 * 60 * 1000)%Z in
  let macaroon := add_first_party_caveat macaroon ("time < " +:+ fmt_d expiry) in
  mret (serialize lib macaroon).

Definition generate_refresh_token (user_id : string) : M string :=
  let m := _generate_base_macaroon user_id in
  let m := add_first_party_caveat m "type = refresh" in
  r ← random_string_with_symbols 16;
  let m := add_first_party_caveat m ("nonce = " +:+ r) in
  mret (serialize lib m).

(** [store.add_access_token_to_user] and [store.add_refresh_token_to_user]
    write to the external store only; the handler's own state is untouched. *)
Definition issue_access_token (user_id : string) : M string :=
  access_token ← generate_access_token user_id;
  mret access_token.

Definition issue_refresh_token (user_id : string) : M string :=
  refresh_token ← generate_refresh_token user_id;
  mret refresh_token.

Definition _issue_tokens (user_id : string) : M (string * string * string) :=
  access_token ← issue_access_token user_id;
  refresh_token ← issue_refresh_token user_id;
  mret (user_id, access_token, refresh_token).

(** *** The nonce table *)

Definition _prune_nonce : M unit :=
  now ← time_msec;
  modify (set_nonces (λ nonces,
    (λ user_dict : gmap string nonce_dict,
       filter (λ kv, (default 0 (nd_expiry kv.2) < now - 60 * 1000)%Z) user_dict)
    <$> filter (λ kv, size kv.2 ≠ 0%nat) nonces)).

Definition _verify_macaroon_expiry (caveat : string) : M bool :=
  let prefix := "time < " in
  if negb (startswith caveat prefix) then mret false
  else
    match int (slice_from (String.length prefix) caveat) with
    | None => raise ValueError
    | Some expiry =>
        now ← time_msec;
        mret (bool_decide (now < expiry)%Z)
    end.

(** [user_dict] is the bucket stored under [user_id] when there is one, and
    a dict of its own otherwise; [does_match] needs the nonce in it, so the
    write goes to the stored record, whose ["expiry"] is kept. *)
Definition _verify_nonce (caveat user_id txn_id : string) : M bool :=
  let prefix := "nonce = " in
  if negb (startswith caveat prefix) then mret false
  else
    nonces ← gets _nonces;
    let user_dict := default ∅ (nonces !! user_id) in
    let nonce := slice_from (String.length prefix) caveat in
    let does_match :=
      match user_dict !! nonce with
      | Some nd => bool_decide (nd_txn_id nd = None ∨ nd_txn_id nd = Some txn_id)
      | None => false
      end in
    _ ← (if does_match
         then modify (set_nonces
                (alter (alter (λ nd, NonceDict (Some txn_id) (nd_expiry nd)) nonce) user_id))
         else mret tt);
    mret does_match.

(** [self._nonces.setdefault(user_id, {})] *)
Definition nonces_setdefault (user_id : string) : M (gmap string nonce_dict) := λ st,
  match _nonces st !! user_id with
  | Some user_dict => Return user_dict st
  | None => Return ∅ (set_nonces (<[user_id := ∅]>) st)
  end.

(** [user_nonces] is the stored bucket itself, so [user_nonces[nonce] = ...]
    writes into the table. *)
Definition make_short_term_token (user_id nonce : string) : M string :=
  user_nonces ← nonces_setdefault user_id;
  if bool_decide (is_Some (user_nonces !! nonce ≫= nd_txn_id))
  then raise (SynapseError 400 "nonce already used" UNKNOWN)
  else
    let macaroon := _generate_base_macaroon user_id in
    let macaroon :=
      add_first_party_caveat macaroon ("type = " +:+ MACAROON_TYPE_LOGIN_TOKEN) in
    now ← time_msec;
    let expiry := (now + 60 * 1000)%Z in
    let macaroon := add_first_party_caveat macaroon ("time < " +:+ fmt_d expiry) in
    let macaroon := add_first_party_caveat macaroon ("nonce = " +:+ nonce) in
    _ ← modify (set_nonces (alter (<[nonce := NonceDict None (Some expiry)]>) user_id));
    mret (serialize lib macaroon).

(** *** Verification *)

(** Modelled from the spec: the verifier of pymacaroons. A caveat is met when
    it equals one of the exact caveats or a general predicate accepts it; the
    caveats are checked in order, then the signature; a caveat that is not
    met and a signature that does not match raise a [MacaroonException]. *)
Fixpoint run_callbacks (callbacks : list (string → M bool)) (c : string) : M bool :=
  match callbacks with
  | [] => mret false
  | callback :: rest =>
      b ← callback c;
      b' ← run_callbacks rest c;
      mret (b || b')
  end.

Definition caveat_met (predicates : list string) (callbacks : list (string → M bool))
    (c : string) : M bool :=
  if bool_decide (c ∈ predicates) then mret true else run_callbacks callbacks c.

Fixpoint verify_caveats (predicates : list string) (callbacks : list (string → M bool))
    (cs : list string) (sig : string) : M string :=
  match cs with
  | [] => mret sig
  | c :: cs' =>
      met ← caveat_met predicates callbacks c;
      if met : bool
      then verify_caveats predicates callbacks cs' (hmac_digest lib sig c)
      else raise (MacaroonException ("Caveat not met. Unable to satisfy: " +:+ c))
  end.

Definition verify (predicates : list string) (callbacks : list (string → M bool))
    (macaroon : Macaroon) (key : string) : M bool :=
  sig ← verify_caveats predicates callbacks (caveats macaroon)
          (hmac_digest lib (generate_derived_key lib key) (identifier macaroon));
  if bool_decide (signature macaroon = sig) then mret true
  else raise (MacaroonException "Signatures do not match").

(** The dict returned by a token login. *)
Record login_result := LoginResult {
  lr_user_id : string;
  lr_access_token : string;
  lr_refresh_token : string;
  lr_home_server : string
}.

Definition do_short_term_token_login (token user_id txn_id : string) : M login_result :=
  let macaroon_exact_caveats :=
    ["gen = 1"; "type = " +:+ MACAROON_TYPE_LOGIN_TOKEN; "user_id = " +:+ user_id] in
  let macaroon_general_caveats :=
    [_verify_macaroon_expiry; λ c, _verify_nonce c user_id txn_id] in
  try_except
    (match deserialize lib token with
     | None => raise (MacaroonException "Could not deserialize macaroon")
     | Some macaroon =>
         verified ← verify macaroon_exact_caveats macaroon_general_caveats macaroon
                      (macaroon_secret_key hs);
         if negb verified then raise (LoginError 403 "Invalid token" FORBIDDEN)
         else
           '(user_id, access_token, refresh_token) ← _issue_tokens user_id;
           mret (LoginResult user_id access_token refresh_token (hostname hs))
     end)
    (raise (LoginError 403 "Invalid token" FORBIDDEN)).

(** *** The session store *)

(** Reading and writing the dict a reference points to. *)
Definition read_session (l : loc) : M session := λ st,
  match objects st !! l with
  | Some s => Return s st
  | None => Stuck
  end.

Definition write_session (l : loc) (f : session → session) : M unit :=
  modify (set_objects (alter f l)).

(** A new dict [{"id": session_id}]. *)
Definition alloc_session (session_id : string) : M loc := λ st,
  let l := fresh (dom (objects st)) in
  Return l (set_objects (<[l := Session session_id None None]>) st).

(** [while session_id is None or session_id in self.sessions:
       session_id = stringutils.random_string(24)].
    The loop is entered with [session_id] either [None] or a key of
    [self.sessions], so it draws at least once. Every round takes 24
    characters off the tape, which bounds the rounds. *)
Fixpoint new_session_id (rounds : nat) : M string :=
  match rounds with
  | O => stuck
  | S rounds' =>
      session_id ← random_string 24;
      taken ← gets (λ st, bool_decide (session_id ∈ dom (sessions st)));
      if taken : bool then new_session_id rounds' else mret session_id
  end.

(** [self.sessions[session_id]] *)
Definition sessions_getitem (session_id : string) : M loc := λ st,
  match sessions st !! session_id with
  | Some l => Return l st
  | None => Raise (KeyError session_id) st
  end.

Definition _get_session_info (session_id : option pyval) : M loc :=
  (* if session_id not in self.sessions: session_id = None *)
  session_id ←
    match session_id return M (option string) with
    | None => mret None
    | Some v =>
        if negb (hashable v) then raise TypeError
        else
          match v with
          | PStr s =>
              known ← gets (λ st, bool_decide (s ∈ dom (sessions st)));
              mret (if known : bool then Some s else None)
          | _ => mret None
          end
    end;
  session_id ←
    (if match session_id with None => true | Some s => String.eqb s "" end
     then
       (* create a new session *)
       rounds ← gets (λ st, S (List.length (tape st)));
       session_id ← new_session_id rounds;
       l ← alloc_session session_id;
       _ ← modify (set_sessions (<[session_id := l]>));
       mret session_id
     else mret (default "" session_id));
  sessions_getitem session_id.

Definition _save_session (session : loc) : M unit :=
  s ← read_session session;
  modify (set_sessions (<[s_id s := session]>)).

Definition _remove_session (session : loc) : M unit :=
  s ← read_session session;
  known ← gets (λ st, bool_decide (s_id s ∈ dom (sessions st)));
  if known : bool then modify (set_sessions (delete (s_id s)))
  else raise (KeyError (s_id s)).

(** *** The stage checkers *)

Definition _find_user_id_and_pwd_hash (user_id : string) : M (string * string) :=
  let user_infos := get_users_by_id_case_insensitive hs user_id in
  if Nat.eqb (size user_infos) 0 then raise (LoginError 403 "" FORBIDDEN)
  else if decide (1 < size user_infos)%nat then
    match user_infos !! user_id with
    | None => raise (LoginError 403 "" FORBIDDEN)
    | Some password_hash => mret (user_id, password_hash)
    end
  else
    (* user_infos.popitem() *)
    match map_to_list user_infos with
    | item :: _ => mret item
    | [] => raise (KeyError "popitem(): dictionary is empty")
    end.

Definition validate_hash (password stored_hash : string) : bool :=
  checkpw hs password stored_hash.

Definition _check_password (user_id password stored_hash : string) : M unit :=
  if negb (validate_hash password stored_hash)
  then raise (LoginError 403 "" FORBIDDEN)
  else mret tt.

(** A checker takes the auth dict and the client address. *)
Definition checker : Type := pydict → string → M pyval.

(** A ["user"] that is not a string has no [startswith]; a ["password"] that
    is not a string is refused by bcrypt. *)
Definition _check_password_auth : checker := λ authdict _,
  match authdict !! "user", authdict !! "password" with
  | Some user, Some password =>
      match user with
      | PStr user_id =>
          let user_id :=
            if negb (startswith user_id "@")
            then UserID_create_to_string hs user_id (hostname hs)
            else user_id in
          '(user_id, password_hash) ← _find_user_id_and_pwd_hash user_id;
          match password with
          | PStr password =>
              _ ← _check_password user_id password password_hash;
              mret (PStr user_id)
          | _ => raise TypeError
          end
      | _ => raise AttributeError
      end
  | _, _ => raise (LoginError 400 "" MISSING_PARAM)
  end.

Definition _check_recaptcha : checker := λ authdict clientip,
  match authdict !! "response" with
  | None => raise (LoginError 400 "Captcha response is required" CAPTCHA_NEEDED)
  | Some user_response =>
      let resp_body := post_urlencoded_get_json hs user_response clientip in
      if match resp_body !! "success" with Some v => truthy v | None => false end
      then mret (PBool true)
      else raise (LoginError 401 "" UNAUTHORIZED)
  end.

Definition _check_email_identity : checker := λ authdict _,
  match authdict !! "threepid_creds" with
  | None => raise (LoginError 400 "Missing threepid_creds" MISSING_PARAM)
  | Some threepid_creds =>
      let threepid := threepid_from_creds hs threepid_creds in
      if negb (truthy threepid) then raise (LoginError 401 "" UNAUTHORIZED)
      else
        match threepid with
        | PDict d => mret (PDict (<["threepid_creds" := threepid_creds]> d))
        | _ => raise TypeError
        end
  end.

Definition _check_dummy_auth : checker := λ _ _, mret (PBool true).

(** [self.checkers], a dict literal: a later entry replaces an earlier one
    with the same key. *)
Definition checkers : gmap string checker :=
  <[DUMMY LT := _check_dummy_auth]>
    (<[EMAIL_IDENTITY LT := _check_email_identity]>
       (<[RECAPTCHA LT := _check_recaptcha]>
          (<[PASSWORD LT := _check_password_auth]> ∅))).

(** *** The flow engine *)

Definition _get_params_recaptcha : pydict :=
  {[ "public_key" := PStr (recaptcha_public_key hs) ]}.

(** The dict [{"session": ..., "flows": ..., "params": ...}], with the key
    ["completed"] that [check_auth] adds. *)
Record auth_dict := AuthDict {
  ad_session : string;
  ad_flows : list (list string);
  ad_params : gmap string pydict;
  ad_completed : option (list string)
}.

Definition _auth_dict_for_flows (flows : list (list string)) (session : loc) : M auth_dict :=
  let public_flows := flows in
  let get_params : gmap string pydict := {[ RECAPTCHA LT := _get_params_recaptcha ]} in
  let params :=
    foldl (λ (params : gmap string pydict) stage,
             match get_params !! stage, params !! stage with
             | Some p, None => <[stage := p]> params
             | _, _ => params
             end) ∅ (concat public_flows) in
  s ← read_session session;
  mret (AuthDict (s_id s) public_flows params None).

(** The second component of the result of [check_auth]. *)
Inductive payload :=
| Creds (creds : pydict)
| Challenge (ret : auth_dict).

(** [len(set(f) - set(creds.keys())) == 0] *)
Definition flow_done (f : list string) (creds : pydict) : bool :=
  Nat.eqb (size ((list_to_set f : gset string) ∖ dom creds)) 0.

(** [for f in flows: if ...: self._remove_session(session); return ...];
    [None] when the loop ends without returning. *)
Fixpoint flows_loop (flows : list (list string)) (session : loc) (creds clientdict : pydict)
    : M (option (bool * payload * pydict)) :=
  match flows with
  | [] => mret None
  | f :: rest =>
      if flow_done f creds
      then
        _ ← _remove_session session;
        mret (Some (true, Creds creds, clientdict))
      else flows_loop rest session creds clientdict
  end.

Definition set_creds (creds : pydict) (s : session) : session :=
  Session (s_id s) (s_clientdict s) (Some creds).
Definition set_clientdict (clientdict : pydict) (s : session) : session :=
  Session (s_id s) (Some clientdict) (s_creds s).

(** [if 'creds' not in session: session['creds'] = {}] *)
Definition init_creds (session : loc) : M unit :=
  s ← read_session session;
  match s_creds s with
  | None => write_session session (set_creds ∅)
  | Some _ => mret tt
  end.

(** [creds[stage] = result], [creds] being the dict under [session['creds']]. *)
Definition creds_setitem (session : loc) (stage : string) (result : pyval) : M unit :=
  write_session session (λ s, set_creds (<[stage := result]> (default ∅ (s_creds s))) s).

(** The value under ['auth'] may be any JSON value. For a dict, the tests
    ['session' in authdict] and ['type' in authdict] are key tests. For a
    string or a list they are a substring and a membership test, and the
    subscripts [authdict['session']] and [authdict['type']] that follow a
    successful test raise [TypeError]; for any other value the first test
    raises [TypeError]. *)
Definition check_auth (flows : list (list string)) (clientdict : pydict) (clientip : string)
    : M (bool * payload * pydict) :=
  '(authdict, sid, clientdict) ←
    match clientdict !! "auth" with
    | Some (PDict authdict) =>
        mret (Some (PDict authdict), authdict !! "session", delete "auth" clientdict)
    | Some authdict =>
        match py_in "session" authdict with
        | Some false => mret (Some authdict, None, delete "auth" clientdict)
        | Some true | None => raise TypeError
        end
    | None => mret (None, None, clientdict)
    end;
  session ← _get_session_info sid;
  clientdict ←
    (if negb (Nat.eqb (size clientdict) 0)
     then
       _ ← write_session session (set_clientdict clientdict);
       _ ← _save_session session;
       mret clientdict
     else
       s ← read_session session;
       mret (default clientdict (s_clientdict s)));
  match authdict with
  | Some (PDict authdict) =>
      if Nat.eqb (size authdict) 0
      then
        ret ← _auth_dict_for_flows flows session;
        mret (false, Challenge ret, clientdict)
      else
        _ ← init_creds session;
        (* check auth type currently being presented *)
        _ ← match authdict !! "type" with
            | None => mret tt
            | Some ty =>
                if negb (hashable ty) then raise TypeError
                else
                  match (match ty with
                         | PStr t => c ← checkers !! t; Some (t, c)
                         | _ => None
                         end) with
                  | None => raise (LoginError 400 "" UNRECOGNIZED)
                  | Some (t, check) =>
                      result ← check authdict clientip;
                      if truthy result
                      then
                        _ ← creds_setitem session t result;
                        _save_session session
                      else mret tt
                  end
            end;
        s ← read_session session;
        let creds := default ∅ (s_creds s) in
        done ← flows_loop flows session creds clientdict;
        match done with
        | Some r => mret r
        | None =>
            ret ← _auth_dict_for_flows flows session;
            let ret := AuthDict (ad_session ret) (ad_flows ret) (ad_params ret)
                         (Some (map_to_list creds).*1) in
            mret (false, Challenge ret, clientdict)
        end
  | Some authdict =>
      (* a string or a list *)
      if negb (truthy authdict)
      then
        ret ← _auth_dict_for_flows flows session;
        mret (false, Challenge ret, clientdict)
      else
        _ ← init_creds session;
        _ ← match py_in "type" authdict with
            | Some false => mret tt
            | Some true | None => raise TypeError
            end;
        s ← read_session session;
        let creds := default ∅ (s_creds s) in
        done ← flows_loop flows session creds clientdict;
        match done with
        | Some r => mret r
        | None =>
            ret ← _auth_dict_for_flows flows session;
            let ret := AuthDict (ad_session ret) (ad_flows ret) (ad_params ret)
                         (Some (map_to_list creds).*1) in
            mret (false, Challenge ret, clientdict)
        end
  | None =>
      ret ← _auth_dict_for_flows flows session;
      mret (false, Challenge ret, clientdict)
  end.

Definition add_oob_auth (stagetype : string) (authdict : pydict) (clientip : string)
    : M bool :=
  match checkers !! stagetype with
  | None => raise (LoginError 400 "" MISSING_PARAM)
  | Some check =>
      match authdict !! "session" with
      | None => raise (LoginError 400 "" MISSING_PARAM)
      | Some sid =>
          sess ← _get_session_info (Some sid);
          _ ← init_creds sess;
          result ← check authdict clientip;
          if truthy result
          then
            _ ← creds_setitem sess stagetype result;
            _ ← _save_session sess;
            mret true
          else mret false
      end
  end.

(** *** Password login *)


End AuthHandler.

(** ** Notions used in the statements *)

(** The record of [(user_id, nonce)] in the nonce table. *)
Definition nonce_record (st : AuthHandler) (user_id nonce : string) : option nonce_dict :=
  _nonces st !! user_id ≫= (.!! nonce).

(** The record of [(user_id, nonce)] carries a transaction id. *)
Definition nonce_bound (st : AuthHandler) (user_id nonce : string) : bool :=
  bool_decide (is_Some (nonce_record st user_id nonce ≫= nd_txn_id)).

(** The macaroon of a short-term login token minted at time [now]. *)
Definition short_term_macaroon (hs : HomeServer) (lib : pymacaroons)
    (user_id nonce : string) (now : Z) : Macaroon :=
  add_first_party_caveat lib
    (add_first_party_caveat lib
       (add_first_party_caveat lib (_generate_base_macaroon hs lib user_id)
          ("type = " +:+ MACAROON_TYPE_LOGIN_TOKEN))
       ("time < " +:+ fmt_d (now + 60 * 1000)))
    ("nonce = " +:+ nonce).

(** A handler with nothing in it. *)
Definition empty_handler (now : Z) (random : list ascii) : AuthHandler :=
  Handler ∅ ∅ ∅ now random.

(** A nonce table on which the sweep is run at time 100000: [live] and [n2]
    expire at 160000, one minute after they were claimed; [old] expired at
    10000, ninety seconds ago. *)
Definition prune_input : AuthHandler :=
  Handler ∅ ∅
    (<["@b:x" := {[ "n2" := NonceDict None (Some 160000%Z) ]}]>
       {[ "@a:x" := <["old" := NonceDict None (Some 10000%Z)]>
                      {[ "live" := NonceDict None (Some 160000%Z) ]} ]})
    100000 [].

(** Collaborators to run the handler on: a store with the two users
    [@a:x] and [@A:x], a MAC that appends, and a wire format that is the
    printed code of the macaroon's fields. *)
Definition demo_hs : HomeServer := {|
  hostname := "x";
  server_name := "x";
  macaroon_secret_key := "secret";
  recaptcha_public_key := "site-key";
  get_users_by_id_case_insensitive := λ user_id,
    if String.eqb user_id "@a:x" || String.eqb user_id "@A:x"
    then <["@A:x" := "hash-of-q"]> {[ "@a:x" := "hash-of-p" ]}
    else ∅;
  checkpw := λ password stored_hash, String.eqb ("hash-of-" +:+ password) stored_hash;
  post_urlencoded_get_json := λ _ _, {[ "success" := PBool true ]};
  threepid_from_creds := λ _, PNone;
  UserID_create_to_string := λ localpart domain, "@" +:+ localpart +:+ ":" +:+ domain
|}.

Definition demo_LT : LoginType := {|
  PASSWORD := "m.login.password";
  RECAPTCHA := "m.login.recaptcha";
  EMAIL_IDENTITY := "m.login.email.identity";
  DUMMY := "m.login.dummy"
|}.

Definition macaroon_fields (m : Macaroon) : string * string * list string * string :=
  (location m, identifier m, caveats m, signature m).

Definition demo_lib : pymacaroons := {|
  generate_derived_key := λ key, key;
  hmac_digest := λ key msg, msg +:+ ";" +:+ key;
  serialize := λ m, pretty (encode (macaroon_fields m));
  deserialize := λ token,
    if String.eqb token "forged"
    then Some (MkMacaroon "x" "key" ["gen = 1"] "gen = 1;key;other-secret")
    else None
|}.

(** The signature a macaroon with these caveats has under [key]. *)
Definition macaroon_signature (lib : pymacaroons) (key ident : string) (cs : list string)
    : string :=
  foldl (hmac_digest lib) (hmac_digest lib (generate_derived_key lib key) ident) cs.

Definition signed_under (lib : pymacaroons) (key : string) (m : Macaroon) : Prop :=
  signature m = macaroon_signature lib key (identifier m) (caveats m).

(** The MAC tells keys apart: two keys that sign one message alike are one
    key, and key derivation is injective. *)
Definition mac_separates_keys (lib : pymacaroons) : Prop :=
  (∀ k k' msg, hmac_digest lib k msg = hmac_digest lib k' msg → k = k') ∧
  (∀ k k', generate_derived_key lib k = generate_derived_key lib k' → k = k').

(** What verification leaves as it was: the session store, the clock, the
    random source and which records the nonce table holds; it may bind
    transaction ids. *)
Definition token_frame (st st' : AuthHandler) : Prop :=
  sessions st' = sessions st ∧ objects st' = objects st ∧
  clock st' = clock st ∧ tape st' = tape st ∧
  ∀ u n, is_Some (nonce_record st' u n) ↔ is_Some (nonce_record st u n).

Definition login_predicates (user_id : string) : list string :=
  ["gen = 1"; "type = " +:+ MACAROON_TYPE_LOGIN_TOKEN; "user_id = " +:+ user_id].

Definition login_callbacks (user_id txn_id : string) : list (string → M bool) :=
  [_verify_macaroon_expiry; λ c, _verify_nonce c user_id txn_id].

(** A general predicate accepts the caveat [c]: it is a time caveat whose
    bound lies ahead, or a nonce caveat with a record for the expected
    user. *)
Definition accepted (user_id : string) (st : AuthHandler) (c : string) : Prop :=
  (startswith c "time < " = true ∧
   ∃ expiry, int (slice_from 7 c) = Some expiry ∧ (clock st < expiry)%Z) ∨
  (startswith c "nonce = " = true ∧ is_Some (nonce_record st user_id (slice_from 8 c))).

(** The token passes: its signature is the one the configured secret gives
    and each caveat is matched exactly or accepted. *)
Definition verified (hs : HomeServer) (lib : pymacaroons) (user_id : string)
    (st : AuthHandler) (m : Macaroon) : Prop :=
  signed_under lib (macaroon_secret_key hs) m ∧
  Forall (λ c, c ∈ login_predicates user_id ∨ accepted user_id st c) (caveats m).

(** The id looked up: the ["user"] field, completed with the server's host
    name when it does not start with [@]. *)
Definition requested_user_id (hs : HomeServer) (user : string) : string :=
  if startswith user "@" then user else UserID_create_to_string hs user (hostname hs).

(** What the checker does once the store has answered with [found], the
    canonical id and the stored hash. *)
Definition password_verdict (hs : HomeServer) (password : string) (found : option (string * string))
    (st : AuthHandler) : outcome pyval :=
  match found with
  | Some (canonical, h) =>
      if checkpw hs password h then Return (PStr canonical) st else Raise ForbiddenError st
  | None => Raise ForbiddenError st
  end.

(** A method that leaves the state alone. *)
Definition pure_method {A} (m : M A) : Prop :=
  ∀ st, match m st with
        | Return _ st' | Raise _ st' => st' = st
        | Stuck => False
        end.

(** The [k]-th run of 24 characters on the tape: the [k]-th candidate id. *)
Definition tape_block (k : nat) (random : list ascii) : string :=
  string_of_list_ascii (take 24 (drop (24 * k) random)).

(** The random source still holds a complete candidate id that is not a key
    of the store. *)
Definition supplies_fresh_id (st : AuthHandler) : Prop :=
  ∃ k, (24 * (k + 1) ≤ List.length (tape st))%nat ∧
       (tape_block k (tape st) ∉ dom (sessions st)).

(** The request names no stored session: it carries no session id, an empty
    one, one that is not a key, or a value that is not a string. *)
Definition names_no_session (st : AuthHandler) (session_id : option pyval) : Prop :=
  match session_id with
  | None => True
  | Some (PStr s) => s = "" ∨ s ∉ dom (sessions st)
  | Some v => hashable v = true
  end.

(** The state after [_get_session_info] has created the session [sid],
    having read [n] characters of the tape. *)
Definition with_new_session (sid : string) (n : nat) (st : AuthHandler) : AuthHandler :=
  let l := fresh (dom (objects st)) in
  Handler (<[sid := l]> (sessions st)) (<[l := Session sid None None]> (objects st))
    (_nonces st) (clock st) (drop n (tape st)).

(** Every key of the store leads to a session dict carrying that key as its
    ["id"]. *)
Definition store_inv (st : AuthHandler) : Prop :=
  ∀ k l, sessions st !! k = Some l → ∃ s, objects st !! l = Some s ∧ s_id s = k.

(** The session dict behind [l] exists, in a store that satisfies the
    invariant. *)
Definition live (l : loc) (st : AuthHandler) : Prop :=
  store_inv st ∧ is_Some (objects st !! l).

Definition put_object (l : loc) (s : session) (st : AuthHandler) : AuthHandler :=
  set_objects (<[l := s]>) st.

(** The public parameters of a challenge. *)
Definition flow_params (hs : HomeServer) (LT : LoginType) (flows : list (list string))
    : gmap string pydict :=
  foldl (λ (params : gmap string pydict) stage,
           match ({[ RECAPTCHA LT := _get_params_recaptcha hs ]} : gmap string pydict) !! stage,
                 params !! stage with
           | Some p, None => <[stage := p]> params
           | _, _ => params
           end) ∅ (concat flows).

(** The session once the request body has been taken in and the credentials
    map exists; [body] is the request without its ['auth'] key. *)
Definition received_session (body : pydict) (s : session) : session :=
  Session (s_id s)
    (if Nat.eqb (size body) 0 then s_clientdict s else Some body)
    (Some (default ∅ (s_creds s))).

(** The request parameters handed back to the caller. *)
Definition request_params (body : pydict) (s : session) : pydict :=
  if Nat.eqb (size body) 0 then default body (s_clientdict s) else body.

(** The session once the stage [t] has been credited with [result]. *)
Definition credited_session (body : pydict) (t : string) (result : pyval) (s : session)
    : session :=
  set_creds (<[t := result]> (default ∅ (s_creds s))) (received_session body s).

(** Some flow has all its stages among the keys of [creds]. *)
Definition some_flow_done (flows : list (list string)) (creds : pydict) : bool :=
  existsb (λ f, flow_done f creds) flows.

(** Every stage of the flow [g] is among the keys [K]. *)
Definition flow_satisfied (g : list string) (K : gset string) : Prop :=
  ∀ stage, stage ∈ g → stage ∈ K.

(** A sequence of [check_auth] calls, each on the state the one before left
    behind. *)
Fixpoint run_check_auth (hs : HomeServer) (LT : LoginType) (flows : list (list string))
    (reqs : list (pydict * string)) (st : AuthHandler)
    : list (outcome (bool * payload * pydict)) :=
  match reqs with
  | [] => []
  | (clientdict, clientip) :: rest =>
      let o := check_auth hs LT flows clientdict clientip st in
      o :: match final_state o with
           | Some st' => run_check_auth hs LT flows rest st'
           | None => []
           end
  end.

(** The session id [session_id] of a request resolves to the session dict
    [s] behind [l], which the store holds under its id in the state [st1]
    that [_get_session_info] leaves. *)
Definition resolves_to (st : AuthHandler) (session_id : option pyval) (l : loc) (s : session)
    (st1 : AuthHandler) : Prop :=
  _get_session_info session_id st = Return l st1 ∧
  objects st1 !! l = Some s ∧ sessions st1 !! s_id s = Some l.

(** The request [req] presents the stage [t] with [session_id] in the
    ['session'] field of its auth dict, and the checker of [t] accepts it. *)
Definition stage_request (hs : HomeServer) (LT : LoginType) (session_id : option pyval)
    (t : string) (req : pydict * string) : Prop :=
  ∃ (authdict : pydict) (check : checker) (result : pyval),
    req.1 !! "auth" = Some (PDict authdict) ∧
    authdict !! "session" = session_id ∧
    authdict !! "type" = Some (PStr t) ∧
    checkers hs LT !! t = Some check ∧
    (∀ st, check authdict req.2 st = Return result st) ∧
    truthy result = true.

(** The call answered with a challenge. *)
Definition incomplete (o : outcome (bool * payload * pydict)) : Prop :=
  ∃ ret clientdict st, o = Return (false, Challenge ret, clientdict) st.

(** One step of the engine: a call of one of the handler's methods, taken to
    the state it leaves behind whether it returned or raised, or a step of
    the environment, which moves the clock and feeds the random source. *)
Inductive engine_step (hs : HomeServer) (LT : LoginType) (lib : pymacaroons)
    : AuthHandler → AuthHandler → Prop :=
| step_get_session_info session_id st st' :
    final_state (_get_session_info session_id st) = Some st' → engine_step hs LT lib st st'
| step_save_session l st st' :
    final_state (_save_session l st) = Some st' → engine_step hs LT lib st st'
| step_remove_session l st st' :
    final_state (_remove_session l st) = Some st' → engine_step hs LT lib st st'
| step_check_auth flows clientdict clientip st st' :
    final_state (check_auth hs LT flows clientdict clientip st) = Some st' →
    engine_step hs LT lib st st'
| step_add_oob_auth stagetype authdict clientip st st' :
    final_state (add_oob_auth hs LT stagetype authdict clientip st) = Some st' →
    engine_step hs LT lib st st'
| step_make_short_term_token user_id nonce st st' :
    final_state (make_short_term_token hs lib user_id nonce st) = Some st' →
    engine_step hs LT lib st st'
| step_do_short_term_token_login token user_id txn_id st st' :
    final_state (do_short_term_token_login hs lib token user_id txn_id st) = Some st' →
    engine_step hs LT lib st st'
| step_issue_tokens user_id st st' :
    final_state (_issue_tokens hs lib user_id st) = Some st' → engine_step hs LT lib st st'
| step_prune_nonce st st' :
    final_state (_prune_nonce st) = Some st' → engine_step hs LT lib st st'
| step_environment now random st :
    engine_step hs LT lib st (Handler (sessions st) (objects st) (_nonces st) now random).

(** The states the engine can be in, starting with nothing stored. *)
Inductive reachable (hs : HomeServer) (LT : LoginType) (lib : pymacaroons)
    : AuthHandler → Prop :=
| reachable_init now random : reachable hs LT lib (empty_handler now random)
| reachable_step st st' :
    reachable hs LT lib st → engine_step hs LT lib st st' → reachable hs LT lib st'.

(** [hoare P m Q E]: from a state in [P], [m] ends in [Q] when it returns
    and in [E] when it raises. *)
Definition hoare {A} (P : AuthHandler → Prop) (m : M A)
    (Q : A → AuthHandler → Prop) (E : exn → AuthHandler → Prop) : Prop :=
  ∀ st, P st →
    match m st with
    | Return a st' => Q a st'
    | Raise e st' => E e st'
    | Stuck => True
    end.

(** [keeps P m]: [m] takes [P] to [P], whichever way it ends. *)
Definition keeps {A} (P : AuthHandler → Prop) (m : M A) : Prop :=
  hoare P m (λ _, P) (λ _, P).

(** The handler when the clock reads [now]. *)
Definition at_time (now : Z) (st : AuthHandler) : AuthHandler :=
  Handler (sessions st) (objects st) (_nonces st) now (tape st).

(** The write [_verify_nonce] makes when it binds [txn_id] to the record of
    [(user_id, nonce)]. *)
Definition bind_txn (user_id nonce txn_id : string)
    : gmap string (gmap string nonce_dict) → gmap string (gmap string nonce_dict) :=
  alter (alter (λ nd, NonceDict (Some txn_id) (nd_expiry nd)) nonce) user_id.

(** [demo_lib] with a wire format that reads back the short-term token of
    [@a:x] for the nonce [n1], minted at time 0. *)
Definition demo_token_lib : pymacaroons := {|
  generate_derived_key := generate_derived_key demo_lib;
  hmac_digest := hmac_digest demo_lib;
  serialize := serialize demo_lib;
  deserialize := λ token,
    if String.eqb token
         (serialize demo_lib (short_term_macaroon demo_hs demo_lib "@a:x" "n1" 0))
    then Some (short_term_macaroon demo_hs demo_lib "@a:x" "n1" 0)
    else None
|}.

(** The macaroons behind the access and the refresh token issued at time
    [now], the refresh token with the random string [r]. *)
Definition access_macaroon (hs : HomeServer) (lib : pymacaroons) (user_id : string) (now : Z)
    : Macaroon :=
  add_first_party_caveat lib
    (add_first_party_caveat lib (_generate_base_macaroon hs lib user_id) "type = access")
    ("time < " +:+ fmt_d (now + 60 * 60 * 1000)).

Definition refresh_macaroon (hs : HomeServer) (lib : pymacaroons) (user_id r : string)
    : Macaroon :=
  add_first_party_caveat lib
    (add_first_party_caveat lib (_generate_base_macaroon hs lib user_id) "type = refresh")
    ("nonce = " +:+ r).

(** What a login of [user_id] returns when it issues its tokens in [st]. *)
Definition issued (hs : HomeServer) (lib : pymacaroons) (user_id : string) (st : AuthHandler)
    : login_result :=
  LoginResult user_id
    (serialize lib (access_macaroon hs lib user_id (clock st)))
    (serialize lib
       (refresh_macaroon hs lib user_id (string_of_list_ascii (take 16 (tape st)))))
    (hostname hs).

(** A login under [txn_id] may use the record of [(user_id, nonce)]: the
    record exists and is unbound or bound to [txn_id]. *)
Definition usable_nonce (st : AuthHandler) (user_id nonce txn_id : string) : bool :=
  match nonce_record st user_id nonce with
  | Some nd => bool_decide (nd_txn_id nd = None ∨ nd_txn_id nd = Some txn_id)
  | None => false
  end.

(** The state in which a short-term token for [@a:x] and the nonce [n1] has
    just been minted at time 0, with [random] as the random source. *)
Definition minted_state (random : list ascii) : AuthHandler :=
  Handler ∅ ∅ {[ "@a:x" := {[ "n1" := NonceDict None (Some 60000%Z) ]} ]} 0 random.

(** What a checker answers with: a credential or an error, the state left
    as it was. *)
Definition answer (o : pyval + exn) : M pyval := λ st,
  match o with
  | inl v => Return v st
  | inr e => Raise e st
  end.

(** ** Running the monad *)

Lemma bind_run {A B} (m : M A) (k : A → M B) (st : AuthHandler) :
  (m ≫= k) st =
    match m st with
    | Return a st' => k a st'
    | Raise e st' => Raise e st'
    | Stuck => Stuck
    end.
Proof. reflexivity. Qed.

Lemma ret_run {A} (a : A) (st : AuthHandler) : (mret a : M A) st = Return a st.
Proof. reflexivity. Qed.

Ltac mrun :=
  repeat (first
    [ rewrite bind_run
    | rewrite ret_run
    | progress unfold gets, modify, raise, stuck, time_msec
    | progress cbn ]).

(** ** Strings *)

Lemma startswith_app (p s : string) : startswith (p +:+ s) p = true.
Proof.
  unfold startswith. induction p as [|a p IH]; simpl.
  - by destruct s.
  - by destruct (ascii_dec a a).
Qed.

Lemma slice_from_app (p s : string) : slice_from (String.length p) (p +:+ s) = s.
Proof. induction p as [|a p IH]; simpl; [by destruct s | done]. Qed.

Arguments slice_from : simpl never.

Lemma string_app_inj (p s1 s2 : string) : p +:+ s1 = p +:+ s2 → s1 = s2.
Proof. induction p as [|a p IH]; simpl; [done | intros [=]; auto]. Qed.

Lemma length_string_of_list_ascii (l : list ascii) :
  String.length (string_of_list_ascii l) = List.length l.
Proof. induction l as [|a l IH]; simpl; congruence. Qed.

Lemma string_of_list_ascii_inj (l1 l2 : list ascii) :
  string_of_list_ascii l1 = string_of_list_ascii l2 → l1 = l2.
Proof.
  intros H. rewrite <- (list_ascii_of_string_of_list_ascii l1),
    <- (list_ascii_of_string_of_list_ascii l2). by rewrite H.
Qed.

(** ** The nonce table *)

Section NonceTable.

Context (hs : HomeServer) (lib : pymacaroons).

(** What the sweep computes, bucket by bucket. *)
Lemma prune_nonce_lookup (st : AuthHandler) (user_id : string) :
  ∃ st', _prune_nonce st = Return tt st' ∧
    _nonces st' !! user_id =
      (user_dict ← _nonces st !! user_id;
       if decide (size user_dict ≠ 0%nat)
       then Some (filter (λ kv, (default 0 (nd_expiry kv.2) < clock st - 60 * 1000)%Z)
                    user_dict)
       else None).
Proof.
  eexists. split; [reflexivity|]. cbn.
  rewrite lookup_fmap. destruct (_nonces st !! user_id) as [d|] eqn:E; cbn.
  - case_decide as Hd.
    + erewrite map_lookup_filter_Some_2; [done..|]. done.
    + rewrite map_lookup_filter_None_2; [done|]. right. intros d' Hd'.
      rewrite E in Hd'. injection Hd' as <-. cbn. lia.
  - rewrite map_lookup_filter_None_2; [done|]. by left.
Qed.

Lemma verify_nonce_eq (st : AuthHandler) (user_id nonce txn_id : string) :
  _verify_nonce ("nonce = " +:+ nonce) user_id txn_id st =
    match nonce_record st user_id nonce with
    | Some nd =>
        if bool_decide (nd_txn_id nd = None ∨ nd_txn_id nd = Some txn_id)
        then Return true
               (set_nonces
                  (alter (alter (λ nd, NonceDict (Some txn_id) (nd_expiry nd)) nonce) user_id)
                  st)
        else Return false st
    | None => Return false st
    end.
Proof.
  unfold _verify_nonce. rewrite startswith_app. cbn [negb].
  rewrite slice_from_app. unfold nonce_record. mrun.
  destruct (_nonces st !! user_id) as [d|]; cbn; [|by rewrite lookup_empty].
  destruct (d !! nonce) as [nd|]; [|done].
  by case_bool_decide.
Qed.

Lemma nonce_record_bind (st : AuthHandler) (user_id nonce txn_id u n : string) :
  nonce_record
    (set_nonces
       (alter (alter (λ nd, NonceDict (Some txn_id) (nd_expiry nd)) nonce) user_id) st) u n =
  if decide (u = user_id ∧ n = nonce)
  then (λ nd, NonceDict (Some txn_id) (nd_expiry nd)) <$> nonce_record st user_id nonce
  else nonce_record st u n.
Proof.
  unfold nonce_record; cbn. case_decide as H.
  - destruct H as [-> ->]. rewrite lookup_alter_eq.
    destruct (_nonces st !! user_id) as [d|]; cbn; [|done].
    by rewrite lookup_alter_eq.
  - destruct (decide (u = user_id)) as [->|Hu].
    + rewrite lookup_alter_eq. destruct (_nonces st !! user_id) as [d|]; cbn; [|done].
      rewrite lookup_alter_ne; [done|]. naive_solver.
    + by rewrite lookup_alter_ne.
Qed.

Lemma handler_eq (st st' : AuthHandler) :
  sessions st = sessions st' → objects st = objects st' → _nonces st = _nonces st' →
  clock st = clock st' → tape st = tape st' → st = st'.
Proof. destruct st, st'; cbn; congruence. Qed.

(** Binding again the transaction id a record already carries changes nothing. *)
Lemma rebind_same (st : AuthHandler) (user_id nonce txn_id : string) (nd : nonce_dict) :
  nonce_record st user_id nonce = Some nd → nd_txn_id nd = Some txn_id →
  set_nonces (alter (alter (λ nd, NonceDict (Some txn_id) (nd_expiry nd)) nonce) user_id) st
  = st.
Proof.
  unfold nonce_record. intros Hr Ht. apply handler_eq; try done. cbn.
  apply alter_id. intros d Hd. rewrite Hd in Hr. cbn in Hr.
  apply alter_id. intros nd' Hnd'. rewrite Hnd' in Hr. injection Hr as ->.
  destruct nd as [t e]; cbn in *. by subst.
Qed.

Lemma make_short_term_token_eq (st : AuthHandler) (user_id nonce : string) :
  make_short_term_token hs lib user_id nonce st =
    if nonce_bound st user_id nonce
    then Raise NonceAlreadyUsedError st
    else Return (serialize lib (short_term_macaroon hs lib user_id nonce (clock st)))
           (set_nonces
              (λ nonces,
                 <[user_id := <[nonce := NonceDict None (Some (clock st + 60 * 1000)%Z)]>
                                 (default ∅ (nonces !! user_id))]> nonces)
              st).
Proof.
  unfold make_short_term_token, nonce_bound, nonce_record.
  rewrite bind_run. unfold nonces_setdefault.
  destruct (_nonces st !! user_id) as [d|] eqn:E; cbn.
  - case_bool_decide as Hb; mrun; [done|].
    f_equal. apply handler_eq; try done. cbn.
    apply map_eq. intros u. destruct (decide (u = user_id)) as [->|Hu].
    + by rewrite lookup_alter_eq, lookup_insert_eq, E.
    + by rewrite lookup_alter_ne, lookup_insert_ne.
  - rewrite lookup_empty. mrun. f_equal. apply handler_eq; try done. cbn.
    apply map_eq. intros u. destruct (decide (u = user_id)) as [->|Hu].
    + by rewrite lookup_alter_eq, !lookup_insert_eq, E.
    + by rewrite lookup_alter_ne, !lookup_insert_ne.
Qed.

Lemma nonce_record_claim (st : AuthHandler) (user_id nonce : string) (nd : nonce_dict) :
  nonce_record
    (set_nonces (λ nonces, <[user_id := <[nonce := nd]> (default ∅ (nonces !! user_id))]> nonces)
       st) user_id nonce = Some nd.
Proof. unfold nonce_record; cbn. rewrite lookup_insert_eq. cbn. by rewrite lookup_insert_eq. Qed.

End NonceTable.

(** C1, on the code as it is. The sweep keeps the records it should drop
    and drops the ones it should keep, and it tests a bucket for emptiness
    before filtering it, not after. On [prune_input], swept at time 100000:
    the record [live] of [@a:x], which expires at 160000, is removed; the
    record [old], which expired at 10000, more than 60 seconds before, is
    still there; and the bucket of [@b:x], empty after the sweep, is still in
    the table. The specification asks for the opposite in all three places. *)
Theorem prune_nonce_drops_live_keeps_expired :
  ∃ st', _prune_nonce prune_input = Return tt st' ∧
    nonce_record prune_input "@a:x" "live" = Some (NonceDict None (Some 160000%Z)) ∧
    nonce_record st' "@a:x" "live" = None ∧
    nonce_record st' "@a:x" "old" = Some (NonceDict None (Some 10000%Z)) ∧
    _nonces st' !! "@b:x" = Some ∅.
Proof. eexists. split; [reflexivity|]. vm_compute. repeat split. Qed.

(** C2, as stated, fails: with no transaction id bound in between, the
    second [make_short_term_token] for the same user and nonce returns a
    token again instead of raising. *)
Lemma second_claim_succeeds_unbound :
  ∃ tok1 st1 tok2 st2,
    make_short_term_token demo_hs demo_lib "@a:x" "n1" (empty_handler 0 []) = Return tok1 st1 ∧
    make_short_term_token demo_hs demo_lib "@a:x" "n1" st1 = Return tok2 st2 ∧
    nonce_record st1 "@a:x" "n1" = Some (NonceDict None (Some 60000%Z)).
Proof.
  do 4 eexists. rewrite make_short_term_token_eq.
  change (nonce_bound (empty_handler 0 []) "@a:x" "n1") with false. cbv iota.
  split; [reflexivity|]. rewrite make_short_term_token_eq.
  split; [|by vm_compute].
  match goal with |- (if ?b then _ else _) = _ => replace b with false by (by vm_compute) end.
  reflexivity.
Qed.

(** C2, amended. [make_short_term_token] raises the nonce-already-used error
    exactly when the record of [(user_id, nonce)] carries a transaction id,
    and then leaves the state as it was; otherwise it returns the serialized
    short-term macaroon and stores a record with no transaction id that
    expires 60 seconds from now. So after one successful call a second one
    succeeds again as long as no transaction id was bound, and fails once
    [_verify_nonce] has bound one. *)
Theorem make_short_term_token_reuse (hs : HomeServer) (lib : pymacaroons)
    (st : AuthHandler) (user_id nonce : string) :
  make_short_term_token hs lib user_id nonce st =
    (if nonce_bound st user_id nonce
     then Raise NonceAlreadyUsedError st
     else Return (serialize lib (short_term_macaroon hs lib user_id nonce (clock st)))
            (set_nonces
               (λ nonces,
                  <[user_id := <[nonce := NonceDict None (Some (clock st + 60 * 1000)%Z)]>
                                  (default ∅ (nonces !! user_id))]> nonces)
               st)) ∧
  (∀ tok st1, make_short_term_token hs lib user_id nonce st = Return tok st1 →
     nonce_record st1 user_id nonce = Some (NonceDict None (Some (clock st + 60 * 1000)%Z)) ∧
     (∃ tok2 st2, make_short_term_token hs lib user_id nonce st1 = Return tok2 st2) ∧
     (∀ txn_id, ∃ st2,
        _verify_nonce ("nonce = " +:+ nonce) user_id txn_id st1 = Return true st2 ∧
        make_short_term_token hs lib user_id nonce st2 = Raise NonceAlreadyUsedError st2)).
Proof.
  split; [apply make_short_term_token_eq|].
  intros tok st1. rewrite make_short_term_token_eq.
  destruct (nonce_bound st user_id nonce); [done|]. intros [= _ <-].
  set (nd := NonceDict None (Some (clock st + 60 * 1000)%Z)).
  pose proof (nonce_record_claim st user_id nonce nd) as Hr.
  split; [done|]. split.
  - rewrite make_short_term_token_eq. unfold nonce_bound. rewrite Hr. cbn.
    eauto.
  - intros txn_id. eexists. rewrite verify_nonce_eq, Hr. cbn.
    split; [done|].
    rewrite make_short_term_token_eq. unfold nonce_bound.
    rewrite nonce_record_bind, decide_True by done. by rewrite Hr.
Qed.

(** C3. On the caveat ["nonce = " ++ nonce], [_verify_nonce] always returns;
    it returns true exactly when [(user_id, nonce)] has a record whose
    transaction id is absent or equal to [txn_id]; it returns false exactly
    when there is no record or the record carries another transaction id,
    and then changes nothing; when it returns true the record carries
    [txn_id] afterwards, with its expiry and every other record as before,
    and from then on a call with [txn_id] returns true again without
    changing anything, while a call with any other transaction id returns
    false. *)
Theorem verify_nonce_match_or_bind (st : AuthHandler) (user_id nonce txn_id : string) :
  ∃ (b : bool) (st' : AuthHandler),
    _verify_nonce ("nonce = " +:+ nonce) user_id txn_id st = Return b st' ∧
    (b = true ↔
       ∃ nd, nonce_record st user_id nonce = Some nd ∧
             (nd_txn_id nd = None ∨ nd_txn_id nd = Some txn_id)) ∧
    (b = false ↔
       nonce_record st user_id nonce = None ∨
       ∃ nd other, nonce_record st user_id nonce = Some nd ∧
                   nd_txn_id nd = Some other ∧ other ≠ txn_id) ∧
    (b = false → st' = st) ∧
    (b = true →
       nonce_record st' user_id nonce =
         (λ nd, NonceDict (Some txn_id) (nd_expiry nd)) <$> nonce_record st user_id nonce ∧
       (∀ u n, ¬ (u = user_id ∧ n = nonce) → nonce_record st' u n = nonce_record st u n) ∧
       sessions st' = sessions st ∧ objects st' = objects st ∧
       _verify_nonce ("nonce = " +:+ nonce) user_id txn_id st' = Return true st' ∧
       (∀ other, other ≠ txn_id →
          _verify_nonce ("nonce = " +:+ nonce) user_id other st' = Return false st')).
Proof.
  rewrite verify_nonce_eq.
  destruct (nonce_record st user_id nonce) as [nd|] eqn:Hr.
  - case_bool_decide as Hm.
    + eexists true, _. split; [done|]. split; [naive_solver|]. split.
      { split; [done|]. intros [[=]|(nd' & other & [= <-] & Ho & Hne)].
        destruct Hm as [Hm|Hm]; congruence. }
      split; [done|]. intros _.
      split; [by rewrite nonce_record_bind, decide_True, Hr by done|].
      split; [intros u n Hne; by rewrite nonce_record_bind, decide_False by done|].
      split; [done|]. split; [done|].
      pose proof (nonce_record_bind st user_id nonce txn_id user_id nonce) as Hr'.
      rewrite decide_True, Hr in Hr' by done. cbn in Hr'.
      split.
      * rewrite verify_nonce_eq, Hr'. cbn.
        rewrite bool_decide_eq_true_2 by (by right).
        by erewrite rebind_same.
      * intros other Hne. rewrite verify_nonce_eq, Hr'. cbn.
        rewrite bool_decide_eq_false_2; [done|]. intros [[=]|[=]]. done.
    + eexists false, _. split; [done|]. split.
      { split; [done|]. intros (nd' & [= <-] & H). done. }
      split; [|done]. split; [|done]. intros _. right.
      destruct (nd_txn_id nd) as [other|] eqn:Ht; [|naive_solver].
      exists nd, other. repeat split; [done|]. intros ->. naive_solver.
  - eexists false, _. split; [done|]. split; [naive_solver|].
    split; [naive_solver|]. done.
Qed.

(** ** Tokens *)

Lemma base_macaroon_caveats (hs : HomeServer) (lib : pymacaroons) (user_id : string) :
  caveats (_generate_base_macaroon hs lib user_id) = ["gen = 1"; "user_id = " +:+ user_id].
Proof. reflexivity. Qed.

Lemma demo_serialize_inj : Inj (=) (=) (serialize demo_lib).
Proof.
  intros m1 m2 H. cbn in H. apply (inj pretty), (inj encode) in H.
  destruct m1, m2. by injection H as -> -> -> ->.
Qed.

(** C7. [issue_access_token] returns the serialization of a macaroon whose
    caveats are, in this order, [gen = 1], [user_id = <user_id>],
    [type = access] and [time < <now + 3600000>]. [issue_refresh_token],
    when the random source has 16 characters left, returns the serialization
    of a macaroon whose caveats are [gen = 1], [user_id = <user_id>],
    [type = refresh] and [nonce = <r>], where [r] is the next 16 characters
    of the random source, which are consumed; none of these is a time
    caveat. When the wire format is injective, two refresh tokens issued for
    one user from different random strings are different. *)
Theorem issued_token_caveats (hs : HomeServer) (lib : pymacaroons)
    (st : AuthHandler) (user_id : string) :
  (∃ m, issue_access_token hs lib user_id st = Return (serialize lib m) st ∧
        caveats m = ["gen = 1"; "user_id = " +:+ user_id; "type = access";
                     "time < " +:+ fmt_d (clock st + 60 * 60 * 1000)] ∧
        (60 * 60 * 1000 = 3600000)%Z) ∧
  ((16 ≤ List.length (tape st))%nat →
   ∃ m r, issue_refresh_token hs lib user_id st =
            Return (serialize lib m) (set_tape (drop 16) st) ∧
          r = string_of_list_ascii (take 16 (tape st)) ∧
          String.length r = 16%nat ∧
          caveats m = ["gen = 1"; "user_id = " +:+ user_id; "type = refresh";
                       "nonce = " +:+ r] ∧
          Forall (λ c, startswith c "time < " = false) (caveats m)) ∧
  (∀ st2 tok1 st1' tok2 st2',
     Inj (=) (=) (serialize lib) →
     issue_refresh_token hs lib user_id st = Return tok1 st1' →
     issue_refresh_token hs lib user_id st2 = Return tok2 st2' →
     take 16 (tape st) ≠ take 16 (tape st2) →
     tok1 ≠ tok2).
Proof.
  split; [|split].
  - eexists. split; [reflexivity|]. split; [reflexivity|]. lia.
  - intros Hlen. do 2 eexists.
    unfold issue_refresh_token, generate_refresh_token, random_string_with_symbols.
    rewrite !bind_run. unfold random_string. rewrite decide_True by done.
    split; [reflexivity|]. split; [reflexivity|].
    split; [rewrite length_string_of_list_ascii, length_take; lia|].
    split; [reflexivity|].
    cbn. repeat constructor.
  - intros st2 tok1 st1' tok2 st2' Hinj.
    unfold issue_refresh_token, generate_refresh_token, random_string_with_symbols.
    rewrite !bind_run. unfold random_string.
    repeat case_decide; try done.
    rewrite !ret_run. intros [= <- <-] [= <- <-] Hne Heq.
    apply Hinj in Heq. injection Heq as Hc _.
    cbn in Hc. apply string_of_list_ascii_inj in Hc. done.
Qed.

(** [issued_token_caveats] at work: two refresh tokens for [@a:x], drawn
    from the tapes [aaaaaaaaaaaaaaaa] and [bbbbbbbbbbbbbbbb]. *)
Lemma issued_token_caveats_witness :
  let st_a := empty_handler 0 (list_ascii_of_string "aaaaaaaaaaaaaaaa") in
  let st_b := empty_handler 0 (list_ascii_of_string "bbbbbbbbbbbbbbbb") in
  (16 ≤ List.length (tape st_a))%nat ∧
  ∃ tok1 st1' tok2 st2',
    issue_refresh_token demo_hs demo_lib "@a:x" st_a = Return tok1 st1' ∧
    issue_refresh_token demo_hs demo_lib "@a:x" st_b = Return tok2 st2' ∧
    tok1 ≠ tok2.
Proof.
  intros st_a st_b. split; [cbn; lia|].
  destruct (issued_token_caveats demo_hs demo_lib st_a "@a:x") as (_ & Hr & Hd).
  destruct Hr as (m1 & r1 & H1 & _); [cbn; lia|].
  destruct (issued_token_caveats demo_hs demo_lib st_b "@a:x") as (_ & Hr & _).
  destruct Hr as (m2 & r2 & H2 & _); [cbn; lia|].
  do 4 eexists. split; [exact H1|]. split; [exact H2|].
  apply (Hd st_b _ _ _ _ demo_serialize_inj H1 H2). discriminate.
Defined.

(** ** The password checker *)

Section Password.

Context (hs : HomeServer).

Lemma find_user_none (user_id : string) (st : AuthHandler) :
  get_users_by_id_case_insensitive hs user_id = ∅ →
  _find_user_id_and_pwd_hash hs user_id st = Raise ForbiddenError st.
Proof. unfold _find_user_id_and_pwd_hash. intros ->. by rewrite map_size_empty. Qed.

Lemma find_user_single (user_id canonical h : string) (st : AuthHandler) :
  get_users_by_id_case_insensitive hs user_id = {[ canonical := h ]} →
  _find_user_id_and_pwd_hash hs user_id st = Return (canonical, h) st.
Proof.
  unfold _find_user_id_and_pwd_hash. intros ->.
  rewrite map_size_singleton. cbn. rewrite decide_False by lia.
  by rewrite map_to_list_singleton.
Qed.

Lemma find_user_many (user_id : string) (st : AuthHandler) :
  (1 < size (get_users_by_id_case_insensitive hs user_id))%nat →
  _find_user_id_and_pwd_hash hs user_id st =
    match get_users_by_id_case_insensitive hs user_id !! user_id with
    | Some h => Return (user_id, h) st
    | None => Raise ForbiddenError st
    end.
Proof.
  unfold _find_user_id_and_pwd_hash. intros Hs.
  destruct (size _) as [|n] eqn:E; [lia|]. cbn. rewrite decide_True by lia.
  by destruct (_ !! user_id).
Qed.

Lemma check_password_auth_found (authdict : pydict) (clientip user password : string)
    (found : option (string * string)) (st : AuthHandler) :
  authdict !! "user" = Some (PStr user) →
  authdict !! "password" = Some (PStr password) →
  _find_user_id_and_pwd_hash hs (requested_user_id hs user) st =
    match found with Some r => Return r st | None => Raise ForbiddenError st end →
  _check_password_auth hs authdict clientip st = password_verdict hs password found st.
Proof.
  intros Hu Hp Hf. unfold _check_password_auth, requested_user_id in *.
  rewrite Hu, Hp. rewrite bind_run.
  destruct (startswith user "@"); cbn [negb] in *; rewrite Hf;
    (destruct found as [[canonical h]|]; [|done]);
    cbn; rewrite bind_run; unfold _check_password, validate_hash;
    by destruct (checkpw hs password h).
Qed.

End Password.

(** C9. Without a ["user"] or without a ["password"] field the password
    checker raises the missing-parameter error. With both, it looks up the
    requested id case-insensitively: no match raises the forbidden error; a
    single match [canonical] returns [canonical], the id as the store has it,
    when the password verifies against its hash, and raises the forbidden
    error otherwise; several matches are resolved to the one stored under
    the requested id itself, with the same password check, and raise the
    forbidden error when there is none. The state is never changed. *)
Theorem password_checker_cases (hs : HomeServer) (authdict : pydict)
    (clientip : string) (st : AuthHandler) :
  (authdict !! "user" = None ∨ authdict !! "password" = None →
   _check_password_auth hs authdict clientip st = Raise MissingParamError st) ∧
  (∀ user password,
     authdict !! "user" = Some (PStr user) →
     authdict !! "password" = Some (PStr password) →
     let requested := requested_user_id hs user in
     let user_infos := get_users_by_id_case_insensitive hs requested in
     (user_infos = ∅ →
      _check_password_auth hs authdict clientip st = Raise ForbiddenError st) ∧
     (∀ canonical h, user_infos = {[ canonical := h ]} →
      _check_password_auth hs authdict clientip st =
        if checkpw hs password h then Return (PStr canonical) st
        else Raise ForbiddenError st) ∧
     ((1 < size user_infos)%nat →
      _check_password_auth hs authdict clientip st =
        match user_infos !! requested with
        | Some h =>
            if checkpw hs password h then Return (PStr requested) st
            else Raise ForbiddenError st
        | None => Raise ForbiddenError st
        end)).
Proof.
  split.
  - unfold _check_password_auth. intros [->| ->]; [done|].
    by destruct (authdict !! "user").
  - intros user password Hu Hp requested user_infos. split; [|split].
    + intros He.
      apply (check_password_auth_found hs authdict clientip user password None st Hu Hp).
      by apply find_user_none.
    + intros canonical h He.
      apply (check_password_auth_found hs authdict clientip user password
               (Some (canonical, h)) st Hu Hp).
      by apply find_user_single.
    + intros Hs. subst user_infos requested.
      destruct (get_users_by_id_case_insensitive hs (requested_user_id hs user)
                  !! requested_user_id hs user) as [h|] eqn:E.
      * apply (check_password_auth_found hs authdict clientip user password
                 (Some (requested_user_id hs user, h)) st Hu Hp).
        by rewrite find_user_many, E.
      * apply (check_password_auth_found hs authdict clientip user password None st Hu Hp).
        by rewrite find_user_many, E.
Qed.

(** [password_checker_cases] on the demo store, where [@a:x] and [@A:x] both
    match: the request for [@A:x] with its password [q] is resolved to
    [@A:x] itself. *)
Lemma password_checker_cases_witness :
  let authdict : pydict := <["password" := PStr "q"]> {[ "user" := PStr "@A:x" ]} in
  _check_password_auth demo_hs authdict "10.0.0.1" (empty_handler 0 []) =
    Return (PStr "@A:x") (empty_handler 0 []).
Proof.
  intros authdict.
  destruct (password_checker_cases demo_hs authdict "10.0.0.1" (empty_handler 0 []))
    as [_ H].
  destruct (H "@A:x" "q") as (_ & _ & Hmany); [by vm_compute..|].
  rewrite Hmany; [by vm_compute|]. vm_compute. lia.
Defined.

(** ** The session store *)

Lemma random_string_run (n : nat) (st : AuthHandler) :
  (n ≤ List.length (tape st))%nat →
  random_string n st = Return (string_of_list_ascii (take n (tape st))) (set_tape (drop n) st).
Proof. intros H. unfold random_string. by rewrite decide_True. Qed.

Lemma tape_block_drop (k : nat) (random : list ascii) :
  tape_block k (drop 24 random) = tape_block (S k) random.
Proof. unfold tape_block. rewrite drop_drop. do 3 f_equal. lia. Qed.

(** The loop stops at the first candidate that is not a key. *)
Lemma new_session_id_fresh (k : nat) :
  ∀ rounds st,
    (k < rounds)%nat →
    (24 * (k + 1) ≤ List.length (tape st))%nat →
    tape_block k (tape st) ∉ dom (sessions st) →
    ∃ j, (j ≤ k)%nat ∧
      (tape_block j (tape st) ∉ dom (sessions st)) ∧
      new_session_id rounds st =
        Return (tape_block j (tape st)) (set_tape (drop (24 * (j + 1))) st).
Proof.
  induction k as [|k IH]; intros rounds st Hr Hlen Hfresh.
  - exists 0%nat. split; [done|]. split; [done|].
    destruct rounds as [|rounds]; [lia|]. cbn [new_session_id].
    rewrite bind_run, random_string_run by lia. rewrite bind_run. unfold gets.
    change (string_of_list_ascii (take 24 (tape st))) with (tape_block 0 (tape st)).
    cbn [sessions set_tape]. by rewrite bool_decide_eq_false_2.
  - destruct rounds as [|rounds]; [lia|].
    destruct (decide (tape_block 0 (tape st) ∈ dom (sessions st))) as [Hin|Hnin].
    + destruct (IH rounds (set_tape (drop 24) st)) as (j & Hj & Hf & Hrun).
      * lia.
      * cbn [tape set_tape]. rewrite length_drop. lia.
      * cbn [tape sessions set_tape]. by rewrite tape_block_drop.
      * exists (S j). split; [lia|]. cbn [tape sessions set_tape] in Hf, Hrun.
        rewrite tape_block_drop in Hf.
        split; [done|]. cbn [new_session_id].
        rewrite bind_run, random_string_run by lia. rewrite bind_run. unfold gets.
        change (string_of_list_ascii (take 24 (tape st))) with (tape_block 0 (tape st)).
        cbn [sessions set_tape]. rewrite bool_decide_eq_true_2 by done.
        rewrite Hrun. rewrite tape_block_drop. f_equal.
        apply handler_eq; try done. cbn. rewrite drop_drop. f_equal. lia.
    + exists 0%nat. split; [lia|]. split; [done|]. cbn [new_session_id].
      rewrite bind_run, random_string_run by lia. rewrite bind_run. unfold gets.
      change (string_of_list_ascii (take 24 (tape st))) with (tape_block 0 (tape st)).
      cbn [sessions set_tape]. by rewrite bool_decide_eq_false_2.
Qed.

Lemma tape_block_length (k : nat) (random : list ascii) :
  (24 * (k + 1) ≤ List.length random)%nat → String.length (tape_block k random) = 24%nat.
Proof.
  intros H. unfold tape_block.
  rewrite length_string_of_list_ascii, length_take, length_drop. lia.
Qed.

Lemma known_session_run (s : string) (st : AuthHandler) :
  (known ← gets (λ st, bool_decide (s ∈ dom (sessions st)));
   mret (if known : bool then Some s else None)) st
  = Return (if bool_decide (s ∈ dom (sessions st)) then Some s else None) st.
Proof. reflexivity. Qed.

Lemma get_session_info_new (st : AuthHandler) (session_id : option pyval) :
  names_no_session st session_id →
  supplies_fresh_id st →
  ∃ j, (24 * (j + 1) ≤ List.length (tape st))%nat ∧
    (tape_block j (tape st) ∉ dom (sessions st)) ∧
    _get_session_info session_id st =
      Return (fresh (dom (objects st)))
        (with_new_session (tape_block j (tape st)) (24 * (j + 1)) st).
Proof.
  intros Hno (k & Hlen & Hfresh).
  destruct (new_session_id_fresh k (S (List.length (tape st))) st) as (j & Hj & Hf & Hrun);
    [lia|done|done|].
  exists j. split; [lia|]. split; [done|].
  assert (Hcreate :
    (rounds ← gets (λ st, S (List.length (tape st)));
     session_id ← new_session_id rounds;
     l ← alloc_session session_id;
     _ ← modify (set_sessions (<[session_id := l]>));
     mret session_id) st
    = Return (tape_block j (tape st))
        (with_new_session (tape_block j (tape st)) (24 * (j + 1)) st)).
  { rewrite bind_run. unfold gets. rewrite bind_run, Hrun. by mrun. }
  assert (Hget : sessions_getitem (tape_block j (tape st))
              (with_new_session (tape_block j (tape st)) (24 * (j + 1)) st)
            = Return (fresh (dom (objects st)))
                (with_new_session (tape_block j (tape st)) (24 * (j + 1)) st)).
  { unfold sessions_getitem. cbn. by rewrite lookup_insert_eq. }
  unfold _get_session_info.
  destruct session_id as [v|]; cbn in Hno.
  - destruct v as [| | |s| |]; try discriminate Hno; cbn [hashable negb];
      try (rewrite bind_run, ret_run; cbn [String.eqb];
           rewrite bind_run, Hcreate; exact Hget).
    rewrite bind_run, (known_session_run s st).
    destruct Hno as [->|Hs].
    + case_bool_decide; cbn [String.eqb default]; rewrite bind_run, Hcreate; exact Hget.
    + rewrite bool_decide_eq_false_2 by done. rewrite bind_run, Hcreate. exact Hget.
  - rewrite bind_run, ret_run, bind_run, Hcreate. exact Hget.
Qed.

Lemma get_session_info_existing (st : AuthHandler) (s : string) (l : loc) :
  s ≠ "" → sessions st !! s = Some l →
  _get_session_info (Some (PStr s)) st = Return l st.
Proof.
  intros Hne Hl. unfold _get_session_info. cbn [hashable negb].
  rewrite bind_run, (known_session_run s st).
  rewrite bool_decide_eq_true_2 by (apply elem_of_dom; eauto).
  apply String.eqb_neq in Hne. rewrite Hne. rewrite bind_run, ret_run.
  unfold sessions_getitem. cbn [default from_option id]. by rewrite Hl.
Qed.

Lemma fresh_object (st : AuthHandler) : fresh (dom (objects st)) ∉ dom (objects st).
Proof. apply is_fresh. Qed.

(** C8. When the request names no stored session (no id, an empty id, an id
    that is not a key) and the random source still holds a candidate that is
    not a key, [_get_session_info] returns a new session dict holding
    nothing but its id; the id is 24 characters read from the random source
    and is not a key of the store as it was; the store afterwards is the old
    one with that id mapped to the new dict. When the request carries a
    non-empty id that is a key, the session stored under it is returned and
    nothing changes. *)
Theorem get_session_info_get_or_create (st : AuthHandler) (session_id : option pyval) :
  (names_no_session st session_id → supplies_fresh_id st →
   ∃ sid l j st',
     _get_session_info session_id st = Return l st' ∧
     sid = tape_block j (tape st) ∧ String.length sid = 24%nat ∧
     (sid ∉ dom (sessions st)) ∧ (l ∉ dom (objects st)) ∧
     sessions st' = <[sid := l]> (sessions st) ∧
     objects st' = <[l := Session sid None None]> (objects st) ∧
     sessions st' !! sid = Some l ∧
     objects st' !! l = Some (Session sid None None) ∧
     _nonces st' = _nonces st) ∧
  (∀ s l, session_id = Some (PStr s) → s ≠ "" → sessions st !! s = Some l →
     _get_session_info session_id st = Return l st).
Proof.
  split.
  - intros Hno Hsup.
    destruct (get_session_info_new st session_id Hno Hsup) as (j & Hlen & Hf & Hrun).
    exists (tape_block j (tape st)), (fresh (dom (objects st))), j,
      (with_new_session (tape_block j (tape st)) (24 * (j + 1)) st).
    split; [exact Hrun|]. split; [done|].
    split; [by apply tape_block_length|]. split; [done|].
    split; [apply fresh_object|]. cbn.
    by rewrite !lookup_insert_eq.
  - intros s l -> Hne Hl. by apply get_session_info_existing.
Qed.

(** [get_session_info_get_or_create] on an empty store whose random source
    reads [abcdefghijklmnopqrstuvwx]. *)
Lemma get_session_info_get_or_create_witness :
  let st := empty_handler 0 (list_ascii_of_string "abcdefghijklmnopqrstuvwx") in
  names_no_session st None ∧ supplies_fresh_id st ∧
  ∃ sid l st', _get_session_info None st = Return l st' ∧ sessions st' !! sid = Some l.
Proof.
  intros st.
  assert (Hno : names_no_session st None) by exact I.
  assert (Hsup : supplies_fresh_id st).
  { exists 0%nat. split; [cbn; lia|]. cbn. apply not_elem_of_empty. }
  split; [exact Hno|]. split; [exact Hsup|].
  destruct (proj1 (get_session_info_get_or_create st None) Hno Hsup)
    as (sid & l & j & st' & Hrun & _ & _ & _ & _ & _ & _ & Hl & _).
  exists sid, l, st'. by split.
Defined.

(** ** Invariants of handler methods *)

Lemma hoare_bind {A B} P (m : M A) (k : A → M B) Q R E :
  hoare P m Q E → (∀ a, hoare (Q a) (k a) R E) → hoare P (m ≫= k) R E.
Proof.
  intros Hm Hk st HP. rewrite bind_run. specialize (Hm st HP).
  destruct (m st) as [a st'| |]; [|done..]. by apply Hk.
Qed.

Lemma hoare_conseq {A} (P P' : AuthHandler → Prop) (m : M A) (Q Q' : A → AuthHandler → Prop)
    (E E' : exn → AuthHandler → Prop) :
  hoare P' m Q' E' → (∀ st, P st → P' st) → (∀ a st, Q' a st → Q a st) →
  (∀ e st, E' e st → E e st) → hoare P m Q E.
Proof.
  intros H HP HQ HE st Hst. specialize (H st (HP st Hst)).
  destruct (m st); auto.
Qed.

Lemma keeps_bind {A B} P (m : M A) (k : A → M B) :
  keeps P m → (∀ a, keeps P (k a)) → keeps P (m ≫= k).
Proof. intros Hm Hk. by apply (hoare_bind P m k (λ _, P)). Qed.

Lemma keeps_ret {A} P (a : A) : keeps P (mret a).
Proof. by intros st HP. Qed.

Lemma keeps_raise {A} P (e : exn) : keeps P (raise e : M A).
Proof. by intros st HP. Qed.

Lemma keeps_gets {A} P (f : AuthHandler → A) : keeps P (gets f).
Proof. by intros st HP. Qed.

Lemma keeps_modify P (f : AuthHandler → AuthHandler) :
  (∀ st, P st → P (f st)) → keeps P (modify f).
Proof. intros H st HP. by apply H. Qed.

Lemma keeps_pure {A} P (m : M A) :
  (∀ st, match m st with Return _ st' | Raise _ st' => st' = st | Stuck => True end) →
  keeps P m.
Proof. intros H st HP. specialize (H st). by destruct (m st); subst. Qed.

Lemma keeps_final {A} P (m : M A) (st st' : AuthHandler) :
  keeps P m → P st → final_state (m st) = Some st' → P st'.
Proof.
  intros H HP Hf. specialize (H st HP). destruct (m st); cbn in Hf; by simplify_eq.
Qed.

Lemma new_session_id_frame (rounds : nat) :
  ∀ st, match new_session_id rounds st with
        | Return _ st' => sessions st' = sessions st ∧ objects st' = objects st
        | Raise _ _ => False
        | Stuck => True
        end.
Proof.
  induction rounds as [|rounds IH]; intros st; [done|]. cbn [new_session_id].
  rewrite bind_run. unfold random_string. case_decide; [|done].
  rewrite bind_run. unfold gets. case_bool_decide; [|done].
  specialize (IH (set_tape (drop 24) st)). by destruct (new_session_id _ _).
Qed.

Lemma store_inv_new_session (sid : string) (st : AuthHandler) :
  store_inv st →
  store_inv (set_sessions (<[sid := fresh (dom (objects st))]>)
               (set_objects (<[fresh (dom (objects st)) := Session sid None None]>) st)).
Proof.
  intros Hinv k l. cbn. destruct (decide (k = sid)) as [->|Hk].
  - rewrite lookup_insert_eq. intros [= <-]. rewrite lookup_insert_eq. eauto.
  - rewrite lookup_insert_ne by done. intros Hl.
    destruct (Hinv k l Hl) as (s & Hs & Hid). exists s. split; [|done].
    rewrite lookup_insert_ne; [done|]. intros <-.
    apply (fresh_object st), elem_of_dom. eauto.
Qed.

Lemma get_session_info_live (session_id : option pyval) :
  hoare store_inv (_get_session_info session_id) (λ l st, live l st) (λ _, store_inv).
Proof.
  unfold _get_session_info.
  apply hoare_bind with (Q := λ _, store_inv).
  { destruct session_id as [v|]; [|by apply keeps_ret].
    destruct (negb (hashable v)); [by apply keeps_raise|].
    destruct v; try by apply keeps_ret.
    apply keeps_bind; [apply keeps_gets|]. intros ?. apply keeps_ret. }
  intros resolved. apply hoare_bind with (Q := λ _, store_inv).
  { destruct (match resolved with None => true | Some s => String.eqb s "" end);
      [|by apply keeps_ret].
    intros st Hinv. rewrite bind_run. unfold gets. rewrite bind_run.
    pose proof (new_session_id_frame (S (List.length (tape st))) st) as Hf.
    destruct (new_session_id _ st) as [sid st1| |]; [|done..].
    destruct Hf as [Hs Ho]. mrun. unfold alloc_session. mrun.
    assert (Hinv1 : store_inv st1).
    { intros k l. rewrite Hs, Ho. apply Hinv. }
    apply (store_inv_new_session sid st1 Hinv1). }
  intros sid st Hinv. unfold sessions_getitem.
  destruct (sessions st !! sid) as [l|] eqn:Hl; [|done].
  split; [done|]. destruct (Hinv sid l Hl) as (s & Hs & _). eauto.
Qed.

Lemma read_session_live (l : loc) :
  hoare (live l) (read_session l)
    (λ s st, live l st ∧ objects st !! l = Some s) (λ _, live l).
Proof.
  intros st [Hinv [s Hs]]. unfold read_session. rewrite Hs. split; [|done].
  split; [done|eauto].
Qed.

Lemma keeps_read_session (l : loc) : keeps (live l) (read_session l).
Proof.
  eapply hoare_conseq; [apply read_session_live|done| |done]. by intros s st [H _].
Qed.

Lemma keeps_write_session (l : loc) (f : session → session) :
  (∀ s, s_id (f s) = s_id s) → keeps (live l) (write_session l f).
Proof.
  intros Hf. apply keeps_modify. intros st [Hinv [s Hs]]. split.
  - intros k l' Hl'. cbn in *. destruct (Hinv k l' Hl') as (s' & Hs' & Hid).
    destruct (decide (l' = l)) as [->|Hne].
    + rewrite lookup_alter_eq, Hs'. cbn. eexists. split; [done|]. by rewrite Hf.
    + rewrite lookup_alter_ne by done. eauto.
  - cbn. rewrite lookup_alter_eq, Hs. cbn. eauto.
Qed.

Lemma save_session_inv (l : loc) : keeps store_inv (_save_session l).
Proof.
  intros st Hinv. unfold _save_session. rewrite bind_run. unfold read_session.
  destruct (objects st !! l) as [s|] eqn:Hs; [|done]. mrun.
  intros k l'. cbn. destruct (decide (k = s_id s)) as [->|Hk].
  - rewrite lookup_insert_eq. intros [= <-]. eauto.
  - rewrite lookup_insert_ne by done. apply Hinv.
Qed.

Lemma remove_session_inv (l : loc) : keeps store_inv (_remove_session l).
Proof.
  intros st Hinv. unfold _remove_session. rewrite bind_run. unfold read_session.
  destruct (objects st !! l) as [s|] eqn:Hs; [|done]. mrun.
  case_bool_decide; mrun; [|done].
  intros k l'. cbn. destruct (decide (k = s_id s)) as [->|Hk].
  - by rewrite lookup_delete_eq.
  - rewrite lookup_delete_ne by done. apply Hinv.
Qed.

Lemma keeps_live_of_inv {A} (l : loc) (m : M A) :
  keeps store_inv m →
  (∀ st, match m st with
         | Return _ st' | Raise _ st' => objects st' = objects st
         | Stuck => True
         end) →
  keeps (live l) m.
Proof.
  intros Hk Ho st [Hinv Hl]. specialize (Hk st Hinv). specialize (Ho st).
  destruct (m st); [|split; [done|by rewrite Ho]..|done].
  split; [done|by rewrite Ho].
Qed.

Lemma keeps_save_session (l : loc) : keeps (live l) (_save_session l).
Proof.
  apply keeps_live_of_inv; [apply save_session_inv|].
  intros st. unfold _save_session. rewrite bind_run. unfold read_session.
  by destruct (objects st !! l).
Qed.

Lemma keeps_remove_session (l : loc) : keeps (live l) (_remove_session l).
Proof.
  apply keeps_live_of_inv; [apply remove_session_inv|].
  intros st. unfold _remove_session. rewrite bind_run. unfold read_session.
  destruct (objects st !! l); [|done]. mrun. by case_bool_decide.
Qed.

Section Engine.

Context (hs : HomeServer) (LT : LoginType).

Lemma find_user_pure (user_id : string) : pure_method (_find_user_id_and_pwd_hash hs user_id).
Proof.
  intros st. unfold _find_user_id_and_pwd_hash.
  destruct (Nat.eqb _ 0); [done|]. case_decide.
  - by destruct (_ !! user_id).
  - by destruct (map_to_list _).
Qed.

Lemma check_password_auth_pure authdict clientip :
  pure_method (_check_password_auth hs authdict clientip).
Proof.
  intros st. unfold _check_password_auth.
  destruct (authdict !! "user") as [user|]; [|done].
  destruct (authdict !! "password") as [password|]; [|done].
  destruct user as [| | |user| |]; try done.
  rewrite bind_run.
  match goal with |- context [_find_user_id_and_pwd_hash hs ?u st] =>
    pose proof (find_user_pure u st) as Hf;
    destruct (_find_user_id_and_pwd_hash hs u st) as [[uid h] st'| |] end;
    [subst st'|done..].
  destruct password; try done. rewrite bind_run. unfold _check_password.
  by destruct (negb _).
Qed.

Lemma check_recaptcha_pure authdict clientip :
  pure_method (_check_recaptcha hs authdict clientip).
Proof.
  intros st. unfold _check_recaptcha. destruct (authdict !! "response"); [|done].
  by destruct (match _ !! "success" with Some v => truthy v | None => false end).
Qed.

Lemma check_email_identity_pure authdict clientip :
  pure_method (_check_email_identity hs authdict clientip).
Proof.
  intros st. unfold _check_email_identity.
  destruct (authdict !! "threepid_creds") as [c|]; [|done].
  destruct (negb _); [done|]. by destruct (threepid_from_creds hs c).
Qed.

(** No registered checker touches the handler's state. *)
Lemma checkers_pure (t : string) (check : checker) authdict clientip :
  checkers hs LT !! t = Some check → pure_method (check authdict clientip).
Proof.
  unfold checkers. intros H.
  repeat (apply lookup_insert_Some in H as [[_ <-]|[_ H]];
          [first [ apply check_password_auth_pure | apply check_recaptcha_pure
                 | apply check_email_identity_pure | done ]|]).
  by rewrite lookup_empty in H.
Qed.

Lemma keeps_pure_method {A} P (m : M A) : pure_method m → keeps P m.
Proof. intros H. apply keeps_pure. intros st. specialize (H st). by destruct (m st). Qed.

Lemma keeps_init_creds (l : loc) : keeps (live l) (init_creds l).
Proof.
  unfold init_creds. apply keeps_bind; [apply keeps_read_session|]. intros s.
  destruct (s_creds s); [apply keeps_ret|]. by apply keeps_write_session.
Qed.

Lemma keeps_creds_setitem (l : loc) stage result :
  keeps (live l) (creds_setitem l stage result).
Proof. by apply keeps_write_session. Qed.

Lemma keeps_auth_dict_for_flows (l : loc) flows :
  keeps (live l) (_auth_dict_for_flows hs LT flows l).
Proof.
  unfold _auth_dict_for_flows. apply keeps_bind; [apply keeps_read_session|].
  intros s. apply keeps_ret.
Qed.

Lemma keeps_flows_loop (l : loc) flows creds clientdict :
  keeps (live l) (flows_loop flows l creds clientdict).
Proof.
  induction flows as [|f flows IH]; cbn [flows_loop]; [apply keeps_ret|].
  destruct (flow_done f creds); [|done].
  apply keeps_bind; [apply keeps_remove_session|]. intros _. apply keeps_ret.
Qed.

Lemma keeps_check_stage (l : loc) (authdict : pydict) (clientip : string) :
  keeps (live l)
    (match authdict !! "type" with
     | None => mret tt
     | Some ty =>
         if negb (hashable ty) then raise TypeError
         else
           match (match ty with
                  | PStr t => c ← checkers hs LT !! t; Some (t, c)
                  | _ => None
                  end) with
           | None => raise (LoginError 400 "" UNRECOGNIZED)
           | Some (t, check) =>
               result ← check authdict clientip;
               if truthy result
               then
                 _ ← creds_setitem l t result;
                 _save_session l
               else mret tt
           end
     end).
Proof.
  destruct (authdict !! "type") as [ty|]; [|apply keeps_ret].
  destruct (negb (hashable ty)); [apply keeps_raise|].
  destruct (match ty with PStr t => _ | _ => None end) as [[t check]|] eqn:E;
    [|apply keeps_raise].
  destruct ty as [| | |t'| |]; try done.
  destruct (checkers hs LT !! t') as [c|] eqn:Hc; [|done]. cbn in E. injection E as <- <-.
  apply keeps_bind; [apply keeps_pure_method; by eapply checkers_pure|].
  intros result. destruct (truthy result); [|apply keeps_ret].
  apply keeps_bind; [apply keeps_creds_setitem|]. intros _. apply keeps_save_session.
Qed.

Lemma live_store_inv {A} (l : loc) (m : M A) :
  keeps (live l) m → hoare (live l) m (λ _, store_inv) (λ _, store_inv).
Proof.
  intros H. eapply hoare_conseq; [exact H|done|..]; by intros ? ? [? ?].
Qed.

Lemma check_auth_inv flows clientdict clientip :
  keeps store_inv (check_auth hs LT flows clientdict clientip).
Proof.
  unfold check_auth.
  apply keeps_bind.
  { destruct (clientdict !! "auth") as [v|]; [|apply keeps_ret].
    destruct v; try apply keeps_ret;
      (destruct (py_in "session" _) as [[|]|]; first [apply keeps_ret | apply keeps_raise]). }
  intros [[authdict sid] body].
  eapply hoare_bind; [apply get_session_info_live|]. intros l.
  apply live_store_inv.
  apply keeps_bind.
  { destruct (negb _).
    - apply keeps_bind; [by apply keeps_write_session|]. intros _.
      apply keeps_bind; [apply keeps_save_session|]. intros _. apply keeps_ret.
    - apply keeps_bind; [apply keeps_read_session|]. intros s. apply keeps_ret. }
  intros body'.
  assert (Htail : keeps (live l)
    (s ← read_session l;
     let creds := default ∅ (s_creds s) in
     done ← flows_loop flows l creds body';
     match done with
     | Some r => mret r
     | None =>
         ret ← _auth_dict_for_flows hs LT flows l;
         let ret := AuthDict (ad_session ret) (ad_flows ret) (ad_params ret)
                      (Some (map_to_list creds).*1) in
         mret (false, Challenge ret, body')
     end)).
  { apply keeps_bind; [apply keeps_read_session|]. intros s.
    apply keeps_bind; [apply keeps_flows_loop|]. intros [r|]; [apply keeps_ret|].
    apply keeps_bind; [apply keeps_auth_dict_for_flows|]. intros ?. apply keeps_ret. }
  assert (Hprompt : keeps (live l)
    (ret ← _auth_dict_for_flows hs LT flows l; mret (false, Challenge ret, body'))).
  { apply keeps_bind; [apply keeps_auth_dict_for_flows|]. intros ?. apply keeps_ret. }
  destruct authdict as [authdict|]; [|exact Hprompt].
  destruct authdict as [| | | | |authdict].
  6: { destruct (Nat.eqb (size authdict) 0); [exact Hprompt|].
       apply keeps_bind; [apply keeps_init_creds|]. intros _.
       apply keeps_bind; [apply keeps_check_stage|]. intros _. exact Htail. }
  all: (destruct (negb (truthy _)); [exact Hprompt|]);
    (apply keeps_bind; [apply keeps_init_creds|]); intros _;
    (apply keeps_bind; [|intros _; exact Htail]);
    (destruct (py_in "type" _) as [[|]|]; first [apply keeps_ret | apply keeps_raise]).
Qed.

Lemma add_oob_auth_inv stagetype authdict clientip :
  keeps store_inv (add_oob_auth hs LT stagetype authdict clientip).
Proof.
  unfold add_oob_auth.
  destruct (checkers hs LT !! stagetype) as [check|] eqn:Hc; [|apply keeps_raise].
  destruct (authdict !! "session") as [sid|]; [|apply keeps_raise].
  eapply hoare_bind; [apply get_session_info_live|]. intros l.
  apply live_store_inv.
  apply keeps_bind; [apply keeps_init_creds|]. intros _.
  apply keeps_bind; [apply keeps_pure_method; by eapply checkers_pure|].
  intros result. destruct (truthy result); [|apply keeps_ret].
  apply keeps_bind; [apply keeps_creds_setitem|]. intros _.
  apply keeps_bind; [apply keeps_save_session|]. intros _. apply keeps_ret.
Qed.

End Engine.

(** ** Verification of short-term login tokens *)

Lemma int_fmt_d (z : Z) : int (fmt_d z) = Some z.
Proof.
  unfold int, fmt_d. rewrite NilZero.isi.
  - cbn. by rewrite DecimalZ.of_to.
  - destruct z; cbn; [done| |done]. intros [= H]. by apply Unsigned.to_uint_nonnil in H.
  - destruct z; cbn; [done|done|]. intros [= H]. by apply Unsigned.to_uint_nonnil in H.
Qed.

Lemma token_frame_refl st : token_frame st st.
Proof. by repeat split. Qed.

Lemma token_frame_trans st1 st2 st3 :
  token_frame st1 st2 → token_frame st2 st3 → token_frame st1 st3.
Proof.
  intros (?&?&?&?&H12) (?&?&?&?&H23). repeat split; try congruence.
  - intros Hs. by apply H12, H23.
  - intros Hs. by apply H23, H12.
Qed.

Lemma mint_signed_under hs lib user_id nonce now :
  signed_under lib (macaroon_secret_key hs) (short_term_macaroon hs lib user_id nonce now).
Proof. reflexivity. Qed.

Lemma macaroon_signature_key lib k k' ident cs :
  mac_separates_keys lib →
  macaroon_signature lib k ident cs = macaroon_signature lib k' ident cs → k = k'.
Proof.
  intros [Hmac Hkey]. unfold macaroon_signature.
  assert (Hfold : ∀ s s', foldl (hmac_digest lib) s cs = foldl (hmac_digest lib) s' cs → s = s').
  { induction cs as [|c cs IH]; cbn; [done|]. intros s s' H. by apply IH, Hmac in H. }
  intros H. by apply Hfold, Hmac, Hkey in H.
Qed.

Ltac caveat_not_exact H :=
  unfold login_predicates in H;
  repeat (apply elem_of_cons in H as [H|H]; [try (cbn in H; discriminate H)|]);
  try (by apply elem_of_nil in H).

Section Verify.

Context (hs : HomeServer) (lib : pymacaroons) (user_id txn_id : string).

Lemma accepted_frame st st' c : token_frame st st' → accepted user_id st' c → accepted user_id st c.
Proof.
  intros (_&_&Hc&_&Hr) [(Hp & e & He & Hlt)|(Hp & Hs)].
  - left. split; [done|]. exists e. split; [done|]. by rewrite <- Hc.
  - right. split; [done|]. by apply Hr.
Qed.

Lemma verify_macaroon_expiry_spec (c : string) (st : AuthHandler) :
  match _verify_macaroon_expiry c st with
  | Return b st' => st' = st ∧ (b = true → accepted user_id st c)
  | Raise e st' => st' = st ∧ e = ValueError
  | Stuck => False
  end.
Proof.
  unfold _verify_macaroon_expiry. destruct (startswith c "time < ") eqn:Hp; cbn [negb].
  - cbn [String.length]. destruct (int (slice_from 7 c)) as [e|] eqn:He; [|done].
    mrun. split; [done|]. intros Hb%bool_decide_eq_true. left. eauto.
  - by rewrite ret_run.
Qed.

Lemma verify_nonce_spec (c : string) (st : AuthHandler) :
  match _verify_nonce c user_id txn_id st with
  | Return b st' => token_frame st st' ∧ (b = true → accepted user_id st c)
  | _ => False
  end.
Proof.
  unfold _verify_nonce. destruct (startswith c "nonce = ") eqn:Hp; cbn [negb].
  2: { rewrite ret_run. split; [apply token_frame_refl|done]. }
  cbn [String.length]. rewrite bind_run. unfold gets.
  destruct (default ∅ (_nonces st !! user_id) !! slice_from 8 c) as [nd|] eqn:Hnd.
  2: { mrun. split; [apply token_frame_refl|done]. }
  assert (Hrec : nonce_record st user_id (slice_from 8 c) = Some nd).
  { unfold nonce_record. destruct (_nonces st !! user_id); cbn in *; [done|].
    by rewrite lookup_empty in Hnd. }
  case_bool_decide; mrun.
  - split; [|intros _; right; by rewrite Hrec].
    repeat split; try done; rewrite nonce_record_bind; case_decide as Hd;
      try done; destruct Hd as [-> ->]; rewrite Hrec; cbn; eauto.
  - split; [apply token_frame_refl|done].
Qed.

Lemma run_callbacks_spec (c : string) (st : AuthHandler) :
  match run_callbacks (login_callbacks user_id txn_id) c st with
  | Return b st' => token_frame st st' ∧ (b = true → accepted user_id st c)
  | Raise e st' => token_frame st st' ∧ e = ValueError
  | Stuck => False
  end.
Proof.
  unfold login_callbacks. cbn [run_callbacks]. rewrite bind_run.
  pose proof (verify_macaroon_expiry_spec c st) as H1.
  destruct (_verify_macaroon_expiry c st) as [b1 st1|e st1|]; [| |done].
  2: { destruct H1 as [-> ->]. split; [apply token_frame_refl|done]. }
  destruct H1 as [-> H1]. rewrite bind_run, bind_run.
  pose proof (verify_nonce_spec c st) as H2.
  destruct (_verify_nonce c user_id txn_id st) as [b2 st2| |]; [|done..].
  destruct H2 as [Hf H2]. mrun. split; [done|].
  destruct b1, b2; cbn; auto.
Qed.

Lemma verify_caveats_spec (cs : list string) :
  ∀ sig st,
    match verify_caveats lib (login_predicates user_id) (login_callbacks user_id txn_id) cs sig st with
    | Return sig' st' =>
        token_frame st st' ∧ sig' = foldl (hmac_digest lib) sig cs ∧
        Forall (λ c, c ∈ (login_predicates user_id) ∨ accepted user_id st c) cs
    | Raise e st' => token_frame st st' ∧ (e = ValueError ∨ ∃ msg, e = MacaroonException msg)
    | Stuck => False
    end.
Proof.
  induction cs as [|c cs IH]; intros sig st; cbn [verify_caveats].
  { rewrite ret_run. split; [apply token_frame_refl|]. by split. }
  rewrite bind_run. unfold caveat_met. case_bool_decide as Hex.
  - rewrite ret_run. specialize (IH (hmac_digest lib sig c) st).
    destruct (verify_caveats _ _ _ cs _ st) as [sig' st'|e st'|]; [|done..].
    destruct IH as (Hf & -> & Hall). split; [done|]. split; [done|].
    constructor; [by left|done].
  - pose proof (run_callbacks_spec c st) as Hc.
    destruct (run_callbacks (login_callbacks user_id txn_id) c st) as [b st1|e st1|]; [| |done].
    2: { destruct Hc as [Hf ->]. split; [done|by left]. }
    destruct Hc as [Hf1 Hacc]. destruct b.
    + specialize (IH (hmac_digest lib sig c) st1).
      destruct (verify_caveats _ _ _ cs _ st1) as [sig' st'|e st'|]; [| |done].
      * destruct IH as (Hf & -> & Hall). split; [by eapply token_frame_trans|].
        split; [done|]. constructor; [right; by apply Hacc|].
        eapply Forall_impl; [exact Hall|]. cbn. intros c' [?|?]; [by left|right].
        by eapply accepted_frame.
      * destruct IH as [Hf He]. split; [by eapply token_frame_trans|done].
    + unfold raise. split; [done|]. right. eauto.
Qed.

Lemma verify_spec (m : Macaroon) (st : AuthHandler) :
  match verify lib (login_predicates user_id) (login_callbacks user_id txn_id) m (macaroon_secret_key hs) st with
  | Return b st' => b = true ∧ token_frame st st' ∧ verified hs lib user_id st m
  | Raise e st' => token_frame st st' ∧ (e = ValueError ∨ ∃ msg, e = MacaroonException msg)
  | Stuck => False
  end.
Proof.
  unfold verify. rewrite bind_run.
  pose proof (verify_caveats_spec (caveats m)
    (hmac_digest lib (generate_derived_key lib (macaroon_secret_key hs)) (identifier m)) st)
    as Hc.
  destruct (verify_caveats _ _ _ _ _ st) as [sig st'|e st'|]; [|done..].
  destruct Hc as (Hf & -> & Hall). case_bool_decide as Hsig.
  - rewrite ret_run. split; [done|]. split; [done|]. split; [exact Hsig|exact Hall].
  - unfold raise. split; [done|]. right. eauto.
Qed.

(** A token login that does not run into [Stuck] for want of random
    characters either raises the invalid-token error, having changed nothing
    but transaction ids in the nonce table, or was given a token that
    passes. *)
Lemma login_outcome (token : string) (st : AuthHandler) :
  match do_short_term_token_login hs lib token user_id txn_id st with
  | Return _ st' =>
      (∃ m, deserialize lib token = Some m ∧ verified hs lib user_id st m) ∧
      sessions st' = sessions st ∧ objects st' = objects st
  | Raise e st' => e = InvalidTokenError ∧ token_frame st st'
  | Stuck => ∃ m, deserialize lib token = Some m ∧ verified hs lib user_id st m
  end.
Proof.
  unfold do_short_term_token_login, try_except.
  fold (login_predicates user_id). fold (login_callbacks user_id txn_id).
  destruct (deserialize lib token) as [m|]; [|split; [done|apply token_frame_refl]].
  rewrite bind_run. pose proof (verify_spec m st) as Hv.
  destruct (verify _ _ _ m _ st) as [b st'|e st'|]; [| |done].
  - destruct Hv as (-> & Hf & Hver). cbn [negb].
    unfold _issue_tokens, issue_access_token, issue_refresh_token,
      generate_access_token, generate_refresh_token, random_string_with_symbols,
      random_string.
    destruct Hf as (Hs & Ho & _).
    mrun. case_decide; mrun; eauto.
  - destruct Hv as [Hf [->|[msg ->]]]; by split.
Qed.

Lemma login_rejects (token : string) (st : AuthHandler) :
  (∀ m, deserialize lib token = Some m → ¬ verified hs lib user_id st m) →
  ∃ st', do_short_term_token_login hs lib token user_id txn_id st
           = Raise InvalidTokenError st' ∧ token_frame st st'.
Proof.
  intros Hno. pose proof (login_outcome token st) as H.
  destruct (do_short_term_token_login _ _ _ _ _ st) as [r st'|e st'|].
  - destruct H as [(m & Hm & Hv) _]. by destruct (Hno m Hm).
  - destruct H as [-> Hf]. eauto.
  - destruct H as (m & Hm & Hv). by destruct (Hno m Hm).
Qed.

(** The three ways a caveat of a login token is met. *)
Lemma caveat_exact_run (c : string) (st : AuthHandler) :
  c ∈ login_predicates user_id →
  caveat_met (login_predicates user_id) (login_callbacks user_id txn_id) c st = Return true st.
Proof. intros H. unfold caveat_met. by rewrite bool_decide_eq_true_2. Qed.

Lemma caveat_time_run (expiry : Z) (st : AuthHandler) :
  (clock st < expiry)%Z →
  caveat_met (login_predicates user_id) (login_callbacks user_id txn_id)
    ("time < " +:+ fmt_d expiry) st = Return true st.
Proof.
  intros Hlt. unfold caveat_met. rewrite bool_decide_eq_false_2.
  2: { intros H. caveat_not_exact H. }
  unfold login_callbacks. cbn [run_callbacks]. rewrite bind_run.
  unfold _verify_macaroon_expiry. rewrite startswith_app. cbn [negb].
  rewrite slice_from_app, int_fmt_d. rewrite bind_run. unfold time_msec, gets.
  rewrite ret_run, bool_decide_eq_true_2 by done.
  rewrite !bind_run. unfold _verify_nonce.
  change (startswith ("time < " +:+ fmt_d expiry) "nonce = ") with false.
  reflexivity.
Qed.

Lemma caveat_nonce_run (nonce : string) (st : AuthHandler) (nd : nonce_dict) :
  nonce_record st user_id nonce = Some nd →
  nd_txn_id nd = None ∨ nd_txn_id nd = Some txn_id →
  caveat_met (login_predicates user_id) (login_callbacks user_id txn_id)
    ("nonce = " +:+ nonce) st
  = Return true
      (set_nonces
         (alter (alter (λ nd, NonceDict (Some txn_id) (nd_expiry nd)) nonce) user_id) st).
Proof.
  intros Hrec Hfree. unfold caveat_met. rewrite bool_decide_eq_false_2.
  2: { intros H. caveat_not_exact H. }
  unfold login_callbacks. cbn [run_callbacks]. rewrite bind_run.
  unfold _verify_macaroon_expiry.
  change (startswith ("nonce = " +:+ nonce) "time < ") with false.
  cbn [negb]. rewrite ret_run, !bind_run.
  rewrite verify_nonce_eq, Hrec, bool_decide_eq_true_2 by done.
  reflexivity.
Qed.

End Verify.

(** Verification is not vacuous: where the wire format round-trips, a token
    just minted for [(user_id, nonce)] logs in under any transaction id,
    which the login binds to the nonce. *)
Lemma minted_token_logs_in (hs : HomeServer) (lib : pymacaroons)
    (user_id nonce txn_id : string) (st : AuthHandler) :
  (∀ m, deserialize lib (serialize lib m) = Some m) →
  nonce_bound st user_id nonce = false →
  (16 ≤ List.length (tape st))%nat →
  ∃ token st1 r st2,
    make_short_term_token hs lib user_id nonce st = Return token st1 ∧
    do_short_term_token_login hs lib token user_id txn_id st1 = Return r st2 ∧
    lr_user_id r = user_id ∧
    nonce_record st2 user_id nonce
      = Some (NonceDict (Some txn_id) (Some (clock st + 60 * 1000)%Z)).
Proof.
  intros Hround Hfree Htape.
  rewrite make_short_term_token_eq, Hfree.
  set (nd := NonceDict None (Some (clock st + 60 * 1000)%Z)).
  set (st1 := set_nonces _ st).
  assert (Hrec : nonce_record st1 user_id nonce = Some nd)
    by apply nonce_record_claim.
  set (bind := alter (alter (λ nd, NonceDict (Some txn_id) (nd_expiry nd)) nonce) user_id
               : gmap string (gmap string nonce_dict) → gmap string (gmap string nonce_dict)).
  eexists _, st1, _, (set_tape (drop 16) (set_nonces bind st1)).
  split; [reflexivity|].
  assert (Hverify :
    verify lib (login_predicates user_id) (login_callbacks user_id txn_id)
      (short_term_macaroon hs lib user_id nonce (clock st)) (macaroon_secret_key hs) st1
    = Return true (set_nonces bind st1)).
  { unfold verify. rewrite bind_run.
    cbn [caveats short_term_macaroon add_first_party_caveat _generate_base_macaroon
         Macaroon_new app identifier]. cbn [verify_caveats].
    rewrite bind_run, caveat_exact_run by apply list_elem_of_here.
    rewrite bind_run, caveat_exact_run
      by (do 2 apply list_elem_of_further; apply list_elem_of_here).
    rewrite bind_run, caveat_exact_run by (apply list_elem_of_further, list_elem_of_here).
    rewrite bind_run, caveat_time_run by (change (clock st1) with (clock st); lia).
    rewrite bind_run, (caveat_nonce_run user_id txn_id nonce st1 nd), ret_run
      by (done || by left).
    by rewrite bool_decide_eq_true_2. }
  unfold do_short_term_token_login, try_except. rewrite Hround.
  fold (login_predicates user_id). fold (login_callbacks user_id txn_id).
  rewrite bind_run, Hverify. cbn [negb].
  unfold _issue_tokens, issue_access_token, issue_refresh_token,
    generate_access_token, generate_refresh_token, random_string_with_symbols.
  rewrite !bind_run. unfold time_msec, gets. rewrite !ret_run, !bind_run.
  rewrite random_string_run by done. rewrite !ret_run.
  split; [reflexivity|]. split; [reflexivity|].
  change (nonce_record (set_tape (drop 16) (set_nonces bind st1)) user_id nonce)
    with (nonce_record (set_nonces bind st1) user_id nonce).
  unfold bind. rewrite nonce_record_bind, decide_True by done. by rewrite Hrec.
Qed.

Lemma demo_mac_separates_keys : mac_separates_keys demo_lib.
Proof.
  split; [|done]. cbn. intros k k' msg H.
  apply string_app_inj in H. by apply (string_app_inj ";") in H.
Qed.

(** C6. A token login raises the invalid-token error, and leaves everything
    but transaction ids in the nonce table as it was, in each of these
    cases: the token does not deserialize; it was signed under a key other
    than the configured secret (the MAC telling keys apart); it carries a
    [user_id] caveat for another user; it carries a nonce caveat for which
    the expected user has no record; it carries a time caveat whose bound is
    not ahead of the clock. Whenever a token login raises, the error is the
    invalid-token error. *)
Theorem short_term_login_invalid_token (hs : HomeServer) (lib : pymacaroons)
    (token user_id txn_id : string) (st : AuthHandler) :
  let rejected :=
    ∃ st', do_short_term_token_login hs lib token user_id txn_id st
             = Raise InvalidTokenError st' ∧ token_frame st st' in
  (deserialize lib token = None → rejected) ∧
  (∀ m, deserialize lib token = Some m →
     (∀ key, mac_separates_keys lib → signed_under lib key m →
             key ≠ macaroon_secret_key hs → rejected) ∧
     (∀ other, other ≠ user_id → "user_id = " +:+ other ∈ caveats m → rejected) ∧
     (∀ nonce, "nonce = " +:+ nonce ∈ caveats m →
               nonce_record st user_id nonce = None → rejected) ∧
     (∀ expiry, "time < " +:+ fmt_d expiry ∈ caveats m →
                (expiry ≤ clock st)%Z → rejected)) ∧
  (∀ e st', do_short_term_token_login hs lib token user_id txn_id st = Raise e st' →
            e = InvalidTokenError).
Proof.
  intros rejected. split; [|split].
  - intros Hd. apply login_rejects. intros m. by rewrite Hd.
  - intros m Hm. repeat split.
    + intros key Hmac Hsigned Hne. apply login_rejects.
      intros m' Hm' [Hsig _]. rewrite Hm in Hm'. injection Hm' as <-.
      unfold signed_under in *. rewrite Hsigned in Hsig.
      by apply macaroon_signature_key in Hsig.
    + intros other Hne Hin. apply login_rejects.
      intros m' Hm' [_ Hall]. rewrite Hm in Hm'. injection Hm' as <-.
      rewrite Forall_forall in Hall. destruct (Hall _ Hin) as [Hex|Hacc].
      * caveat_not_exact Hex. by apply string_app_inj in Hex.
      * destruct Hacc as [[Hp _]|[Hp _]]; cbn in Hp; discriminate Hp.
    + intros nonce Hin Hrec. apply login_rejects.
      intros m' Hm' [_ Hall]. rewrite Hm in Hm'. injection Hm' as <-.
      rewrite Forall_forall in Hall. destruct (Hall _ Hin) as [Hex|Hacc].
      * caveat_not_exact Hex.
      * destruct Hacc as [[Hp _]|[_ Hs]]; [cbn in Hp; discriminate Hp|].
        change 8%nat with (String.length "nonce = ") in Hs.
        rewrite slice_from_app, Hrec in Hs. by destruct Hs.
    + intros expiry Hin Hle. apply login_rejects.
      intros m' Hm' [_ Hall]. rewrite Hm in Hm'. injection Hm' as <-.
      rewrite Forall_forall in Hall. destruct (Hall _ Hin) as [Hex|Hacc].
      * caveat_not_exact Hex.
      * destruct Hacc as [(_ & e & He & Hlt)|[Hp _]]; [|cbn in Hp; discriminate Hp].
        change 7%nat with (String.length "time < ") in He.
        rewrite slice_from_app, int_fmt_d in He. injection He as <-. lia.
  - intros e st' Hr. pose proof (login_outcome hs lib user_id txn_id token st) as H.
    rewrite Hr in H. by destruct H.
Qed.

(** [short_term_login_invalid_token] on the token [forged], signed under
    [other-secret] where the server's secret is [secret]. *)
Lemma short_term_login_invalid_token_witness :
  ∃ st', do_short_term_token_login demo_hs demo_lib "forged" "@a:x" "tx1" (empty_handler 0 [])
           = Raise InvalidTokenError st'.
Proof.
  destruct (short_term_login_invalid_token demo_hs demo_lib "forged" "@a:x" "tx1"
              (empty_handler 0 [])) as (_ & H & _).
  destruct (H (MkMacaroon "x" "key" ["gen = 1"] "gen = 1;key;other-secret") eq_refl)
    as (Hkey & _).
  destruct (Hkey "other-secret" demo_mac_separates_keys eq_refl) as (st' & Hr & _);
    [discriminate|].
  by exists st'.
Defined.

(** ** The invariant of the session store *)

Lemma store_inv_frame (st st' : AuthHandler) :
  sessions st' = sessions st → objects st' = objects st → store_inv st → store_inv st'.
Proof. intros Hs Ho Hinv k l. rewrite Hs, Ho. apply Hinv. Qed.

Lemma engine_step_inv hs LT lib st st' :
  store_inv st → engine_step hs LT lib st st' → store_inv st'.
Proof.
  intros Hinv Hstep. destruct Hstep as
    [sid st st' H|l st st' H|l st st' H|flows cd ip st st' H|t a ip st st' H
    |u n st st' H|tok u txn st st' H|u st st' H|st st' H|now random st].
  - pose proof (get_session_info_live sid st Hinv) as Hl.
    destruct (_get_session_info sid st); cbn in H; simplify_eq; [by destruct Hl|done].
  - by eapply keeps_final; [apply save_session_inv|..].
  - by eapply keeps_final; [apply remove_session_inv|..].
  - by eapply keeps_final; [apply check_auth_inv|..].
  - by eapply keeps_final; [apply add_oob_auth_inv|..].
  - rewrite make_short_term_token_eq in H.
    destruct (nonce_bound st u n); cbn in H; by simplify_eq.
  - pose proof (login_outcome hs lib u txn tok st) as Ho.
    destruct (do_short_term_token_login hs lib tok u txn st); cbn in H; simplify_eq.
    + destruct Ho as (_ & Hs & Ho). by eapply store_inv_frame.
    + destruct Ho as (_ & Hs & Ho & _). by eapply store_inv_frame.
  - revert H. unfold _issue_tokens, issue_access_token, issue_refresh_token,
      generate_access_token, generate_refresh_token, random_string_with_symbols,
      random_string.
    mrun. case_decide; mrun; intros [=]. by subst.
  - unfold _prune_nonce in H. revert H. mrun. intros [=]. by subst.
  - done.
Qed.

(** C10. Every key of the session store maps to a session dict whose ["id"]
    is that key: this holds of the empty store, each step of the engine
    keeps it, whether the method returns or raises, and so it holds in every
    state the engine reaches. *)
Theorem session_store_invariant (hs : HomeServer) (LT : LoginType) (lib : pymacaroons) :
  (∀ now random, store_inv (empty_handler now random)) ∧
  (∀ st st', store_inv st → engine_step hs LT lib st st' → store_inv st') ∧
  (∀ st, reachable hs LT lib st →
     ∀ k l, sessions st !! k = Some l → ∃ s, objects st !! l = Some s ∧ s_id s = k).
Proof.
  assert (Hinit : ∀ now random, store_inv (empty_handler now random)).
  { intros now random k l. cbn. by rewrite lookup_empty. }
  split; [done|]. split; [apply engine_step_inv|].
  intros st Hr. induction Hr as [now random|st st' _ IH Hstep]; [apply Hinit|].
  by eapply engine_step_inv.
Qed.

(** [session_store_invariant] on the state reached by creating one session
    in an empty store. *)
Lemma session_store_invariant_witness :
  let st := empty_handler 0 (list_ascii_of_string "abcdefghijklmnopqrstuvwx") in
  ∃ st', final_state (_get_session_info None st) = Some st' ∧
    reachable demo_hs demo_LT demo_lib st' ∧
    ∀ k l, sessions st' !! k = Some l → ∃ s, objects st' !! l = Some s ∧ s_id s = k.
Proof.
  intros st. eexists. split; [by vm_compute|].
  assert (Hr : reachable demo_hs demo_LT demo_lib
                 (with_new_session "abcdefghijklmnopqrstuvwx" 24 st)).
  { eapply reachable_step; [apply (reachable_init _ _ _ 0
      (list_ascii_of_string "abcdefghijklmnopqrstuvwx"))|].
    apply (step_get_session_info _ _ _ None). by vm_compute. }
  split; [exact Hr|].
  exact (proj2 (proj2 (session_store_invariant demo_hs demo_LT demo_lib)) _ Hr).
Defined.

(** ** Running [check_auth] *)

Lemma read_session_run l s st : objects st !! l = Some s → read_session l st = Return s st.
Proof. intros H. unfold read_session. by rewrite H. Qed.

Lemma write_session_run l f s st :
  objects st !! l = Some s → write_session l f st = Return tt (put_object l (f s) st).
Proof.
  intros H. unfold write_session, modify, put_object. f_equal.
  apply handler_eq; try done. cbn. apply map_eq. intros l'.
  destruct (decide (l' = l)) as [->|Hne].
  - by rewrite lookup_alter_eq, lookup_insert_eq, H.
  - by rewrite lookup_alter_ne, lookup_insert_ne.
Qed.

Lemma save_session_run l s st :
  objects st !! l = Some s → sessions st !! s_id s = Some l → _save_session l st = Return tt st.
Proof.
  intros Ho Hs. unfold _save_session. rewrite bind_run, (read_session_run l s) by done.
  unfold modify. f_equal. apply handler_eq; try done. cbn. by apply insert_id.
Qed.

Lemma remove_session_run l s st :
  objects st !! l = Some s → is_Some (sessions st !! s_id s) →
  _remove_session l st = Return tt (set_sessions (delete (s_id s)) st).
Proof.
  intros Ho Hs. unfold _remove_session. rewrite bind_run, (read_session_run l s) by done.
  rewrite bind_run. unfold gets.
  by rewrite bool_decide_eq_true_2 by (by apply elem_of_dom).
Qed.

Lemma put_object_lookup l s st : objects (put_object l s st) !! l = Some s.
Proof. cbn. by rewrite lookup_insert_eq. Qed.

Lemma put_object_put l s s' st : put_object l s' (put_object l s st) = put_object l s' st.
Proof. apply handler_eq; try done. cbn. by rewrite insert_insert_eq. Qed.

Lemma put_object_id l s st : objects st !! l = Some s → put_object l s st = st.
Proof. intros H. apply handler_eq; try done. cbn. by apply insert_id. Qed.

Lemma init_creds_run l s st :
  objects st !! l = Some s →
  init_creds l st = Return tt (put_object l (set_creds (default ∅ (s_creds s)) s) st).
Proof.
  intros H. unfold init_creds. rewrite bind_run, (read_session_run l s) by done.
  destruct (s_creds s) as [c|] eqn:Hc.
  - rewrite ret_run. f_equal. symmetry. apply put_object_id.
    rewrite H. f_equal. destruct s; cbn in *. by subst.
  - by rewrite (write_session_run l _ s).
Qed.

Lemma flows_loop_run flows l s creds clientdict st :
  objects st !! l = Some s → is_Some (sessions st !! s_id s) →
  flows_loop flows l creds clientdict st =
    if some_flow_done flows creds
    then Return (Some (true, Creds creds, clientdict)) (set_sessions (delete (s_id s)) st)
    else Return None st.
Proof.
  intros Ho Hs. induction flows as [|f flows IH]; cbn [flows_loop some_flow_done existsb];
    [done|].
  destruct (flow_done f creds); cbn [orb]; [|exact IH].
  by rewrite bind_run, (remove_session_run l s).
Qed.

Lemma auth_dict_for_flows_run hs LT flows l s st :
  objects st !! l = Some s →
  _auth_dict_for_flows hs LT flows l st
    = Return (AuthDict (s_id s) flows (flow_params hs LT flows) None) st.
Proof.
  intros H. unfold _auth_dict_for_flows. by rewrite bind_run, (read_session_run l s).
Qed.

(** The first three steps of [check_auth], once the session is resolved:
    the request body is saved on the session, or the saved one is taken. *)
Lemma take_in_body_run (body : pydict) l s st :
  objects st !! l = Some s → sessions st !! s_id s = Some l →
  (if negb (Nat.eqb (size body) 0)
   then
     _ ← write_session l (set_clientdict body);
     _ ← _save_session l;
     mret body
   else
     s ← read_session l;
     mret (default body (s_clientdict s))) st
  = Return (request_params body s)
      (put_object l (Session (s_id s)
                       (if Nat.eqb (size body) 0 then s_clientdict s else Some body)
                       (s_creds s)) st).
Proof.
  intros Ho Hs. unfold request_params. destruct (Nat.eqb (size body) 0); cbn [negb].
  - rewrite bind_run, (read_session_run l s), ret_run by done. f_equal.
    symmetry. apply put_object_id. rewrite Ho. by destruct s.
  - rewrite bind_run, (write_session_run l _ s) by done.
    rewrite bind_run, (save_session_run l (set_clientdict body s)), ret_run;
      [done|apply put_object_lookup|done].
Qed.

Lemma size_lookup_Some (d : pydict) (k : string) (v : pyval) :
  d !! k = Some v → Nat.eqb (size d) 0 = false.
Proof.
  intros H. apply Nat.eqb_neq. intros Hs. apply map_size_empty_iff in Hs.
  by rewrite Hs, lookup_empty in H.
Qed.

Section CheckAuth.

Context (hs : HomeServer) (LT : LoginType).

(** An auth dict with a stage type outside the registry: the error is
    raised with the body taken in and the credentials map in place. *)
Lemma check_auth_unrecognized flows clientdict clientip authdict ty l s st st1 :
  clientdict !! "auth" = Some (PDict authdict) →
  authdict !! "type" = Some ty → hashable ty = true →
  (∀ t, ty = PStr t → checkers hs LT !! t = None) →
  _get_session_info (authdict !! "session") st = Return l st1 →
  objects st1 !! l = Some s → sessions st1 !! s_id s = Some l →
  check_auth hs LT flows clientdict clientip st =
    Raise UnrecognizedStageError
      (put_object l (received_session (delete "auth" clientdict) s) st1).
Proof.
  intros Hauth Hty Hhash Hnone Hget Ho Hs. unfold check_auth.
  rewrite Hauth. rewrite bind_run, ret_run. cbv beta iota.
  rewrite bind_run, Hget. rewrite bind_run.
  rewrite (take_in_body_run _ l s st1) by done.
  rewrite (size_lookup_Some authdict "type" ty) by done.
  set (body := delete "auth" clientdict).
  rewrite bind_run, (init_creds_run l _ _ (put_object_lookup _ _ _)), put_object_put.
  rewrite bind_run, Hty, Hhash. cbn [negb set_creds s_id s_clientdict s_creds].
  destruct ty as [| | |t| |]; try discriminate Hhash; try reflexivity.
  specialize (Hnone t eq_refl). unfold checker in *. rewrite Hnone. reflexivity.
Qed.

(** An auth dict with a registered stage type whose checker succeeds: the
    stage is credited, and the call is complete when some flow has all its
    stages credited. *)
Lemma check_auth_stage flows clientdict clientip authdict t (check : checker) result
    l s st st1 :
  clientdict !! "auth" = Some (PDict authdict) →
  authdict !! "type" = Some (PStr t) → checkers hs LT !! t = Some check →
  (∀ st', check authdict clientip st' = Return result st') → truthy result = true →
  _get_session_info (authdict !! "session") st = Return l st1 →
  objects st1 !! l = Some s → sessions st1 !! s_id s = Some l →
  let body := delete "auth" clientdict in
  let creds := <[t := result]> (default ∅ (s_creds s)) in
  let st2 := put_object l (credited_session body t result s) st1 in
  check_auth hs LT flows clientdict clientip st =
    if some_flow_done flows creds
    then Return (true, Creds creds, request_params body s)
           (set_sessions (delete (s_id s)) st2)
    else Return (false,
                 Challenge (AuthDict (s_id s) flows (flow_params hs LT flows)
                              (Some (map_to_list creds).*1)),
                 request_params body s) st2.
Proof.
  intros Hauth Hty Hc Hrun Htruthy Hget Ho Hs body creds st2. unfold check_auth.
  rewrite Hauth. rewrite bind_run, ret_run. cbv beta iota.
  rewrite bind_run, Hget. rewrite bind_run.
  rewrite (take_in_body_run _ l s st1) by done.
  rewrite (size_lookup_Some authdict "type" (PStr t)) by done.
  fold body.
  rewrite bind_run, (init_creds_run l _ _ (put_object_lookup _ _ _)), put_object_put.
  rewrite bind_run, Hty. cbn [hashable negb set_creds s_id s_clientdict s_creds].
  unfold checker in *. rewrite Hc. cbn [mbind option_bind]. rewrite bind_run, Hrun, Htruthy.
  rewrite bind_run. unfold creds_setitem.
  rewrite (write_session_run l _ _ _ (put_object_lookup _ _ _)), put_object_put.
  change (put_object l _ st1) with st2.
  assert (Ho2 : objects st2 !! l = Some (credited_session body t result s))
    by apply put_object_lookup.
  assert (Hs2 : sessions st2 !! s_id (credited_session body t result s) = Some l) by done.
  rewrite (save_session_run l _ st2 Ho2 Hs2).
  rewrite bind_run, (read_session_run l _ st2 Ho2).
  cbn [credited_session set_creds s_creds default from_option id]. fold creds.
  rewrite bind_run, (flows_loop_run flows l _ creds _ st2 Ho2) by (rewrite Hs2; eauto).
  destruct (some_flow_done flows creds); [done|].
  by rewrite bind_run, (auth_dict_for_flows_run hs LT flows l _ st2 Ho2).
Qed.

End CheckAuth.

(** C5, as stated, fails for [check_auth]: by the time the
    unrecognized-stage error is raised, a session has been created in a
    store that was empty, the request body has been saved on it, and it has
    been given an empty credentials map. *)
Lemma unrecognized_stage_after_mutation :
  let st := empty_handler 0 (list_ascii_of_string "abcdefghijklmnopqrstuvwx") in
  let clientdict : pydict :=
    <["username" := PStr "a"]> {[ "auth" := PDict {[ "type" := PStr "m.login.bogus" ]} ]} in
  ∃ l st',
    check_auth demo_hs demo_LT [["m.login.dummy"]] clientdict "10.0.0.1" st
      = Raise UnrecognizedStageError st' ∧
    sessions st = ∅ ∧
    sessions st' !! "abcdefghijklmnopqrstuvwx" = Some l ∧
    objects st' !! l =
      Some (Session "abcdefghijklmnopqrstuvwx" (Some {[ "username" := PStr "a" ]}) (Some ∅)).
Proof.
  intros st clientdict. eexists _, _. split; [by vm_compute|].
  split; [done|]. split; by vm_compute.
Qed.

(** The out-of-band entry point answers a stage type outside the registry
    with the code [MISSING_PARAM]. *)
Lemma add_oob_auth_unregistered hs LT stagetype authdict clientip st :
  checkers hs LT !! stagetype = None →
  add_oob_auth hs LT stagetype authdict clientip st = Raise MissingParamError st.
Proof. intros H. unfold add_oob_auth. unfold checker in *. by rewrite H. Qed.

(** C5, amended. Let the auth dict of a request carry a stage type that is
    not in the checker registry. [check_auth] then raises the
    unrecognized-stage error before any checker runs and with the
    credentials of the session as they were; by then the session is resolved
    (the one named by the request, or a new one), the rest of a non-empty
    request body is saved on it, and it has a credentials map, empty if it
    had none. [add_oob_auth] with such a stage type raises before it touches
    the state. *)
Theorem unrecognized_stage_error (hs : HomeServer) (LT : LoginType)
    (flows : list (list string)) (clientdict authdict : pydict) (clientip : string)
    (ty : pyval) (st : AuthHandler) :
  clientdict !! "auth" = Some (PDict authdict) →
  authdict !! "type" = Some ty → hashable ty = true →
  (∀ t, ty = PStr t → checkers hs LT !! t = None) →
  let body := delete "auth" clientdict in
  (∀ sid l s,
     authdict !! "session" = Some (PStr sid) → sid ≠ "" →
     sessions st !! sid = Some l → objects st !! l = Some s → s_id s = sid →
     check_auth hs LT flows clientdict clientip st
       = Raise UnrecognizedStageError (put_object l (received_session body s) st) ∧
     s_creds (received_session body s) = Some (default ∅ (s_creds s))) ∧
  (names_no_session st (authdict !! "session") → supplies_fresh_id st →
   ∃ sid j,
     sid = tape_block j (tape st) ∧ (sid ∉ dom (sessions st)) ∧
     check_auth hs LT flows clientdict clientip st
       = Raise UnrecognizedStageError
           (put_object (fresh (dom (objects st)))
              (received_session body (Session sid None None))
              (with_new_session sid (24 * (j + 1)) st))) ∧
  (∀ stagetype oob_authdict,
     checkers hs LT !! stagetype = None →
     ∃ e, add_oob_auth hs LT stagetype oob_authdict clientip st = Raise e st).
Proof.
  intros Hauth Hty Hhash Hnone body. split; [|split].
  - intros sid l s Hsid Hne Hl Ho Hid. split; [|done].
    eapply check_auth_unrecognized; try done.
    + rewrite Hsid. by apply get_session_info_existing.
    + by rewrite Hid.
  - intros Hno Hsup.
    destruct (get_session_info_new st _ Hno Hsup) as (j & Hlen & Hf & Hrun).
    exists (tape_block j (tape st)), j. split; [done|]. split; [done|].
    eapply check_auth_unrecognized; try done; cbn; by rewrite lookup_insert_eq.
  - intros stagetype oob Hc. eexists. by apply add_oob_auth_unregistered.
Qed.

(** [unrecognized_stage_error] on a request with the stage type
    [m.login.bogus] that names no session, in an empty store. *)
Lemma unrecognized_stage_error_witness :
  let st := empty_handler 0 (list_ascii_of_string "abcdefghijklmnopqrstuvwx") in
  let authdict : pydict := {[ "type" := PStr "m.login.bogus" ]} in
  let clientdict : pydict := <["username" := PStr "a"]> {[ "auth" := PDict authdict ]} in
  ∃ st', check_auth demo_hs demo_LT [["m.login.dummy"]] clientdict "10.0.0.1" st
           = Raise UnrecognizedStageError st'.
Proof.
  intros st authdict clientdict.
  destruct (unrecognized_stage_error demo_hs demo_LT [["m.login.dummy"]] clientdict authdict
              "10.0.0.1" (PStr "m.login.bogus") st) as (_ & Hnew & _).
  - by vm_compute.
  - by vm_compute.
  - done.
  - intros t [= <-]. by vm_compute.
  - destruct Hnew as (sid & j & _ & _ & Hrun).
    + by vm_compute.
    + exists 0%nat. split; [cbn; lia|]. cbn. apply not_elem_of_empty.
    + eexists. exact Hrun.
Defined.

(** ** Completing a flow *)

Lemma flow_done_satisfied (f : list string) (creds : pydict) :
  flow_done f creds = true ↔ flow_satisfied f (dom creds).
Proof.
  unfold flow_done, flow_satisfied. rewrite Nat.eqb_eq, size_empty_iff.
  split.
  - intros H stage Hin. destruct (decide (stage ∈ dom creds)) as [|Hn]; [done|].
    exfalso. apply (not_elem_of_empty (C:=gset string) stage), H. set_solver.
  - intros H. set_solver.
Qed.

Lemma some_flow_done_satisfied (flows : list (list string)) (creds : pydict) :
  some_flow_done flows creds = true ↔ ∃ g, g ∈ flows ∧ flow_satisfied g (dom creds).
Proof.
  unfold some_flow_done. rewrite existsb_exists. split.
  - intros (g & Hin & Hd). exists g. split; [by apply list_elem_of_In|].
    by apply flow_done_satisfied.
  - intros (g & Hin & Hs). exists g. split; [by apply list_elem_of_In|].
    by apply flow_done_satisfied.
Qed.

Lemma resolves_to_stored (st : AuthHandler) (sid : string) (l : loc) (s : session) :
  sid ≠ "" → sessions st !! sid = Some l → objects st !! l = Some s → s_id s = sid →
  resolves_to st (Some (PStr sid)) l s st.
Proof.
  intros Hne Hl Ho Hid. split; [by apply get_session_info_existing|].
  split; [done|by rewrite Hid].
Qed.

Lemma resolves_to_new (st : AuthHandler) (session_id : option pyval) :
  names_no_session st session_id → supplies_fresh_id st →
  ∃ sid j,
    sid = tape_block j (tape st) ∧ (sid ∉ dom (sessions st)) ∧ String.length sid = 24%nat ∧
    resolves_to st session_id (fresh (dom (objects st))) (Session sid None None)
      (with_new_session sid (24 * (j + 1)) st).
Proof.
  intros Hno Hsup. destruct (get_session_info_new st _ Hno Hsup) as (j & Hlen & Hf & Hrun).
  exists (tape_block j (tape st)), j. split; [done|]. split; [done|].
  split; [by apply tape_block_length|]. split; [done|].
  cbn. by rewrite !lookup_insert_eq.
Qed.

Section Completion.

Context (hs : HomeServer) (LT : LoginType) (flows : list (list string)).

(** The stages [ts] presented one call at a time for the stored session
    [sid]. *)
Lemma run_stages (sid : string) (l : loc) :
  ∀ ts reqs st s,
    sid ≠ "" → sessions st !! sid = Some l → objects st !! l = Some s → s_id s = sid →
    Forall2 (stage_request hs LT (Some (PStr sid))) ts reqs → ts ≠ [] →
    (∀ g pre, g ∈ flows → pre ≠ [] → pre `prefix_of` ts → pre ≠ ts →
              ¬ flow_satisfied g (dom (default ∅ (s_creds s)) ∪ list_to_set pre)) →
    (∃ g, g ∈ flows ∧ flow_satisfied g (dom (default ∅ (s_creds s)) ∪ list_to_set ts)) →
    ∃ outs creds clientdict st',
      run_check_auth hs LT flows reqs st
        = outs ++ [Return (true, Creds creds, clientdict) st'] ∧
      List.length outs = (List.length ts - 1)%nat ∧
      Forall incomplete outs ∧
      dom creds = dom (default ∅ (s_creds s)) ∪ list_to_set ts ∧
      sessions st' !! sid = None.
Proof.
  intros ts reqs st s Hne Hl Ho Hid Hreqs. revert st s Hl Ho Hid.
  induction Hreqs as [|t [clientdict clientip] ts reqs Hreq Hreqs IH];
    intros st s Hl Ho Hid Hnil Hpre Hfull; [done|].
  destruct Hreq as (authdict & check & result & Hauth & Hsid & Hty & Hc & Hrun & Htr).
  cbn [fst snd] in *. cbn [run_check_auth].
  destruct (resolves_to_stored st sid l s Hne Hl Ho Hid) as (Hget & _ & Hs).
  rewrite <- Hsid in Hget.
  rewrite (check_auth_stage hs LT flows clientdict clientip authdict t check result l s st st
             Hauth Hty Hc Hrun Htr Hget Ho Hs).
  set (creds := <[t := result]> (default ∅ (s_creds s))).
  assert (Hdom : dom creds = dom (default ∅ (s_creds s)) ∪ list_to_set [t]).
  { unfold creds. rewrite dom_insert_L. set_solver. }
  destruct ts as [|t' ts].
  - apply Forall2_nil_inv_l in Hreqs as ->.
    rewrite (proj2 (some_flow_done_satisfied flows creds)) by (by rewrite Hdom).
    eexists [], creds, _, _. split; [reflexivity|]. split; [done|]. split; [done|].
    split; [done|]. cbn. by rewrite Hid, lookup_delete_eq.
  - destruct (some_flow_done flows creds) eqn:Hdone.
    { apply some_flow_done_satisfied in Hdone as (g & Hg & Hsat). exfalso.
      apply (Hpre g [t] Hg); [done|by exists (t' :: ts)|done|by rewrite <- Hdom]. }
    cbn [final_state].
    set (s2 := credited_session (delete "auth" clientdict) t result s).
    set (st2 := put_object l s2 st).
    assert (Hcreds2 : default ∅ (s_creds s2) = creds) by done.
    destruct (IH st2 s2) as (outs & creds' & cd' & st' & Hrun' & Hlen & Hinc & Hdom' & Hgone).
    + done.
    + apply put_object_lookup.
    + done.
    + done.
    + intros g pre Hg Hpne Hpfx Hpts. rewrite Hcreds2, Hdom.
      intros Hsat. apply (Hpre g (t :: pre) Hg); [done| |congruence|].
      * destruct Hpfx as [k ->]. by exists k.
      * intros stage Hin. specialize (Hsat stage Hin). set_solver.
    + destruct Hfull as (g & Hg & Hsat). exists g. split; [done|].
      rewrite Hcreds2, Hdom. intros stage Hin. specialize (Hsat stage Hin). set_solver.
    + eexists (_ :: outs), creds', cd', st'. rewrite Hrun'. split; [done|].
      split; [cbn in *; lia|]. split.
      * constructor; [|done]. by eexists _, _, _.
      * split; [|done]. rewrite Hdom', Hcreds2, Hdom. set_solver.
Qed.

(** The same, the first call resolving the session: the one it names, or a
    new one. *)
Lemma run_stages_from (session_id : option pyval) (l : loc) (s : session)
    (t : string) (ts : list string) (req : pydict * string) (reqs : list (pydict * string))
    (st st1 : AuthHandler) :
  resolves_to st session_id l s st1 → s_id s ≠ "" → default ∅ (s_creds s) = ∅ →
  stage_request hs LT session_id t req →
  Forall2 (stage_request hs LT (Some (PStr (s_id s)))) ts reqs →
  (∀ g pre, g ∈ flows → pre ≠ [] → pre `prefix_of` (t :: ts) → pre ≠ t :: ts →
            ¬ flow_satisfied g (list_to_set pre)) →
  (∃ g, g ∈ flows ∧ flow_satisfied g (list_to_set (t :: ts))) →
  ∃ outs creds clientdict st',
    run_check_auth hs LT flows (req :: reqs) st
      = outs ++ [Return (true, Creds creds, clientdict) st'] ∧
    List.length outs = List.length ts ∧
    Forall incomplete outs ∧
    dom creds = list_to_set (t :: ts) ∧
    sessions st' !! s_id s = None.
Proof.
  intros (Hget & Ho & Hs) Hne Hempty Hreq Hreqs Hpre Hfull.
  destruct req as [clientdict clientip].
  destruct Hreq as (authdict & check & result & Hauth & Hsid & Hty & Hc & Hrun & Htr).
  cbn [fst snd] in *. cbn [run_check_auth]. rewrite <- Hsid in Hget.
  rewrite (check_auth_stage hs LT flows clientdict clientip authdict t check result l s st st1
             Hauth Hty Hc Hrun Htr Hget Ho Hs).
  rewrite Hempty.
  set (creds := <[t := result]> (∅ : pydict)).
  assert (Hdom : dom creds = list_to_set [t]).
  { unfold creds. rewrite dom_insert_L. set_solver. }
  destruct ts as [|t' ts].
  - apply Forall2_nil_inv_l in Hreqs as ->.
    rewrite (proj2 (some_flow_done_satisfied flows creds)) by (by rewrite Hdom).
    eexists [], creds, _, _. split; [reflexivity|]. split; [done|]. split; [done|].
    split; [done|]. cbn. by rewrite lookup_delete_eq.
  - destruct (some_flow_done flows creds) eqn:Hdone.
    { apply some_flow_done_satisfied in Hdone as (g & Hg & Hsat). exfalso.
      apply (Hpre g [t] Hg); [done|by exists (t' :: ts)|done|by rewrite <- Hdom]. }
    cbn [final_state].
    set (s2 := credited_session (delete "auth" clientdict) t result s).
    set (st2 := put_object l s2 st1).
    assert (Hcreds2 : default ∅ (s_creds s2) = creds) by (cbn; by rewrite Hempty).
    destruct (run_stages (s_id s) l (t' :: ts) reqs st2 s2)
      as (outs & creds' & cd' & st' & Hrun' & Hlen & Hinc & Hdom' & Hgone); try done.
    + apply put_object_lookup.
    + intros g pre Hg Hpne Hpfx Hpts. rewrite Hcreds2, Hdom.
      intros Hsat. apply (Hpre g (t :: pre) Hg); [done| |congruence|].
      * destruct Hpfx as [k ->]. by exists k.
      * intros stage Hin. specialize (Hsat stage Hin). set_solver.
    + destruct Hfull as (g & Hg & Hsat). exists g. split; [done|].
      rewrite Hcreds2, Hdom. intros stage Hin. specialize (Hsat stage Hin). set_solver.
    + eexists (_ :: outs), creds', cd', st'. rewrite Hrun'. split; [done|].
      split; [cbn in *; lia|]. split.
      * constructor; [|done]. by eexists _, _, _.
      * split; [|done]. rewrite Hdom', Hcreds2, Hdom. set_solver.
Qed.

End Completion.

(** C4, as stated, fails: with the flows [[dummy]] and [[dummy; recaptcha]],
    the call that completes the dummy stage returns the complete result,
    although the stage [m.login.recaptcha] of the second flow is not among
    the credentials. *)
Lemma complete_before_all_stages_of_flow :
  let flows := [["m.login.dummy"]; ["m.login.dummy"; "m.login.recaptcha"]] in
  let clientdict : pydict := {[ "auth" := PDict {[ "type" := PStr "m.login.dummy" ]} ]} in
  let st := empty_handler 0 (list_ascii_of_string "abcdefghijklmnopqrstuvwx") in
  ["m.login.dummy"; "m.login.recaptcha"] ∈ flows ∧
  ∃ creds clientdict' st',
    check_auth demo_hs demo_LT flows clientdict "10.0.0.1" st
      = Return (true, Creds creds, clientdict') st' ∧
    "m.login.recaptcha" ∉ dom creds.
Proof.
  intros flows clientdict st. split; [set_solver|].
  eexists _, _, _. split; [by vm_compute|].
  apply not_elem_of_dom. by vm_compute.
Qed.

(** C4, amended. Take a [check_auth] call that presents a registered stage
    whose checker succeeds, for the session its session id resolves to: the
    stored session it names, or a new one when it names none. The call
    returns the complete result, with the credentials of the session
    including this stage, exactly when some flow of the flow set has every
    stage among the keys of these credentials; the session is then no longer
    in the store; otherwise the call answers with a challenge and the
    session stays, with the stage credited. So when the stages of a flow [f]
    of the set are presented one call at a time, in any order, for a session
    without credentials, and no flow of the set is satisfied by the stages
    of a proper non-empty prefix of that order, every call but the last
    answers with a challenge and the last one returns the complete result,
    with credentials keyed by the stages of [f], and removes the session. *)
Theorem check_auth_completes_on_satisfied_flow (hs : HomeServer) (LT : LoginType)
    (flows : list (list string)) :
  (∀ st sid l s,
     sid ≠ "" → sessions st !! sid = Some l → objects st !! l = Some s → s_id s = sid →
     resolves_to st (Some (PStr sid)) l s st) ∧
  (∀ st session_id,
     names_no_session st session_id → supplies_fresh_id st →
     ∃ sid j,
       sid = tape_block j (tape st) ∧ (sid ∉ dom (sessions st)) ∧
       String.length sid = 24%nat ∧
       resolves_to st session_id (fresh (dom (objects st))) (Session sid None None)
         (with_new_session sid (24 * (j + 1)) st)) ∧
  (∀ clientdict clientip authdict t (check : checker) result l s st st1,
     clientdict !! "auth" = Some (PDict authdict) →
     authdict !! "type" = Some (PStr t) → checkers hs LT !! t = Some check →
     (∀ st', check authdict clientip st' = Return result st') → truthy result = true →
     resolves_to st (authdict !! "session") l s st1 →
     let creds := <[t := result]> (default ∅ (s_creds s)) in
     ∃ authed p clientdict' st',
       check_auth hs LT flows clientdict clientip st = Return (authed, p, clientdict') st' ∧
       (authed = true ↔ ∃ g, g ∈ flows ∧ flow_satisfied g (dom creds)) ∧
       (authed = true → p = Creds creds ∧ sessions st' !! s_id s = None) ∧
       (authed = false →
          (∃ ret, p = Challenge ret) ∧ sessions st' !! s_id s = Some l ∧
          ∃ s', objects st' !! l = Some s' ∧ s_id s' = s_id s ∧ s_creds s' = Some creds)) ∧
  (∀ f t ts req reqs session_id l s st st1,
     f ∈ flows → t :: ts ≡ₚ f →
     resolves_to st session_id l s st1 → s_id s ≠ "" → default ∅ (s_creds s) = ∅ →
     stage_request hs LT session_id t req →
     Forall2 (stage_request hs LT (Some (PStr (s_id s)))) ts reqs →
     (∀ g pre, g ∈ flows → pre ≠ [] → pre `prefix_of` (t :: ts) → pre ≠ t :: ts →
               ¬ flow_satisfied g (list_to_set pre)) →
     ∃ outs creds clientdict st',
       run_check_auth hs LT flows (req :: reqs) st
         = outs ++ [Return (true, Creds creds, clientdict) st'] ∧
       List.length outs = (List.length f - 1)%nat ∧
       Forall incomplete outs ∧
       (∀ stage, stage ∈ dom creds ↔ stage ∈ f) ∧
       sessions st' !! s_id s = None).
Proof.
  split; [intros; by apply resolves_to_stored|].
  split; [intros; by apply resolves_to_new|].
  split.
  - intros clientdict clientip authdict t check result l s st st1
      Hauth Hty Hc Hrun Htr (Hget & Ho & Hs) creds.
    rewrite (check_auth_stage hs LT flows clientdict clientip authdict t check result l s st st1
               Hauth Hty Hc Hrun Htr Hget Ho Hs).
    fold creds. pose proof (some_flow_done_satisfied flows creds) as Hiff.
    destruct (some_flow_done flows creds).
    + eexists true, _, _, _. split; [reflexivity|]. split; [by rewrite <- Hiff|].
      split; [|done]. intros _. split; [done|]. cbn. by rewrite lookup_delete_eq.
    + eexists false, _, _, _. split; [reflexivity|]. split; [by rewrite <- Hiff|].
      split; [done|]. intros _. split; [by eexists|]. split; [done|].
      eexists. split; [apply put_object_lookup|]. done.
  - intros f t ts req reqs session_id l s st st1 Hf Hperm Hres Hne Hempty Hreq Hreqs Hpre.
    destruct (run_stages_from hs LT flows session_id l s t ts req reqs st st1)
      as (outs & creds & cd & st' & Hrun & Hlen & Hinc & Hdom & Hgone); try done.
    + exists f. split; [done|]. intros stage Hin. rewrite <- Hperm in Hin. set_solver.
    + exists outs, creds, cd, st'. split; [done|].
      split; [rewrite <- Hperm; cbn; lia|]. split; [done|]. split; [|done].
      intros stage. rewrite Hdom, <- Hperm. set_solver.
Qed.

(** [check_auth_completes_on_satisfied_flow] on the flow
    [[recaptcha; dummy]], completed in the order dummy, recaptcha: the first
    request names no session and is given a new one, the second carries its
    id. *)
Lemma check_auth_completes_on_satisfied_flow_witness :
  let sid := "abcdefghijklmnopqrstuvwx" in
  let flows := [["m.login.recaptcha"; "m.login.dummy"]] in
  let st := empty_handler 0 (list_ascii_of_string sid) in
  let dummy : pydict := {[ "type" := PStr "m.login.dummy" ]} in
  let captcha : pydict :=
    <["session" := PStr sid]>
      (<["response" := PStr "ok"]> {[ "type" := PStr "m.login.recaptcha" ]}) in
  let req : pydict * string := ({[ "auth" := PDict dummy ]}, "10.0.0.1") in
  let reqs : list (pydict * string) := [({[ "auth" := PDict captcha ]}, "10.0.0.1")] in
  ∃ outs creds clientdict st',
    run_check_auth demo_hs demo_LT flows (req :: reqs) st
      = outs ++ [Return (true, Creds creds, clientdict) st'] ∧
    List.length outs = 1%nat ∧ Forall incomplete outs ∧ sessions st' !! sid = None.
Proof.
  intros sid flows st dummy captcha req reqs.
  destruct (proj2 (proj2 (proj2
              (check_auth_completes_on_satisfied_flow demo_hs demo_LT flows)))
              ["m.login.recaptcha"; "m.login.dummy"]
              "m.login.dummy" ["m.login.recaptcha"]
              req reqs None 0%nat (Session sid None None) st
              (with_new_session sid 24 st))
    as (outs & creds & cd & st' & Hrun & Hlen & Hinc & _ & Hgone).
  - apply list_elem_of_here.
  - apply perm_swap.
  - split; [by vm_compute|]. split; by vm_compute.
  - done.
  - done.
  - exists dummy, (_check_dummy_auth), (PBool true). repeat split; by vm_compute.
  - constructor; [|constructor].
    exists captcha, (_check_recaptcha demo_hs), (PBool true). repeat split; by vm_compute.
  - intros g pre Hg Hpne [k Hk] Hpts Hsat.
    apply list_elem_of_singleton in Hg as ->.
    destruct pre as [|a [|b pre]]; [done| |].
    + injection Hk as <- _.
      specialize (Hsat "m.login.recaptcha" (list_elem_of_here _ _)).
      apply elem_of_list_to_set, list_elem_of_singleton in Hsat. discriminate Hsat.
    + injection Hk as <- <- Hk. destruct pre; [done|discriminate Hk].
  - exists outs, creds, cd, st'. by repeat split.
Defined.

(** * Further properties of the handler *)

(** ** The sweep of the nonce table *)

(** The state the sweep leaves. *)
Lemma prune_nonce_run (st : AuthHandler) :
  _prune_nonce st =
    Return tt
      (set_nonces (λ nonces,
         (λ user_dict : gmap string nonce_dict,
            filter (λ kv, (default 0 (nd_expiry kv.2) < clock st - 60 * 1000)%Z) user_dict)
         <$> filter (λ kv, size kv.2 ≠ 0%nat) nonces) st).
Proof. reflexivity. Qed.

Lemma prune_record_iff (st st' : AuthHandler) (u n : string) (nd : nonce_dict) :
  _prune_nonce st = Return tt st' →
  nonce_record st' u n = Some nd ↔
    nonce_record st u n = Some nd ∧ (default 0 (nd_expiry nd) < clock st - 60 * 1000)%Z.
Proof.
  rewrite prune_nonce_run. intros [= <-]. unfold nonce_record. cbn.
  rewrite lookup_fmap. destruct (_nonces st !! u) as [d|] eqn:Hd; cbn.
  - destruct (decide (size d ≠ 0%nat)) as [Hs|Hs].
    + erewrite map_lookup_filter_Some_2; [|done..]. cbn.
      rewrite map_lookup_filter_Some. cbn. done.
    + rewrite map_lookup_filter_None_2.
      2: { right. intros d' Hd'. rewrite Hd in Hd'. by injection Hd' as <-. }
      cbn. split; [done|]. intros [Hn _]. exfalso. apply Hs.
      intros Hz. apply map_size_empty_iff in Hz. by rewrite Hz, lookup_empty in Hn.
  - rewrite map_lookup_filter_None_2 by (by left). cbn. naive_solver.
Qed.

(** X1. The sweep run at time [now] always returns; afterwards the table
    holds exactly the records it held before whose expiry (0 when the record
    has none) is below [now - 60000], each as it was; a user has a bucket
    afterwards exactly when the user had a non-empty one before; the session
    store, the clock and the random source are untouched. *)
Theorem prune_nonce_records (st : AuthHandler) :
  ∃ st', _prune_nonce st = Return tt st' ∧
    sessions st' = sessions st ∧ objects st' = objects st ∧
    clock st' = clock st ∧ tape st' = tape st ∧
    (∀ u n nd, nonce_record st' u n = Some nd ↔
       nonce_record st u n = Some nd ∧
       (default 0 (nd_expiry nd) < clock st - 60 * 1000)%Z) ∧
    (∀ u, is_Some (_nonces st' !! u) ↔ ∃ d, _nonces st !! u = Some d ∧ d ≠ ∅).
Proof.
  eexists. split; [apply prune_nonce_run|].
  do 4 (split; [reflexivity|]). split.
  - intros u n nd. apply prune_record_iff, prune_nonce_run.
  - intros u. cbn. rewrite lookup_fmap. split.
    + intros [d' Hd'].
      destruct (filter _ (_nonces st) !! u) as [d|] eqn:Hf; [|done].
      apply map_lookup_filter_Some in Hf as [Hd Hs]. exists d. split; [done|].
      intros ->. cbn in Hs. by rewrite map_size_empty in Hs.
    + intros (d & Hd & Hne).
      erewrite map_lookup_filter_Some_2; [by eexists|done|].
      cbn. intros Hz. by apply map_size_empty_iff in Hz.
Qed.

(** X2. A record that one sweep keeps is kept by every sweep run at that
    time or later: once a record is more than 60 seconds past its expiry, no
    sweep removes it. *)
Theorem prune_nonce_survivors_stay (st st1 : AuthHandler) (u n : string)
    (nd : nonce_dict) (later : Z) :
  _prune_nonce st = Return tt st1 →
  nonce_record st1 u n = Some nd →
  (clock st ≤ later)%Z →
  ∃ st2, _prune_nonce (at_time later st1) = Return tt st2 ∧ nonce_record st2 u n = Some nd.
Proof.
  intros Hrun Hrec Hlater. eexists. split; [apply prune_nonce_run|].
  apply (prune_record_iff (at_time later st1) _ u n nd (prune_nonce_run _)).
  apply (prune_record_iff st st1 u n nd Hrun) in Hrec as Hlt. destruct Hlt as [_ Hlt].
  split; [exact Hrec|]. cbn. lia.
Qed.

Lemma prune_nonce_survivors_stay_witness :
  ∃ st1 st2,
    _prune_nonce prune_input = Return tt st1 ∧
    _prune_nonce (at_time 200000 st1) = Return tt st2 ∧
    nonce_record st2 "@a:x" "old" = Some (NonceDict None (Some 10000%Z)).
Proof.
  destruct (prune_nonce_survivors_stay prune_input _ "@a:x" "old"
              (NonceDict None (Some 10000%Z)) 200000 (prune_nonce_run _))
    as (st2 & Hrun & Hrec).
  - by vm_compute.
  - by vm_compute.
  - eexists _, st2. split; [apply prune_nonce_run|]. by split.
Defined.

(** ** Short-term login tokens, from minting to login *)

Lemma issue_tokens_run hs lib user_id st :
  (16 ≤ List.length (tape st))%nat →
  _issue_tokens hs lib user_id st =
    Return (user_id,
            serialize lib (access_macaroon hs lib user_id (clock st)),
            serialize lib
              (refresh_macaroon hs lib user_id (string_of_list_ascii (take 16 (tape st)))))
      (set_tape (drop 16) st).
Proof.
  intros Hlen.
  unfold _issue_tokens, issue_access_token, issue_refresh_token,
    generate_access_token, generate_refresh_token, random_string_with_symbols.
  rewrite !bind_run. unfold time_msec, gets. rewrite !ret_run, !bind_run.
  rewrite random_string_run by done. by rewrite !ret_run.
Qed.

Section MintedToken.

Context (hs : HomeServer) (lib : pymacaroons) (user_id nonce txn_id : string) (now0 : Z).

Lemma caveat_time_fail (expiry : Z) (st : AuthHandler) :
  (expiry ≤ clock st)%Z →
  caveat_met (login_predicates user_id) (login_callbacks user_id txn_id)
    ("time < " +:+ fmt_d expiry) st = Return false st.
Proof.
  intros Hle. unfold caveat_met. rewrite bool_decide_eq_false_2.
  2: { intros H. caveat_not_exact H. }
  unfold login_callbacks. cbn [run_callbacks]. rewrite bind_run.
  unfold _verify_macaroon_expiry. rewrite startswith_app. cbn [negb].
  rewrite slice_from_app, int_fmt_d. rewrite bind_run. unfold time_msec, gets.
  rewrite ret_run, bool_decide_eq_false_2 by lia.
  rewrite !bind_run. unfold _verify_nonce.
  change (startswith ("time < " +:+ fmt_d expiry) "nonce = ") with false.
  reflexivity.
Qed.

Lemma caveat_nonce_fail (st : AuthHandler) :
  usable_nonce st user_id nonce txn_id = false →
  caveat_met (login_predicates user_id) (login_callbacks user_id txn_id)
    ("nonce = " +:+ nonce) st = Return false st.
Proof.
  intros Hno. unfold caveat_met. rewrite bool_decide_eq_false_2.
  2: { intros H. caveat_not_exact H. }
  unfold login_callbacks. cbn [run_callbacks]. rewrite bind_run.
  unfold _verify_macaroon_expiry.
  change (startswith ("nonce = " +:+ nonce) "time < ") with false.
  cbn [negb]. rewrite ret_run, !bind_run.
  rewrite verify_nonce_eq. unfold usable_nonce in Hno.
  destruct (nonce_record st user_id nonce) as [nd|]; [|reflexivity].
  rewrite Hno. reflexivity.
Qed.

Lemma usable_nonce_record (st : AuthHandler) :
  usable_nonce st user_id nonce txn_id = true →
  ∃ nd, nonce_record st user_id nonce = Some nd ∧
        (nd_txn_id nd = None ∨ nd_txn_id nd = Some txn_id).
Proof.
  unfold usable_nonce. destruct (nonce_record st user_id nonce) as [nd|]; [|done].
  intros H%bool_decide_eq_true. eauto.
Qed.

Lemma minted_login_accepts (token : string) (st : AuthHandler) :
  deserialize lib token = Some (short_term_macaroon hs lib user_id nonce now0) →
  (clock st < now0 + 60 * 1000)%Z →
  usable_nonce st user_id nonce txn_id = true →
  (16 ≤ List.length (tape st))%nat →
  do_short_term_token_login hs lib token user_id txn_id st =
    Return (issued hs lib user_id st)
      (set_tape (drop 16) (set_nonces (bind_txn user_id nonce txn_id) st)).
Proof.
  intros Hd Hlt Hok Hlen. apply usable_nonce_record in Hok as (nd & Hrec & Hfree).
  unfold do_short_term_token_login, try_except. rewrite Hd.
  fold (login_predicates user_id). fold (login_callbacks user_id txn_id).
  rewrite bind_run. unfold verify. rewrite bind_run.
  cbn [caveats short_term_macaroon add_first_party_caveat _generate_base_macaroon
       Macaroon_new app identifier]. cbn [verify_caveats].
  rewrite bind_run, caveat_exact_run by apply list_elem_of_here.
  rewrite bind_run, caveat_exact_run
    by (do 2 apply list_elem_of_further; apply list_elem_of_here).
  rewrite bind_run, caveat_exact_run by (apply list_elem_of_further, list_elem_of_here).
  rewrite bind_run, caveat_time_run by done.
  rewrite bind_run, (caveat_nonce_run user_id txn_id nonce st nd), ret_run by done.
  rewrite bool_decide_eq_true_2 by reflexivity. rewrite ret_run. cbn [negb].
  rewrite bind_run, issue_tokens_run by done. reflexivity.
Qed.

Lemma minted_login_rejects (token : string) (st : AuthHandler) :
  deserialize lib token = Some (short_term_macaroon hs lib user_id nonce now0) →
  (now0 + 60 * 1000 ≤ clock st)%Z ∨ usable_nonce st user_id nonce txn_id = false →
  do_short_term_token_login hs lib token user_id txn_id st = Raise InvalidTokenError st.
Proof.
  intros Hd Hbad.
  unfold do_short_term_token_login, try_except. rewrite Hd.
  fold (login_predicates user_id). fold (login_callbacks user_id txn_id).
  rewrite bind_run. unfold verify. rewrite bind_run.
  cbn [caveats short_term_macaroon add_first_party_caveat _generate_base_macaroon
       Macaroon_new app identifier]. cbn [verify_caveats].
  rewrite bind_run, caveat_exact_run by apply list_elem_of_here.
  rewrite bind_run, caveat_exact_run
    by (do 2 apply list_elem_of_further; apply list_elem_of_here).
  rewrite bind_run, caveat_exact_run by (apply list_elem_of_further, list_elem_of_here).
  rewrite bind_run.
  destruct (decide (clock st < now0 + 60 * 1000)%Z) as [Hlt|Hge].
  - destruct Hbad as [Hle|Hno]; [lia|].
    rewrite caveat_time_run by done. rewrite bind_run, caveat_nonce_fail by done.
    reflexivity.
  - rewrite caveat_time_fail by lia. reflexivity.
Qed.

End MintedToken.


Lemma demo_token_reads :
  deserialize demo_token_lib
    (serialize demo_token_lib (short_term_macaroon demo_hs demo_token_lib "@a:x" "n1" 0))
  = Some (short_term_macaroon demo_hs demo_token_lib "@a:x" "n1" 0).
Proof.
  change ((if String.eqb
                (serialize demo_lib (short_term_macaroon demo_hs demo_lib "@a:x" "n1" 0))
                (serialize demo_lib (short_term_macaroon demo_hs demo_lib "@a:x" "n1" 0))
           then Some (short_term_macaroon demo_hs demo_lib "@a:x" "n1" 0) else None)
          = Some (short_term_macaroon demo_hs demo_lib "@a:x" "n1" 0)).
  by rewrite String.eqb_refl.
Qed.

(** X3. A login with a token that reads back as the short-term macaroon
    minted at [now0] for [(user_id, nonce)] is decided by the clock and the
    nonce record alone. With 16 random characters at hand, it returns when
    the clock is below [now0 + 60000] and the record exists and is unbound or
    bound to this transaction id: the result names [user_id] and the host,
    the access token carries the clock's time, the refresh token the next 16
    random characters, and the record is bound to the transaction id. In
    every other case it raises the invalid-token error and the handler is
    exactly as it was. *)
Theorem minted_token_login_decided (hs : HomeServer) (lib : pymacaroons)
    (user_id nonce txn_id token : string) (now0 : Z) (st : AuthHandler) :
  deserialize lib token = Some (short_term_macaroon hs lib user_id nonce now0) →
  (16 ≤ List.length (tape st))%nat →
  let live_token :=
    (clock st < now0 + 60 * 1000)%Z ∧ usable_nonce st user_id nonce txn_id = true in
  (live_token →
   ∃ st', do_short_term_token_login hs lib token user_id txn_id st
            = Return (issued hs lib user_id st) st' ∧
          st' = set_tape (drop 16) (set_nonces (bind_txn user_id nonce txn_id) st) ∧
          nonce_record st' user_id nonce ≫= nd_txn_id = Some txn_id) ∧
  (¬ live_token →
   do_short_term_token_login hs lib token user_id txn_id st = Raise InvalidTokenError st).
Proof.
  intros Hd Hlen live_token. split.
  - intros [Hlt Hok]. eexists. split; [by apply (minted_login_accepts hs lib user_id nonce txn_id now0)|].
    split; [reflexivity|].
    apply usable_nonce_record in Hok as (nd & Hrec & _).
    change (nonce_record (set_tape (drop 16) ?s) user_id nonce)
      with (nonce_record s user_id nonce).
    unfold bind_txn. rewrite nonce_record_bind, decide_True by done. by rewrite Hrec.
  - intros Hno. apply (minted_login_rejects hs lib user_id nonce txn_id now0); [done|].
    destruct (decide (clock st < now0 + 60 * 1000)%Z) as [Hlt|Hge]; [|left; lia].
    right. destruct (usable_nonce st user_id nonce txn_id); [|done].
    destruct Hno. by split.
Qed.

Lemma minted_token_login_decided_witness :
  let token := serialize demo_token_lib
                 (short_term_macaroon demo_hs demo_token_lib "@a:x" "n1" 0) in
  let st := minted_state (list_ascii_of_string "0123456789abcdef") in
  (∃ st', do_short_term_token_login demo_hs demo_token_lib token "@a:x" "tx1" st
            = Return (issued demo_hs demo_token_lib "@a:x" st) st' ∧
          nonce_record st' "@a:x" "n1" ≫= nd_txn_id = Some "tx1") ∧
  do_short_term_token_login demo_hs demo_token_lib token "@a:x" "tx1" (at_time 60000 st)
    = Raise InvalidTokenError (at_time 60000 st).
Proof.
  intros token st. split.
  - destruct (minted_token_login_decided demo_hs demo_token_lib "@a:x" "n1" "tx1" token 0 st
                demo_token_reads) as [Hacc _]; [cbn; lia|].
    destruct Hacc as (st' & Hrun & _ & Hrec); [split; by vm_compute|].
    exists st'. by split.
  - destruct (minted_token_login_decided demo_hs demo_token_lib "@a:x" "n1" "tx1" token 0
                (at_time 60000 st) demo_token_reads) as [_ Hrej]; [cbn; lia|].
    apply Hrej. intros [Hlt _]. by vm_compute in Hlt.
Defined.

(** X4. A short-term token belongs to the first transaction that logs in
    with it. Where the wire format reads the minted token back and the nonce
    is not bound: minting returns a token; a login with it under [tx1]
    returns; a second login under [tx1] returns again; after that a login
    under any other transaction id raises the invalid-token error and changes
    nothing, and minting for the same nonce raises the nonce-already-used
    error. *)
Theorem short_term_token_single_transaction (hs : HomeServer) (lib : pymacaroons)
    (user_id nonce tx1 tx2 : string) (st : AuthHandler) :
  deserialize lib (serialize lib (short_term_macaroon hs lib user_id nonce (clock st)))
    = Some (short_term_macaroon hs lib user_id nonce (clock st)) →
  nonce_bound st user_id nonce = false →
  (32 ≤ List.length (tape st))%nat →
  tx1 ≠ tx2 →
  ∃ token st1 r1 st2 r2 st3,
    make_short_term_token hs lib user_id nonce st = Return token st1 ∧
    do_short_term_token_login hs lib token user_id tx1 st1 = Return r1 st2 ∧
    do_short_term_token_login hs lib token user_id tx1 st2 = Return r2 st3 ∧
    lr_user_id r1 = user_id ∧ lr_user_id r2 = user_id ∧
    do_short_term_token_login hs lib token user_id tx2 st3 = Raise InvalidTokenError st3 ∧
    make_short_term_token hs lib user_id nonce st3 = Raise NonceAlreadyUsedError st3.
Proof.
  intros Hround Hfree Htape Hne.
  rewrite make_short_term_token_eq, Hfree.
  set (nd := NonceDict None (Some (clock st + 60 * 1000)%Z)).
  set (st1 := set_nonces _ st).
  assert (Hrec1 : nonce_record st1 user_id nonce = Some nd) by apply nonce_record_claim.
  set (st2 := set_tape (drop 16) (set_nonces (bind_txn user_id nonce tx1) st1)).
  assert (Hrec2 : nonce_record st2 user_id nonce
                  = Some (NonceDict (Some tx1) (Some (clock st + 60 * 1000)%Z))).
  { change (nonce_record st2 user_id nonce)
      with (nonce_record (set_nonces (bind_txn user_id nonce tx1) st1) user_id nonce).
    unfold bind_txn. rewrite nonce_record_bind, decide_True by done. by rewrite Hrec1. }
  assert (Hsame : set_nonces (bind_txn user_id nonce tx1) st2 = st2).
  { unfold bind_txn. by eapply rebind_same. }
  set (st3 := set_tape (drop 16) st2).
  assert (Hrec3 : nonce_record st3 user_id nonce
                  = Some (NonceDict (Some tx1) (Some (clock st + 60 * 1000)%Z)))
    by exact Hrec2.
  exists (serialize lib (short_term_macaroon hs lib user_id nonce (clock st))),
    st1, (issued hs lib user_id st1), st2, (issued hs lib user_id st2), st3.
  split; [reflexivity|]. split; [|split; [|split; [done|split; [done|split]]]].
  - apply (minted_login_accepts hs lib user_id nonce tx1 (clock st)); [done|cbn; lia| |cbn; lia].
    unfold usable_nonce. rewrite Hrec1. apply bool_decide_eq_true_2. by left.
  - pose proof (minted_login_accepts hs lib user_id nonce tx1 (clock st) _ st2 Hround) as H2.
    rewrite Hsame in H2. apply H2; [cbn; lia| |].
    + unfold usable_nonce. rewrite Hrec2. apply bool_decide_eq_true_2. by right.
    + cbn. rewrite length_drop. lia.
  - apply (minted_login_rejects hs lib user_id nonce tx2 (clock st)); [done|]. right.
    unfold usable_nonce. rewrite Hrec3. apply bool_decide_eq_false_2.
    cbn. intros [?|[= ?]]; done.
  - rewrite make_short_term_token_eq. unfold nonce_bound. by rewrite Hrec3.
Qed.

Lemma short_term_token_single_transaction_witness :
  ∃ token st1 r1 st2 r2 st3,
    make_short_term_token demo_hs demo_token_lib "@a:x" "n1"
      (empty_handler 0 (list_ascii_of_string "0123456789abcdef0123456789abcdef"))
      = Return token st1 ∧
    do_short_term_token_login demo_hs demo_token_lib token "@a:x" "tx1" st1 = Return r1 st2 ∧
    do_short_term_token_login demo_hs demo_token_lib token "@a:x" "tx1" st2 = Return r2 st3 ∧
    do_short_term_token_login demo_hs demo_token_lib token "@a:x" "tx2" st3
      = Raise InvalidTokenError st3.
Proof.
  destruct (short_term_token_single_transaction demo_hs demo_token_lib "@a:x" "n1" "tx1" "tx2"
              (empty_handler 0 (list_ascii_of_string "0123456789abcdef0123456789abcdef"))
              demo_token_reads)
    as (token & st1 & r1 & st2 & r2 & st3 & Hm & H1 & H2 & _ & _ & H3 & _).
  - by vm_compute.
  - cbn. lia.
  - discriminate.
  - exists token, st1, r1, st2, r2, st3. split; [exact Hm|]. split; [exact H1|].
    split; [exact H2|exact H3].
Defined.

(** X5. The sweep takes a freshly minted token out of service. When a token
    is minted at time [t] and the sweep next runs at any time up to
    [t + 120000], the sweep removes the token's nonce record, and a login
    with the token, under any transaction id, then raises the invalid-token
    error and changes nothing, also while the token's own time caveat
    ([t + 60000]) still lies ahead. *)
Theorem sweep_invalidates_minted_token (hs : HomeServer) (lib : pymacaroons)
    (user_id nonce txn_id : string) (st : AuthHandler) (later : Z) :
  deserialize lib (serialize lib (short_term_macaroon hs lib user_id nonce (clock st)))
    = Some (short_term_macaroon hs lib user_id nonce (clock st)) →
  nonce_bound st user_id nonce = false →
  (later ≤ clock st + 120000)%Z →
  ∃ token st1 st2,
    make_short_term_token hs lib user_id nonce st = Return token st1 ∧
    _prune_nonce (at_time later st1) = Return tt st2 ∧
    nonce_record st2 user_id nonce = None ∧
    do_short_term_token_login hs lib token user_id txn_id st2 = Raise InvalidTokenError st2.
Proof.
  intros Hround Hfree Hlater.
  rewrite make_short_term_token_eq, Hfree.
  set (nd := NonceDict None (Some (clock st + 60 * 1000)%Z)).
  set (st1 := set_nonces _ st).
  assert (Hrec1 : nonce_record st1 user_id nonce = Some nd) by apply nonce_record_claim.
  eexists _, st1, _. split; [reflexivity|]. split; [apply prune_nonce_run|].
  match goal with |- nonce_record ?s _ _ = None ∧ _ => set (st2 := s) end.
  assert (Hrec2 : nonce_record st2 user_id nonce = None).
  { destruct (nonce_record st2 user_id nonce) as [nd'|] eqn:E; [|done].
    apply (prune_record_iff (at_time later st1) st2 user_id nonce nd' (prune_nonce_run _))
      in E as [E Hlt].
    change (nonce_record (at_time later st1) user_id nonce)
      with (nonce_record st1 user_id nonce) in E.
    rewrite Hrec1 in E. injection E as <-. cbn in Hlt. lia. }
  split; [done|].
  apply (minted_login_rejects hs lib user_id nonce txn_id (clock st)); [done|]. right.
  unfold usable_nonce. by rewrite Hrec2.
Qed.

Lemma sweep_invalidates_minted_token_witness :
  ∃ token st1 st2,
    make_short_term_token demo_hs demo_token_lib "@a:x" "n1" (empty_handler 0 [])
      = Return token st1 ∧
    _prune_nonce (at_time 30000 st1) = Return tt st2 ∧
    do_short_term_token_login demo_hs demo_token_lib token "@a:x" "tx1" st2
      = Raise InvalidTokenError st2.
Proof.
  destruct (sweep_invalidates_minted_token demo_hs demo_token_lib "@a:x" "n1" "tx1"
              (empty_handler 0 []) 30000 demo_token_reads)
    as (token & st1 & st2 & Hm & Hp & _ & Hl).
  - by vm_compute.
  - cbn. lia.
  - exists token, st1, st2. split; [exact Hm|]. split; [exact Hp|exact Hl].
Defined.


(** ** Password login *)

Section PasswordLogin.

Context (hs : HomeServer) (lib : pymacaroons).




End PasswordLogin.




(** ** The stage checkers *)

Section Checkers.

Context (hs : HomeServer) (LT : LoginType).

Lemma find_user_answer (user_id : string) :
  ∃ o : option (string * string),
    ∀ st, _find_user_id_and_pwd_hash hs user_id st =
            match o with Some r => Return r st | None => Raise ForbiddenError st end.
Proof.
  unfold _find_user_id_and_pwd_hash.
  destruct (size (get_users_by_id_case_insensitive hs user_id)) as [|n] eqn:E; cbn [Nat.eqb].
  - by exists None.
  - destruct (decide (1 < S n)%nat) as [Hm|Hm].
    + destruct (_ !! user_id) as [h|]; [by exists (Some (user_id, h))|by exists None].
    + rewrite <- length_map_to_list in E.
      destruct (map_to_list _) as [|item rest]; [done|]. by exists (Some item).
Qed.

Lemma check_password_auth_answer authdict clientip :
  ∃ o, (∀ st, _check_password_auth hs authdict clientip st = answer o st) ∧
       ∀ v, o = inl v → ∃ uid, v = PStr uid.
Proof.
  unfold _check_password_auth.
  destruct (authdict !! "user") as [user|]; [|by exists (inr MissingParamError)].
  destruct (authdict !! "password") as [password|]; [|by exists (inr MissingParamError)].
  destruct user as [| | |user| |]; try by exists (inr AttributeError).
  match goal with |- context [_find_user_id_and_pwd_hash hs ?u] =>
    destruct (find_user_answer u) as [[[uid h]|] Hf] end.
  - destruct password as [| | |password| |];
      try (exists (inr TypeError); split; [|done]; intros st; by rewrite bind_run, Hf).
    destruct (checkpw hs password h) eqn:Hpw.
    + exists (inl (PStr uid)). split; [|intros v [= <-]; eauto].
      intros st. rewrite bind_run, Hf. cbn. rewrite bind_run.
      unfold _check_password, validate_hash. by rewrite Hpw.
    + exists (inr ForbiddenError). split; [|done].
      intros st. rewrite bind_run, Hf. cbn. rewrite bind_run.
      unfold _check_password, validate_hash. by rewrite Hpw.
  - exists (inr ForbiddenError). split; [|done]. intros st. by rewrite bind_run, Hf.
Qed.

Lemma check_recaptcha_answer authdict clientip :
  ∃ o, (∀ st, _check_recaptcha hs authdict clientip st = answer o st) ∧
       ∀ v, o = inl v → v = PBool true.
Proof.
  unfold _check_recaptcha. destruct (authdict !! "response") as [r|].
  - destruct (match _ !! "success" with Some v => truthy v | None => false end).
    + exists (inl (PBool true)). split; [done|]. by intros v [= <-].
    + by exists (inr UnauthorizedError).
  - by exists (inr (LoginError 400 "Captcha response is required" CAPTCHA_NEEDED)).
Qed.

Lemma check_email_identity_answer authdict clientip :
  ∃ o, (∀ st, _check_email_identity hs authdict clientip st = answer o st) ∧
       ∀ v, o = inl v →
         ∃ d, v = PDict d ∧ d !! "threepid_creds" = authdict !! "threepid_creds".
Proof.
  unfold _check_email_identity. destruct (authdict !! "threepid_creds") as [c|].
  - destruct (negb (truthy (threepid_from_creds hs c))); [by exists (inr UnauthorizedError)|].
    destruct (threepid_from_creds hs c) as [| | | | |d]; try by exists (inr TypeError).
    exists (inl (PDict (<["threepid_creds" := c]> d))). split; [done|].
    intros v [= <-]. eexists. split; [done|]. by rewrite lookup_insert_eq.
  - by exists (inr (LoginError 400 "Missing threepid_creds" MISSING_PARAM)).
Qed.

Lemma checkers_answer (t : string) (check : checker) authdict clientip :
  checkers hs LT !! t = Some check →
  ∃ o, (∀ st, check authdict clientip st = answer o st) ∧
       ∀ v, o = inl v → truthy v = true ∨ v = PStr "".
Proof.
  unfold checkers. intros H.
  apply lookup_insert_Some in H as [[_ <-]|[_ H]].
  { exists (inl (PBool true)). split; [done|]. intros v [= <-]. by left. }
  apply lookup_insert_Some in H as [[_ <-]|[_ H]].
  { destruct (check_email_identity_answer authdict clientip) as (o & Hrun & Hv).
    exists o. split; [done|]. intros v Ho. destruct (Hv v Ho) as (d & -> & Hd). left.
    cbn. apply negb_true_iff, Nat.eqb_neq. intros Hs. apply map_size_empty_iff in Hs.
    rewrite Hs, lookup_empty in Hd. subst o.
    specialize (Hrun (empty_handler 0 [])). unfold _check_email_identity in Hrun.
    by rewrite <- Hd in Hrun. }
  apply lookup_insert_Some in H as [[_ <-]|[_ H]].
  { destruct (check_recaptcha_answer authdict clientip) as (o & Hrun & Hv).
    exists o. split; [done|]. intros v Ho. rewrite (Hv v Ho). by left. }
  apply lookup_insert_Some in H as [[_ <-]|[_ H]].
  { destruct (check_password_auth_answer authdict clientip) as (o & Hrun & Hv).
    exists o. split; [done|]. intros v Ho. destruct (Hv v Ho) as (uid & ->).
    destruct uid; [by right|by left]. }
  by rewrite lookup_empty in H.
Qed.

End Checkers.

(** X9. Whatever is registered for a stage answers from the request alone:
    for a given auth dict and client address the checker either returns the
    same credential in every state or raises the same error in every state,
    it always finishes, and it leaves the handler as it was. A credential it
    returns is truthy, so that [check_auth] and [add_oob_auth] credit it,
    with one exception: the password checker returning the empty string as
    the canonical user id. *)
Theorem registered_checker_answers (hs : HomeServer) (LT : LoginType) (t : string)
    (check : checker) (authdict : pydict) (clientip : string) :
  checkers hs LT !! t = Some check →
  ∃ o, (∀ st, check authdict clientip st = answer o st) ∧
       ∀ v, o = inl v → truthy v = true ∨ v = PStr "".
Proof. apply checkers_answer. Qed.

Lemma registered_checker_answers_witness :
  ∃ o, ∀ st, _check_recaptcha demo_hs {[ "response" := PStr "r" ]} "10.0.0.1" st = answer o st.
Proof.
  destruct (registered_checker_answers demo_hs demo_LT "m.login.recaptcha"
              (_check_recaptcha demo_hs) {[ "response" := PStr "r" ]} "10.0.0.1")
    as (o & Hrun & _).
  - unfold checkers. cbn [DUMMY EMAIL_IDENTITY RECAPTCHA PASSWORD demo_LT].
    rewrite !lookup_insert_ne by discriminate. apply lookup_insert_eq.
  - by exists o.
Defined.

(** ** The ways through [check_auth] and [add_oob_auth] *)

Section Ways.

Context (hs : HomeServer) (LT : LoginType).

(** No auth dict, or an empty one: the caller is prompted. *)
Lemma check_auth_prompt_run flows clientdict clientip l s st st1 :
  clientdict !! "auth" = None ∨ clientdict !! "auth" = Some (PDict ∅) →
  _get_session_info None st = Return l st1 →
  objects st1 !! l = Some s → sessions st1 !! s_id s = Some l →
  let body := delete "auth" clientdict in
  check_auth hs LT flows clientdict clientip st =
    Return (false, Challenge (AuthDict (s_id s) flows (flow_params hs LT flows) None),
            request_params body s)
      (put_object l (Session (s_id s)
                       (if Nat.eqb (size body) 0 then s_clientdict s else Some body)
                       (s_creds s)) st1).
Proof.
  intros Hauth Hget Ho Hs body. unfold check_auth.
  destruct Hauth as [Hauth|Hauth]; rewrite Hauth; rewrite bind_run, ret_run; cbv beta iota.
  - assert (Hbody : body = clientdict) by (by apply delete_id). rewrite Hbody.
    rewrite bind_run, Hget. rewrite bind_run.
    rewrite (take_in_body_run _ l s st1) by done.
    rewrite bind_run.
    by rewrite (auth_dict_for_flows_run hs LT flows l _ _ (put_object_lookup _ _ _)).
  - rewrite !lookup_empty. rewrite bind_run, Hget. rewrite bind_run.
    rewrite (take_in_body_run _ l s st1) by done.
    rewrite map_size_empty. cbn [Nat.eqb]. rewrite bind_run.
    by rewrite (auth_dict_for_flows_run hs LT flows l _ _ (put_object_lookup _ _ _)).
Qed.

(** An auth dict that presents no stage: the flows are tested against the
    credentials the session has. *)
Lemma check_auth_no_type_run flows clientdict clientip authdict l s st st1 :
  clientdict !! "auth" = Some (PDict authdict) →
  authdict !! "type" = None → authdict ≠ ∅ →
  _get_session_info (authdict !! "session") st = Return l st1 →
  objects st1 !! l = Some s → sessions st1 !! s_id s = Some l →
  let body := delete "auth" clientdict in
  let creds := default ∅ (s_creds s) in
  let st2 := put_object l (received_session body s) st1 in
  check_auth hs LT flows clientdict clientip st =
    if some_flow_done flows creds
    then Return (true, Creds creds, request_params body s)
           (set_sessions (delete (s_id s)) st2)
    else Return (false,
                 Challenge (AuthDict (s_id s) flows (flow_params hs LT flows)
                              (Some (map_to_list creds).*1)),
                 request_params body s) st2.
Proof.
  intros Hauth Hty Hne Hget Ho Hs body creds st2. unfold check_auth.
  rewrite Hauth. rewrite bind_run, ret_run. cbv beta iota.
  rewrite bind_run, Hget. rewrite bind_run.
  rewrite (take_in_body_run _ l s st1) by done.
  assert (Hsize : Nat.eqb (size authdict) 0 = false).
  { apply Nat.eqb_neq. by rewrite map_size_empty_iff. }
  rewrite Hsize. fold body.
  rewrite bind_run, (init_creds_run l _ _ (put_object_lookup _ _ _)), put_object_put.
  rewrite bind_run, Hty, ret_run. cbn [set_creds s_id s_clientdict s_creds].
  change (put_object l _ st1) with st2.
  assert (Ho2 : objects st2 !! l = Some (received_session body s))
    by apply put_object_lookup.
  assert (Hs2 : sessions st2 !! s_id (received_session body s) = Some l) by done.
  rewrite bind_run, (read_session_run l _ st2 Ho2).
  cbn [received_session s_creds default from_option id]. fold creds.
  rewrite bind_run, (flows_loop_run flows l _ creds _ st2 Ho2) by (rewrite Hs2; eauto).
  destruct (some_flow_done flows creds); [done|].
  by rewrite bind_run, (auth_dict_for_flows_run hs LT flows l _ st2 Ho2).
Qed.

(** An auth dict that presents a registered stage, whatever its checker
    answers. *)
Lemma check_auth_answer_run flows clientdict clientip authdict t (check : checker) o
    l s st st1 :
  clientdict !! "auth" = Some (PDict authdict) →
  authdict !! "type" = Some (PStr t) → checkers hs LT !! t = Some check →
  (∀ st', check authdict clientip st' = answer o st') →
  _get_session_info (authdict !! "session") st = Return l st1 →
  objects st1 !! l = Some s → sessions st1 !! s_id s = Some l →
  let body := delete "auth" clientdict in
  let st2 := put_object l (received_session body s) st1 in
  check_auth hs LT flows clientdict clientip st =
    match o with
    | inr e => Raise e st2
    | inl result =>
        let creds :=
          if truthy result then <[t := result]> (default ∅ (s_creds s))
          else default ∅ (s_creds s) in
        let st3 := put_object l (set_creds creds (received_session body s)) st1 in
        if some_flow_done flows creds
        then Return (true, Creds creds, request_params body s)
               (set_sessions (delete (s_id s)) st3)
        else Return (false,
                     Challenge (AuthDict (s_id s) flows (flow_params hs LT flows)
                                  (Some (map_to_list creds).*1)),
                     request_params body s) st3
    end.
Proof.
  intros Hauth Hty Hc Hrun Hget Ho Hs body st2.
  match goal with |- _ = ?rhs => set (R := rhs) end.
  unfold check_auth.
  rewrite Hauth. rewrite bind_run, ret_run. cbv beta iota.
  rewrite bind_run, Hget. rewrite bind_run.
  rewrite (take_in_body_run _ l s st1) by done.
  rewrite (size_lookup_Some authdict "type" (PStr t)) by done.
  fold body.
  rewrite bind_run, (init_creds_run l _ _ (put_object_lookup _ _ _)), put_object_put.
  rewrite bind_run, Hty. cbn [hashable negb].
  change (put_object l _ st1) with st2.
  unfold checker in *. rewrite Hc. cbn [mbind option_bind]. rewrite bind_run, Hrun.
  subst R. destruct o as [result|e]; cbn [answer]; [|done].
  assert (Ho2 : objects st2 !! l = Some (received_session body s))
    by apply put_object_lookup.
  destruct (truthy result) eqn:Htruthy.
  - rewrite bind_run. unfold creds_setitem.
    rewrite (write_session_run l _ _ _ Ho2). unfold st2 at 1. rewrite put_object_put.
    cbn [received_session set_creds s_creds s_id s_clientdict default from_option id].
    match goal with |- context [put_object l ?x st1] => set (s3 := x) end.
    set (st3 := put_object l s3 st1).
    assert (Ho3 : objects st3 !! l = Some s3) by apply put_object_lookup.
    assert (Hs3 : sessions st3 !! s_id s3 = Some l) by done.
    rewrite (save_session_run l _ st3 Ho3 Hs3).
    rewrite bind_run, (read_session_run l _ st3 Ho3).
    cbn [s3 s_creds default from_option id].
    rewrite bind_run, (flows_loop_run flows l _ _ _ st3 Ho3) by (rewrite Hs3; eauto).
    destruct (some_flow_done flows _); [done|].
    by rewrite bind_run, (auth_dict_for_flows_run hs LT flows l _ st3 Ho3).
  - rewrite ret_run.
    assert (Hs2 : sessions st2 !! s_id (received_session body s) = Some l) by done.
    rewrite bind_run, (read_session_run l _ st2 Ho2).
    cbn [received_session set_creds s_creds s_id s_clientdict default from_option id].
    rewrite bind_run, (flows_loop_run flows l _ _ _ st2 Ho2) by (rewrite Hs2; eauto).
    destruct (some_flow_done flows _); [done|].
    by rewrite bind_run, (auth_dict_for_flows_run hs LT flows l _ st2 Ho2).
Qed.

(** [add_oob_auth] on a registered stage, whatever its checker answers. *)
Lemma add_oob_auth_run stagetype (check : checker) authdict clientip sid o l s st st1 :
  checkers hs LT !! stagetype = Some check →
  authdict !! "session" = Some sid →
  (∀ st', check authdict clientip st' = answer o st') →
  _get_session_info (Some sid) st = Return l st1 →
  objects st1 !! l = Some s → sessions st1 !! s_id s = Some l →
  let creds := default ∅ (s_creds s) in
  add_oob_auth hs LT stagetype authdict clientip st =
    match o with
    | inr e => Raise e (put_object l (set_creds creds s) st1)
    | inl result =>
        if truthy result
        then Return true (put_object l (set_creds (<[stagetype := result]> creds) s) st1)
        else Return false (put_object l (set_creds creds s) st1)
    end.
Proof.
  intros Hc Hsid Hrun Hget Ho Hs creds. unfold add_oob_auth.
  unfold checker in *. rewrite Hc, Hsid. rewrite bind_run, Hget.
  rewrite bind_run, (init_creds_run l s st1 Ho).
  rewrite bind_run, Hrun.
  destruct o as [result|e]; cbn [answer]; [|done].
  destruct (truthy result); [|by rewrite ret_run].
  rewrite bind_run. unfold creds_setitem.
  rewrite (write_session_run l _ _ _ (put_object_lookup _ _ _)), put_object_put.
  cbn [set_creds s_creds s_id s_clientdict default from_option id].
  rewrite bind_run, (save_session_run l _ _ (put_object_lookup _ _ _)) by done.
  by rewrite ret_run.
Qed.

End Ways.

(** ** Prompting and resuming *)

Lemma tape_block_nonempty (j : nat) (random : list ascii) :
  (24 * (j + 1) ≤ List.length random)%nat → tape_block j random ≠ "".
Proof.
  intros Hlen He. apply (f_equal String.length) in He.
  rewrite tape_block_length in He by done. discriminate He.
Qed.

(** X10. A request without an auth dict, or with an empty one, is always
    answered with a challenge for a session created by this call, also when
    the rest of the request is empty: the challenge carries the new session
    id, 24 characters that were not a key of the store, the flows as given,
    and no [completed] list; the third component is the request without its
    [auth] key; the new session holds that body when it is not empty, and no
    credentials; no other session is touched. *)
Theorem check_auth_prompts_without_auth (hs : HomeServer) (LT : LoginType)
    (flows : list (list string)) (clientdict : pydict) (clientip : string)
    (st : AuthHandler) :
  clientdict !! "auth" = None ∨ clientdict !! "auth" = Some (PDict ∅) →
  supplies_fresh_id st →
  let body := delete "auth" clientdict in
  ∃ sid l st',
    check_auth hs LT flows clientdict clientip st
      = Return (false, Challenge (AuthDict sid flows (flow_params hs LT flows) None), body)
          st' ∧
    String.length sid = 24%nat ∧ (sid ∉ dom (sessions st)) ∧ (l ∉ dom (objects st)) ∧
    sessions st' = <[sid := l]> (sessions st) ∧
    objects st' =
      <[l := Session sid (if Nat.eqb (size body) 0 then None else Some body) None]>
        (objects st).
Proof.
  intros Hauth Hsup body.
  destruct (resolves_to_new st None I Hsup) as (sid & j & Hsid & Hfresh & Hlen & Hget & Ho & Hs).
  exists sid, (fresh (dom (objects st))),
    (put_object (fresh (dom (objects st)))
       (Session sid (if Nat.eqb (size body) 0 then None else Some body) None)
       (with_new_session sid (24 * (j + 1)) st)).
  split.
  - rewrite (check_auth_prompt_run hs LT flows clientdict clientip _ _ st _ Hauth Hget Ho Hs).
    fold body. unfold request_params. cbn [s_id s_clientdict s_creds default from_option id].
    by destruct (Nat.eqb (size body) 0).
  - split; [done|]. split; [done|]. split; [apply fresh_object|]. split; [done|].
    cbn. by rewrite insert_insert_eq.
Qed.

Lemma check_auth_prompts_without_auth_witness :
  ∃ sid st',
    check_auth demo_hs demo_LT [["m.login.dummy"]] {[ "username" := PStr "a" ]} "10.0.0.1"
      (empty_handler 0 (list_ascii_of_string "abcdefghijklmnopqrstuvwx"))
      = Return (false,
                Challenge (AuthDict sid [["m.login.dummy"]]
                             (flow_params demo_hs demo_LT [["m.login.dummy"]]) None),
                {[ "username" := PStr "a" ]}) st'.
Proof.
  destruct (check_auth_prompts_without_auth demo_hs demo_LT [["m.login.dummy"]]
              {[ "username" := PStr "a" ]} "10.0.0.1"
              (empty_handler 0 (list_ascii_of_string "abcdefghijklmnopqrstuvwx")))
    as (sid & l & st' & Hrun & _).
  - by left.
  - exists 0%nat. split; [cbn; lia|]. cbn. apply not_elem_of_empty.
  - exists sid, st'. rewrite Hrun. do 2 f_equal.
Defined.

Section ChallengeParams.

Context (hs : HomeServer) (LT : LoginType).

Lemma flow_params_step_kept (stages : list string) :
  foldl (λ (params : gmap string pydict) stage,
           match ({[ RECAPTCHA LT := _get_params_recaptcha hs ]} : gmap string pydict) !! stage,
                 params !! stage with
           | Some p, None => <[stage := p]> params
           | _, _ => params
           end) {[ RECAPTCHA LT := _get_params_recaptcha hs ]} stages
  = {[ RECAPTCHA LT := _get_params_recaptcha hs ]}.
Proof.
  induction stages as [|stage stages IH]; cbn [foldl]; [done|].
  destruct (decide (stage = RECAPTCHA LT)) as [->|Hne].
  - by rewrite lookup_singleton_eq.
  - by rewrite lookup_singleton_ne.
Qed.

Lemma flow_params_spec (flows : list (list string)) :
  flow_params hs LT flows =
    if bool_decide (RECAPTCHA LT ∈ concat flows)
    then {[ RECAPTCHA LT := _get_params_recaptcha hs ]} else ∅.
Proof.
  unfold flow_params. induction (concat flows) as [|stage stages IH]; cbn [foldl].
  - rewrite bool_decide_eq_false_2; [done|]. apply not_elem_of_nil.
  - destruct (decide (stage = RECAPTCHA LT)) as [->|Hne].
    + rewrite lookup_singleton_eq, lookup_empty, insert_empty, flow_params_step_kept.
      rewrite bool_decide_eq_true_2; [done|left].
    + rewrite lookup_singleton_ne by done. rewrite IH.
      rewrite (bool_decide_ext (RECAPTCHA LT ∈ stage :: stages) (RECAPTCHA LT ∈ stages));
        [done|]. rewrite elem_of_cons. naive_solver.
Qed.

End ChallengeParams.

(** X11. The challenge built for a session echoes the flows as given, names
    the session by its id, and advertises parameters for the recaptcha stage
    alone: the map [{public_key: <configured key>}] under the recaptcha
    stage name exactly when that stage occurs in some flow, and nothing
    otherwise. Building it changes nothing. *)
Theorem challenge_advertises_recaptcha_key (hs : HomeServer) (LT : LoginType)
    (flows : list (list string)) (l : loc) (s : session) (st : AuthHandler) :
  objects st !! l = Some s →
  _auth_dict_for_flows hs LT flows l st =
    Return (AuthDict (s_id s) flows
              (if bool_decide (RECAPTCHA LT ∈ concat flows)
               then {[ RECAPTCHA LT := {[ "public_key" := PStr (recaptcha_public_key hs) ]} ]}
               else ∅)
              None) st.
Proof.
  intros Ho. rewrite (auth_dict_for_flows_run hs LT flows l s st Ho).
  by rewrite flow_params_spec.
Qed.

Lemma challenge_advertises_recaptcha_key_witness :
  let st := with_new_session "s1" 0 (empty_handler 0 []) in
  ∃ ret, _auth_dict_for_flows demo_hs demo_LT
           [["m.login.password"]; ["m.login.recaptcha"; "m.login.dummy"]] 0%nat st
         = Return ret st ∧
         ad_params ret = {[ "m.login.recaptcha" := {[ "public_key" := PStr "site-key" ]} ]}.
Proof.
  intros st.
  assert (Ho : objects st !! 0%nat = Some (Session "s1" None None)) by (by vm_compute).
  pose proof (challenge_advertises_recaptcha_key demo_hs demo_LT
                [["m.login.password"]; ["m.login.recaptcha"; "m.login.dummy"]] 0%nat _ st Ho)
    as H.
  eexists. split; [exact H|]. cbn [ad_params].
  rewrite bool_decide_eq_true_2; [reflexivity|].
  cbn. apply list_elem_of_further, list_elem_of_here.
Defined.

(** X12. Parameters given in one call are handed back in a later one. After
    a request with a non-empty body and no auth dict has been answered with
    a challenge for the session [sid], a request that consists of an auth
    dict naming [sid] and presenting no stage returns that earlier body as
    its third component, whether it completes or challenges again. *)
Theorem check_auth_resumes_saved_params (hs : HomeServer) (LT : LoginType)
    (flows : list (list string)) (body : pydict) (clientip1 clientip2 : string)
    (st : AuthHandler) :
  body !! "auth" = None → body ≠ ∅ → supplies_fresh_id st →
  ∃ ret st1,
    check_auth hs LT flows body clientip1 st = Return (false, Challenge ret, body) st1 ∧
    ∀ authdict,
      authdict !! "session" = Some (PStr (ad_session ret)) → authdict !! "type" = None →
      ∃ authed p st2,
        check_auth hs LT flows {[ "auth" := PDict authdict ]} clientip2 st1
          = Return (authed, p, body) st2.
Proof.
  intros Hauth Hne Hsup.
  destruct (resolves_to_new st None I Hsup) as (sid & j & Hsid & Hfresh & Hlen & Hget & Ho & Hs).
  assert (Hsize : Nat.eqb (size body) 0 = false).
  { apply Nat.eqb_neq. by rewrite map_size_empty_iff. }
  assert (Hbody : delete "auth" body = body) by (by apply delete_id).
  rewrite (check_auth_prompt_run hs LT flows body clientip1 _ _ st _ (or_introl Hauth)
             Hget Ho Hs).
  rewrite Hbody. unfold request_params. rewrite Hsize.
  cbn [s_id s_clientdict s_creds].
  set (s1 := Session sid (Some body) None).
  set (st1 := put_object _ s1 _).
  eexists _, st1. split; [reflexivity|]. cbn [ad_session].
  intros authdict Hsession Hty.
  assert (Hsid_ne : sid ≠ "").
  { intros ->. discriminate Hlen. }
  assert (Ho1 : objects st1 !! fresh (dom (objects st)) = Some s1) by apply put_object_lookup.
  assert (Hs1 : sessions st1 !! sid = Some (fresh (dom (objects st)))) by exact Hs.
  assert (Hget1 : _get_session_info (authdict !! "session") st1
                  = Return (fresh (dom (objects st))) st1).
  { rewrite Hsession. by apply get_session_info_existing. }
  assert (Hne1 : authdict ≠ ∅).
  { intros ->. by rewrite lookup_empty in Hsession. }
  rewrite (check_auth_no_type_run hs LT flows {[ "auth" := PDict authdict ]} clientip2
             authdict _ s1 st1 st1 (lookup_singleton_eq _ _) Hty Hne1 Hget1 Ho1 Hs1).
  rewrite delete_singleton_eq. unfold request_params. rewrite map_size_empty.
  cbn [Nat.eqb s1 s_clientdict default from_option id].
  destruct (some_flow_done flows _); eauto.
Qed.

Lemma check_auth_resumes_saved_params_witness :
  let st := empty_handler 0 (list_ascii_of_string "abcdefghijklmnopqrstuvwx") in
  let body : pydict := {[ "username" := PStr "a" ]} in
  ∃ ret st1 authed p st2,
    check_auth demo_hs demo_LT [["m.login.dummy"]] body "10.0.0.1" st
      = Return (false, Challenge ret, body) st1 ∧
    check_auth demo_hs demo_LT [["m.login.dummy"]]
      {[ "auth" := PDict {[ "session" := PStr (ad_session ret) ]} ]} "10.0.0.2" st1
      = Return (authed, p, body) st2.
Proof.
  intros st body.
  destruct (check_auth_resumes_saved_params demo_hs demo_LT [["m.login.dummy"]] body
              "10.0.0.1" "10.0.0.2" st) as (ret & st1 & Hrun & Hnext).
  - by vm_compute.
  - intros He. apply (f_equal (λ m : pydict, m !! "username")) in He. discriminate He.
  - exists 0%nat. split; [cbn; lia|]. cbn. apply not_elem_of_empty.
  - destruct (Hnext {[ "session" := PStr (ad_session ret) ]}) as (authed & p & st2 & Hrun2).
    + apply lookup_singleton_eq.
    + by apply lookup_singleton_ne.
    + exists ret, st1, authed, p, st2. split; [exact Hrun|exact Hrun2].
Defined.

(** ** Out-of-band credit and failed stages *)

Lemma demo_checkers_recaptcha :
  checkers demo_hs demo_LT !! "m.login.recaptcha" = Some (_check_recaptcha demo_hs).
Proof.
  unfold checkers. cbn [DUMMY EMAIL_IDENTITY RECAPTCHA PASSWORD demo_LT].
  rewrite !lookup_insert_ne by discriminate. apply lookup_insert_eq.
Qed.

Lemma demo_checkers_password :
  checkers demo_hs demo_LT !! "m.login.password" = Some (_check_password_auth demo_hs).
Proof.
  unfold checkers. cbn [DUMMY EMAIL_IDENTITY RECAPTCHA PASSWORD demo_LT].
  rewrite !lookup_insert_ne by discriminate. apply lookup_insert_eq.
Qed.

Lemma checker_answer_at hs LT (t : string) (check : checker) authdict clientip o st :
  checkers hs LT !! t = Some check →
  check authdict clientip st = answer o st →
  ∀ st', check authdict clientip st' = answer o st'.
Proof.
  intros Hc Hrun. destruct (checkers_answer hs LT t check authdict clientip Hc) as (o' & Hall & _).
  rewrite Hall in Hrun. intros st'. rewrite Hall.
  destruct o', o; cbn in Hrun; by simplify_eq.
Qed.

(** X13. [add_oob_auth] for a registered stage and a stored session returns
    whether the credential its checker returns is truthy, and passes on the
    error when the checker raises. A truthy credential is recorded under the
    stage type in the session's credentials; in every other case the
    credentials keep their entries, an absent map becoming an empty one. The
    session store keeps all its sessions, and the session's id and saved
    request body are as they were. *)
Theorem add_oob_auth_credits (hs : HomeServer) (LT : LoginType) (stagetype : string)
    (check : checker) (authdict : pydict) (clientip : string) (o : pyval + exn)
    (sid : string) (l : loc) (s : session) (st : AuthHandler) :
  checkers hs LT !! stagetype = Some check →
  check authdict clientip st = answer o st →
  authdict !! "session" = Some (PStr sid) → sid ≠ "" →
  sessions st !! sid = Some l → objects st !! l = Some s → s_id s = sid →
  let creds := default ∅ (s_creds s) in
  let creds' :=
    match o with
    | inl result => if truthy result then <[stagetype := result]> creds else creds
    | inr _ => creds
    end in
  ∃ st',
    add_oob_auth hs LT stagetype authdict clientip st =
      match o with
      | inl result => Return (truthy result) st'
      | inr e => Raise e st'
      end ∧
    sessions st' = sessions st ∧
    objects st' = <[l := Session sid (s_clientdict s) (Some creds')]> (objects st).
Proof.
  intros Hc Hrun Hsid Hne Hl Ho Hid creds creds'.
  destruct (resolves_to_stored st sid l s Hne Hl Ho Hid) as (Hget & _ & Hs).
  pose proof (checker_answer_at hs LT stagetype check authdict clientip o st Hc Hrun) as Hall.
  rewrite (add_oob_auth_run hs LT stagetype check authdict clientip _ o l s st st
             Hc Hsid Hall Hget Ho Hs).
  fold creds. subst creds'. destruct o as [result|e].
  - destruct (truthy result); eexists; (split; [reflexivity|]); by rewrite <- Hid.
  - eexists. split; [reflexivity|]. by rewrite <- Hid.
Qed.

Lemma add_oob_auth_credits_witness :
  let st := with_new_session "s1" 0 (empty_handler 0 []) in
  ∃ st',
    add_oob_auth demo_hs demo_LT "m.login.recaptcha"
      (<["response" := PStr "r"]> {[ "session" := PStr "s1" ]}) "10.0.0.1" st
      = Return true st' ∧
    objects st' !! 0%nat
      = Some (Session "s1" None (Some {[ "m.login.recaptcha" := PBool true ]})).
Proof.
  intros st.
  destruct (add_oob_auth_credits demo_hs demo_LT "m.login.recaptcha" (_check_recaptcha demo_hs)
              (<["response" := PStr "r"]> {[ "session" := PStr "s1" ]}) "10.0.0.1"
              (inl (PBool true)) "s1" 0%nat (Session "s1" None None) st)
    as (st' & Hrun & _ & Hobj);
    [exact demo_checkers_recaptcha|by vm_compute|by vm_compute|discriminate
    |by vm_compute|by vm_compute|by vm_compute|].
  exists st'. split; [exact Hrun|]. rewrite Hobj. rewrite lookup_insert_eq.
  cbn [s_clientdict s_creds default from_option id truthy]. by rewrite insert_empty.
Defined.

(** X14. A stage credited out of band completes the flow at the next poll.
    After [add_oob_auth] has credited the stage [t] to a stored session, a
    [check_auth] request that names the session and presents no stage
    returns the complete result, with the session's credentials including
    [t], and removes the session, when some flow has all its stages among
    those credentials; otherwise it answers with a challenge that lists the
    credited stages as completed, and keeps the session. *)
Theorem oob_auth_then_poll_completes (hs : HomeServer) (LT : LoginType)
    (flows : list (list string)) (t : string) (check : checker)
    (oob_dict poll_dict : pydict) (clientip1 clientip2 : string) (result : pyval)
    (sid : string) (l : loc) (s : session) (st : AuthHandler) :
  checkers hs LT !! t = Some check →
  check oob_dict clientip1 st = Return result st → truthy result = true →
  oob_dict !! "session" = Some (PStr sid) →
  poll_dict !! "session" = Some (PStr sid) → poll_dict !! "type" = None →
  sid ≠ "" → sessions st !! sid = Some l → objects st !! l = Some s → s_id s = sid →
  let creds := <[t := result]> (default ∅ (s_creds s)) in
  let params := default ∅ (s_clientdict s) in
  ∃ st1,
    add_oob_auth hs LT t oob_dict clientip1 st = Return true st1 ∧
    ((∃ g, g ∈ flows ∧ flow_satisfied g (dom creds)) →
     ∃ st2, check_auth hs LT flows {[ "auth" := PDict poll_dict ]} clientip2 st1
              = Return (true, Creds creds, params) st2 ∧
            sessions st2 = delete sid (sessions st)) ∧
    (¬ (∃ g, g ∈ flows ∧ flow_satisfied g (dom creds)) →
     ∃ ret, check_auth hs LT flows {[ "auth" := PDict poll_dict ]} clientip2 st1
              = Return (false, Challenge ret, params) st1 ∧
            ad_session ret = sid ∧ ad_completed ret = Some (map_to_list creds).*1).
Proof.
  intros Hc Hrun Htruthy Hoob Hpoll Hty Hne Hl Ho Hid creds params.
  destruct (resolves_to_stored st sid l s Hne Hl Ho Hid) as (Hget & _ & Hs).
  pose proof (checker_answer_at hs LT t check oob_dict clientip1 (inl result) st Hc Hrun)
    as Hall.
  rewrite (add_oob_auth_run hs LT t check oob_dict clientip1 _ (inl result) l s st st
             Hc Hoob Hall Hget Ho Hs).
  rewrite Htruthy. fold creds.
  set (s1 := set_creds creds s). set (st1 := put_object l s1 st).
  exists st1. split; [reflexivity|].
  assert (Ho1 : objects st1 !! l = Some s1) by apply put_object_lookup.
  assert (Hs1 : sessions st1 !! s_id s1 = Some l) by exact Hs.
  assert (Hget1 : _get_session_info (poll_dict !! "session") st1 = Return l st1).
  { rewrite Hpoll. apply get_session_info_existing; [done|]. by rewrite <- Hid. }
  assert (Hne1 : poll_dict ≠ ∅).
  { intros ->. by rewrite lookup_empty in Hpoll. }
  pose proof (check_auth_no_type_run hs LT flows {[ "auth" := PDict poll_dict ]} clientip2
                poll_dict l s1 st1 st1 (lookup_singleton_eq _ _) Hty Hne1 Hget1 Ho1 Hs1)
    as Hcheck.
  cbv zeta in Hcheck. rewrite delete_singleton_eq in Hcheck.
  unfold request_params in Hcheck. rewrite map_size_empty in Hcheck.
  cbn [Nat.eqb s1 set_creds s_creds s_clientdict s_id default from_option id
       received_session] in Hcheck.
  assert (Hsame : put_object l (received_session ∅ s1) st1 = st1).
  { apply put_object_id. exact Ho1. }
  rewrite Hsame in Hcheck. split.
  - intros Hsat. apply some_flow_done_satisfied in Hsat. rewrite Hsat in Hcheck.
    eexists. split; [exact Hcheck|]. cbn. by rewrite Hid.
  - intros Hsat. destruct (some_flow_done flows creds) eqn:Hdone.
    { destruct Hsat. by apply some_flow_done_satisfied. }
    eexists. split; [exact Hcheck|]. by split.
Qed.

Lemma oob_auth_then_poll_completes_witness :
  let st := with_new_session "s1" 0 (empty_handler 0 []) in
  ∃ st1 st2,
    add_oob_auth demo_hs demo_LT "m.login.recaptcha"
      (<["response" := PStr "r"]> {[ "session" := PStr "s1" ]}) "10.0.0.1" st
      = Return true st1 ∧
    check_auth demo_hs demo_LT [["m.login.recaptcha"]]
      {[ "auth" := PDict {[ "session" := PStr "s1" ]} ]} "10.0.0.2" st1
      = Return (true, Creds {[ "m.login.recaptcha" := PBool true ]}, ∅) st2.
Proof.
  intros st.
  destruct (oob_auth_then_poll_completes demo_hs demo_LT [["m.login.recaptcha"]]
              "m.login.recaptcha" (_check_recaptcha demo_hs)
              (<["response" := PStr "r"]> {[ "session" := PStr "s1" ]})
              {[ "session" := PStr "s1" ]} "10.0.0.1" "10.0.0.2" (PBool true)
              "s1" 0%nat (Session "s1" None None) st)
    as (st1 & Hoob & Hdone & _);
    [exact demo_checkers_recaptcha|by vm_compute|by vm_compute|by vm_compute|by vm_compute
    |by vm_compute|discriminate|by vm_compute|by vm_compute|by vm_compute|].
  destruct Hdone as (st2 & Hrun & _).
  - exists ["m.login.recaptcha"]. split; [left|].
    intros stage ->%list_elem_of_singleton. cbn. rewrite dom_insert_L.
    apply elem_of_union_l, elem_of_singleton. reflexivity.
  - exists st1, st2. split; [exact Hoob|]. rewrite Hrun. cbn. by rewrite insert_empty.
Defined.

(** X15. A stage whose checker raises leaves the session in place. When a
    request presents a registered stage and the checker raises, [check_auth]
    raises the same error; the session the request resolves to is still
    registered under its id, its credentials have the entries they had (an
    absent map having become an empty one), and a non-empty rest of the
    request has been saved on it. *)
Theorem failed_stage_keeps_session (hs : HomeServer) (LT : LoginType)
    (flows : list (list string)) (clientdict authdict : pydict) (clientip t : string)
    (check : checker) (e : exn) (l : loc) (s : session) (st st1 : AuthHandler) :
  clientdict !! "auth" = Some (PDict authdict) →
  authdict !! "type" = Some (PStr t) → checkers hs LT !! t = Some check →
  check authdict clientip st = Raise e st →
  resolves_to st (authdict !! "session") l s st1 →
  let body := delete "auth" clientdict in
  ∃ st2,
    check_auth hs LT flows clientdict clientip st = Raise e st2 ∧
    sessions st2 = sessions st1 ∧ sessions st2 !! s_id s = Some l ∧
    objects st2 =
      <[l := Session (s_id s) (if Nat.eqb (size body) 0 then s_clientdict s else Some body)
               (Some (default ∅ (s_creds s)))]> (objects st1).
Proof.
  intros Hauth Hty Hc Hrun (Hget & Ho & Hs) body.
  pose proof (checker_answer_at hs LT t check authdict clientip (inr e) st Hc Hrun) as Hall.
  rewrite (check_auth_answer_run hs LT flows clientdict clientip authdict t check (inr e)
             l s st st1 Hauth Hty Hc Hall Hget Ho Hs).
  eexists. split; [reflexivity|]. by split.
Qed.

Lemma failed_stage_keeps_session_witness :
  let st := with_new_session "s1" 0 (empty_handler 0 []) in
  let authdict : pydict :=
    <["session" := PStr "s1"]> (<["type" := PStr "m.login.password"]>
      (<["user" := PStr "a"]> {[ "password" := PStr "wrong" ]})) in
  ∃ st2,
    check_auth demo_hs demo_LT [["m.login.password"]] {[ "auth" := PDict authdict ]}
      "10.0.0.1" st = Raise ForbiddenError st2 ∧
    sessions st2 !! "s1" = Some 0%nat.
Proof.
  intros st authdict.
  destruct (failed_stage_keeps_session demo_hs demo_LT [["m.login.password"]]
              {[ "auth" := PDict authdict ]} authdict "10.0.0.1" "m.login.password"
              (_check_password_auth demo_hs) ForbiddenError 0%nat (Session "s1" None None)
              st st)
    as (st2 & Hrun & _ & Hs & _);
    [by vm_compute|by vm_compute|exact demo_checkers_password|by vm_compute| |].
  - split; [by vm_compute|]. split; by vm_compute.
  - exists st2. split; [exact Hrun|exact Hs].
Defined.

(** ** Every way through [_get_session_info] *)

Lemma set_tape_drop (n m : nat) (st : AuthHandler) :
  set_tape (drop n) (set_tape (drop m) st) = set_tape (drop (m + n)) st.
Proof. unfold set_tape. cbn. by rewrite drop_drop. Qed.

Lemma new_session_id_result (rounds : nat) :
  ∀ st sid st', new_session_id rounds st = Return sid st' →
    ∃ n, st' = set_tape (drop n) st ∧ (sid ∉ dom (sessions st)).
Proof.
  induction rounds as [|rounds IH]; intros st sid st' H; [done|].
  cbn [new_session_id] in H. rewrite bind_run in H. unfold random_string in H.
  case_decide; [|done]. rewrite bind_run in H. unfold gets in H.
  case_bool_decide as Hin.
  - apply IH in H as (n & -> & Hn). exists (24 + n)%nat. split; [apply set_tape_drop|done].
  - rewrite ret_run in H. injection H as <- <-. exists 24%nat. split; [done|]. exact Hin.
Qed.

Lemma create_session_cases (st : AuthHandler) :
  match (rounds ← gets (λ st, S (List.length (tape st)));
         session_id ← new_session_id rounds;
         l ← alloc_session session_id;
         _ ← modify (set_sessions (<[session_id := l]>));
         mret session_id) st with
  | Return sid st1 => ∃ n, st1 = with_new_session sid n st ∧ (sid ∉ dom (sessions st))
  | Raise _ _ => False
  | Stuck => True
  end.
Proof.
  rewrite bind_run. unfold gets. rewrite bind_run.
  pose proof (new_session_id_frame (S (List.length (tape st))) st) as Hf.
  destruct (new_session_id _ st) as [sid st'| |] eqn:Hn; [|done..].
  apply new_session_id_result in Hn as (n & -> & Hfresh).
  unfold alloc_session. mrun. by exists n.
Qed.

Lemma get_session_info_cases (session_id : option pyval) (st : AuthHandler) :
  store_inv st →
  match _get_session_info session_id st with
  | Return l st1 =>
      ∃ s, objects st1 !! l = Some s ∧ sessions st1 !! s_id s = Some l ∧
           (st1 = st ∨
            ∃ n, st1 = with_new_session (s_id s) n st ∧ s = Session (s_id s) None None ∧
                 l = fresh (dom (objects st)) ∧ sessions st !! s_id s = None)
  | Raise e st1 =>
      e = TypeError ∧ st1 = st ∧ ∃ v, session_id = Some v ∧ hashable v = false
  | Stuck => True
  end.
Proof.
  intros Hinv.
  assert (Hnew : ∀ resolved : option string,
    match resolved with None => true | Some s => String.eqb s "" end = true →
    match ((if match resolved with None => true | Some s => String.eqb s "" end
            then
              rounds ← gets (λ st, S (List.length (tape st)));
              session_id ← new_session_id rounds;
              l ← alloc_session session_id;
              _ ← modify (set_sessions (<[session_id := l]>));
              mret session_id
            else mret (default "" resolved)) ≫= sessions_getitem) st with
    | Return l st1 =>
        ∃ s, objects st1 !! l = Some s ∧ sessions st1 !! s_id s = Some l ∧
             (st1 = st ∨
              ∃ n, st1 = with_new_session (s_id s) n st ∧ s = Session (s_id s) None None ∧
                   l = fresh (dom (objects st)) ∧ sessions st !! s_id s = None)
    | Raise e st1 =>
        e = TypeError ∧ st1 = st ∧ ∃ v, session_id = Some v ∧ hashable v = false
    | Stuck => True
    end).
  { intros resolved ->. rewrite bind_run.
    pose proof (create_session_cases st) as Hc.
    match type of Hc with match ?m with _ => _ end => destruct m as [sid st1| |] end;
      [|done..].
    destruct Hc as (n & -> & Hfresh). unfold sessions_getitem. cbn.
    rewrite lookup_insert_eq. exists (Session sid None None). cbn.
    rewrite !lookup_insert_eq. split; [done|]. split; [done|]. right. exists n.
    split; [done|]. split; [done|]. split; [done|]. by apply not_elem_of_dom. }
  unfold _get_session_info.
  destruct session_id as [v|].
  - destruct v as [| | |s| |]; cbn [hashable negb];
      try (rewrite bind_run; split; [done|]; split; [done|]; by eauto);
      try (rewrite bind_run, ret_run; by apply (Hnew None)).
    rewrite bind_run, (known_session_run s st).
    case_bool_decide as Hin; [|by apply (Hnew None)].
    destruct (decide (s = "")) as [->|Hs].
    + by apply (Hnew (Some "")).
    + apply String.eqb_neq in Hs.
      rewrite bind_run. cbn [default from_option id]. rewrite Hs, ret_run.
      unfold sessions_getitem. apply elem_of_dom in Hin as [l Hl]. rewrite Hl.
      destruct (Hinv s l Hl) as (s' & Ho & Hid). exists s'. rewrite Hid. by eauto.
  - rewrite bind_run, ret_run. by apply (Hnew None).
Qed.

(** X16. [_get_session_info] only ever adds to the session store. In a
    store that satisfies the invariant, it raises exactly when the session
    id cannot be a dict key (a list or a dict): such an id always raises
    [TypeError] with nothing changed, and there is no other error, so it
    never raises [KeyError], and a call that returns, or that fails to
    finish for want of random characters, was given no id or one that can be
    a key. When it returns, every session stored before is still stored
    under the same id, no session dict has been altered, and the dict it
    returns is stored under its own id: either nothing changed at all, or
    that dict is the one new session, empty but for its id. *)
Theorem get_session_info_only_adds (session_id : option pyval) (st : AuthHandler) :
  store_inv st →
  (∀ v, session_id = Some v → hashable v = false →
        _get_session_info session_id st = Raise TypeError st) ∧
  match _get_session_info session_id st with
  | Return l st1 =>
      (∀ v, session_id = Some v → hashable v = true) ∧
      sessions st ⊆ sessions st1 ∧ objects st ⊆ objects st1 ∧
      ∃ s, objects st1 !! l = Some s ∧ sessions st1 !! s_id s = Some l ∧
           (st1 = st ∨
            (sessions st1 = <[s_id s := l]> (sessions st) ∧
             objects st1 = <[l := Session (s_id s) None None]> (objects st) ∧
             sessions st !! s_id s = None ∧ objects st !! l = None))
  | Raise e st1 =>
      e = TypeError ∧ st1 = st ∧ ∃ v, session_id = Some v ∧ hashable v = false
  | Stuck => ∀ v, session_id = Some v → hashable v = true
  end.
Proof.
  intros Hinv.
  assert (Hraise : ∀ v, session_id = Some v → hashable v = false →
            _get_session_info session_id st = Raise TypeError st).
  { intros v -> Hh. unfold _get_session_info. rewrite Hh. cbn [negb].
    by rewrite bind_run. }
  assert (Hhash : ∀ v, session_id = Some v →
            (∀ e st1, _get_session_info session_id st ≠ Raise e st1) → hashable v = true).
  { intros v Hv Hno. destruct (hashable v) eqn:Hh; [done|].
    by destruct (Hno TypeError st (Hraise v Hv Hh)). }
  split; [exact Hraise|].
  pose proof (get_session_info_cases session_id st Hinv) as H.
  destruct (_get_session_info session_id st) as [l st1|e st1|] eqn:Hrun; [|done|].
  - split; [intros v Hv; by apply (Hhash v Hv)|].
    destruct H as (s & Ho & Hs & [->|(n & -> & Hnew & -> & Hnone)]).
    + split; [done|]. split; [done|]. exists s. by eauto.
    + assert (Hl : objects st !! fresh (dom (objects st)) = None)
        by apply not_elem_of_dom, fresh_object.
      split; [by apply insert_subseteq|]. split; [by apply insert_subseteq|].
      exists s. split; [done|]. split; [done|]. right. cbn. by rewrite <- Hnew.
  - intros v Hv. by apply (Hhash v Hv).
Qed.

Lemma get_session_info_only_adds_witness :
  let st := with_new_session "s1" 0 (empty_handler 0 []) in
  store_inv st ∧
  _get_session_info (Some (PList [])) st = Raise TypeError st ∧
  match _get_session_info (Some (PStr "s1")) st with
  | Return l st1 => sessions st ⊆ sessions st1 ∧ objects st ⊆ objects st1
  | _ => False
  end.
Proof.
  intros st.
  assert (Hinv : store_inv st).
  { intros k l. cbn. intros [[<- <-]|[_ H]]%lookup_insert_Some.
    - exists (Session "s1" None None). by rewrite lookup_insert_eq.
    - by rewrite lookup_empty in H. }
  split; [exact Hinv|]. split.
  - by apply (proj1 (get_session_info_only_adds (Some (PList [])) st Hinv) (PList [])).
  - pose proof (proj2 (get_session_info_only_adds (Some (PStr "s1")) st Hinv)) as H.
    assert (Hrun : _get_session_info (Some (PStr "s1")) st = Return 0%nat st)
      by (by vm_compute).
    try rewrite Hrun in H. rewrite Hrun. destruct H as (_ & Hs & Ho & _). by split.
Defined.

(** ** Every way through [check_auth] *)

Section Outcomes.

Context (hs : HomeServer) (LT : LoginType).





End Outcomes.



(** ** Minting and the time caveat *)

(** X18. Minting for a nonce that is not bound returns the serialization of
    a macaroon signed under the configured secret whose caveats are, in this
    order, [gen = 1], [user_id = <user_id>], [type = st_login],
    [time < <now + 60000>] and [nonce = <nonce>]; it records the nonce for
    the user as unbound with expiry [now + 60000], and leaves every other
    nonce record, the session store, the clock and the random source as they
    were. *)
Theorem make_short_term_token_mints (hs : HomeServer) (lib : pymacaroons)
    (user_id nonce : string) (st : AuthHandler) :
  nonce_bound st user_id nonce = false →
  ∃ m st',
    make_short_term_token hs lib user_id nonce st = Return (serialize lib m) st' ∧
    caveats m = ["gen = 1"; "user_id = " +:+ user_id; "type = st_login";
                 "time < " +:+ fmt_d (clock st + 60000); "nonce = " +:+ nonce] ∧
    signed_under lib (macaroon_secret_key hs) m ∧
    nonce_record st' user_id nonce = Some (NonceDict None (Some (clock st + 60000)%Z)) ∧
    (∀ u n, (u, n) ≠ (user_id, nonce) → nonce_record st' u n = nonce_record st u n) ∧
    sessions st' = sessions st ∧ objects st' = objects st ∧
    clock st' = clock st ∧ tape st' = tape st.
Proof.
  intros Hfree. rewrite make_short_term_token_eq, Hfree.
  eexists _, _. split; [reflexivity|]. split; [reflexivity|]. split; [reflexivity|].
  split; [apply nonce_record_claim|]. split; [|done].
  intros u n Hne. unfold nonce_record. cbn.
  destruct (decide (u = user_id)) as [->|Hu].
  - rewrite lookup_insert_eq. cbn. rewrite lookup_insert_ne by congruence.
    by destruct (_nonces st !! user_id).
  - by rewrite lookup_insert_ne.
Qed.

Lemma make_short_term_token_mints_witness :
  ∃ m st',
    make_short_term_token demo_hs demo_lib "@a:x" "n1" prune_input
      = Return (serialize demo_lib m) st' ∧
    nonce_record st' "@a:x" "n1" = Some (NonceDict None (Some 160000%Z)) ∧
    nonce_record st' "@a:x" "old" = Some (NonceDict None (Some 10000%Z)).
Proof.
  destruct (make_short_term_token_mints demo_hs demo_lib "@a:x" "n1" prune_input)
    as (m & st' & Hrun & _ & _ & Hrec & Hframe & _); [by vm_compute|].
  exists m, st'. split; [exact Hrun|]. split; [exact Hrec|].
  rewrite Hframe by discriminate. by vm_compute.
Defined.

(** X19. The time predicate of token verification reads back what the
    token generators write. On a caveat [time < <expiry>] written with the
    decimal form of any integer it returns whether the clock is below
    [expiry]; on a caveat that does not start with [time < ] it returns
    false; it raises only [ValueError], on a caveat whose rest is not a
    decimal number; and it never changes the handler. *)
Theorem verify_macaroon_expiry_reads_back (caveat : string) (st : AuthHandler) :
  (∀ expiry, caveat = "time < " +:+ fmt_d expiry →
     _verify_macaroon_expiry caveat st = Return (bool_decide (clock st < expiry)%Z) st) ∧
  (startswith caveat "time < " = false →
     _verify_macaroon_expiry caveat st = Return false st) ∧
  match _verify_macaroon_expiry caveat st with
  | Return _ st' => st' = st
  | Raise e st' =>
      e = ValueError ∧ st' = st ∧ startswith caveat "time < " = true ∧
      int (slice_from 7 caveat) = None
  | Stuck => False
  end.
Proof.
  split; [|split].
  - intros expiry ->. unfold _verify_macaroon_expiry.
    rewrite startswith_app. cbn [negb]. by rewrite slice_from_app, int_fmt_d.
  - intros Hp. unfold _verify_macaroon_expiry. by rewrite Hp.
  - unfold _verify_macaroon_expiry.
    destruct (startswith caveat "time < ") eqn:Hp; cbn [negb String.length]; [|done].
    by destruct (int (slice_from 7 caveat)) as [e|] eqn:He.
Qed.
